(** * nofx: market-data reliability layer, advisory retries, leaderboard
      aggregation and position bookkeeping

    A shallow embedding of the Go sources

      - [market/monitor.go]            (the kline cache, [WSMonitor])
      - [market/combined_streams.go]   (the multiplexed stream client)
      - [manager/trader_manager.go]    (the registry and its queries)
      - [mcp/client.go] and the Qwen and DeepSeek clients of package [mcp]
                                       (the advisory call and its set-up)

    together with the two helpers of package [trader] whose tests, but not
    whose bodies, are part of the tree ([calculatePnLPercentage] and
    [detectClosedPositions]).

    Conventions.  Go's [int64] and [time.Duration] are [Z] with the
    wrap-around written out; [float64] is the kernel's binary64; Go strings
    are byte strings ([string]); Go maps are [gmap]s, and a [range] over a
    map is an arbitrary enumeration of its bindings; slices are windows
    into arrays kept in an explicit heap, so that aliasing is visible. *)

From Stdlib Require Import ZArith Floats Bool Ascii String.
From stdpp Require Import gmap strings list fin_maps pretty.

Open Scope Z_scope.

(** ** Go primitives shared by all packages *)

Module Go.

(** [int64] arithmetic: the result of an operation is reduced into
    [-2^63, 2^63). *)
Definition int64_min : Z := - 2 ^ 63.
Definition int64_max : Z := 2 ^ 63 - 1.

Definition wrap64 (z : Z) : Z := (z + 2 ^ 63) mod 2 ^ 64 - 2 ^ 63.

Definition in_int64 (z : Z) : Prop := int64_min <= z <= int64_max.

(** [time.Duration] counts nanoseconds in an [int64]. *)
Definition Duration : Type := Z.

Definition Nanosecond : Duration := 1.
Definition Millisecond : Duration := 1000000.
Definition Second : Duration := 1000000000.
Definition Minute : Duration := 60 * Second.

Definition dmul (a b : Duration) : Duration := wrap64 (a * b).

(** [time.Time], as nanoseconds on one clock. [t.Sub(u)] saturates at the
    ends of [Duration], as package [time] documents. *)
Definition Time : Type := Z.

Definition Sub (t u : Time) : Duration :=
  if t - u <? int64_min then int64_min
  else if int64_max <? t - u then int64_max
  else t - u.

(** [time.Since(t)] read at instant [now]. *)
Definition Since (now t : Time) : Duration := Sub now t.

(** The [error] interface, with the two implementations the sources build:
    [errors.New]/[fmt.Errorf] without a [%w] verb, and [fmt.Errorf] with
    one, which keeps the wrapped error next to the formatted message. *)
Inductive error : Type :=
| errorString (msg : string)
| wrapError (msg : string) (err : error).

Definition Error (e : error) : string :=
  match e with
  | errorString msg => msg
  | wrapError msg _ => msg
  end.

Definition Unwrap (e : error) : option error :=
  match e with
  | errorString _ => None
  | wrapError _ err => Some err
  end.

(** [strings.HasPrefix] and [strings.Contains] on byte strings. *)
Fixpoint HasPrefix (s pre : string) {struct pre} : bool :=
  match pre, s with
  | EmptyString, _ => true
  | String c p', String d s' => if Ascii.eqb c d then HasPrefix s' p' else false
  | String _ _, EmptyString => false
  end.

Fixpoint Contains (s substr : string) : bool :=
  HasPrefix s substr ||
  match s with
  | EmptyString => false
  | String _ s' => Contains s' substr
  end.

(** [strings.ToUpper] and [strings.ToLower], on the ASCII letters; every
    other byte is kept. (Exchange symbols and stream names are ASCII.) *)
Definition upper_byte (c : ascii) : ascii :=
  let n := nat_of_ascii c in
  if ((97 <=? n) && (n <=? 122))%nat then ascii_of_nat (n - 32) else c.

Definition lower_byte (c : ascii) : ascii :=
  let n := nat_of_ascii c in
  if ((65 <=? n) && (n <=? 90))%nat then ascii_of_nat (n + 32) else c.

Fixpoint ToUpper (s : string) : string :=
  match s with
  | EmptyString => EmptyString
  | String c s' => String (upper_byte c) (ToUpper s')
  end.

Fixpoint ToLower (s : string) : string :=
  match s with
  | EmptyString => EmptyString
  | String c s' => String (lower_byte c) (ToLower s')
  end.

(** [strings.HasSuffix] and [strings.TrimSuffix]:
    [len(s) >= len(suffix) && s[len(s)-len(suffix):] == suffix], and
    [s[:len(s)-len(suffix)]] when that holds. *)
Definition HasSuffix (s suffix : string) : bool :=
  (String.length suffix <=? String.length s)%nat &&
  String.eqb
    (substring (String.length s - String.length suffix) (String.length suffix) s) suffix.

Definition TrimSuffix (s suffix : string) : string :=
  if HasSuffix s suffix
  then substring 0 (String.length s - String.length suffix) s
  else s.

Lemma wrap64_id z : in_int64 z -> wrap64 z = z.
Proof.
  unfold in_int64, int64_min, int64_max, wrap64. intros Hz.
  rewrite Z.mod_small; lia.
Qed.

Lemma Sub_exact t u : in_int64 (t - u) -> Sub t u = t - u.
Proof.
  unfold in_int64, Sub. intros [Hlo Hhi].
  destruct (Z.ltb_spec (t - u) int64_min); [lia|].
  destruct (Z.ltb_spec int64_max (t - u)); [lia|]. reflexivity.
Qed.

Lemma Sub_gt t u d : int64_min <= d < int64_max -> (d < Sub t u <-> d < t - u).
Proof.
  unfold Sub, int64_min, int64_max. intros Hd.
  destruct (Z.ltb_spec (t - u) (- 2 ^ 63)); [lia|].
  destruct (Z.ltb_spec (2 ^ 63 - 1) (t - u)); lia.
Qed.

Lemma HasPrefix_spec s p : HasPrefix s p = true <-> exists rest, s = (p +:+ rest).
Proof.
  revert s. induction p as [|c p IH]; intros s; simpl.
  - split; [intros _; by exists s | done].
  - destruct s as [|d s]; simpl.
    + split; [done | intros [rest Hrest]; discriminate].
    + destruct (Ascii.eqb_spec c d) as [->|Hne].
      * rewrite IH. split; intros [rest Hrest]; exists rest.
        -- by rewrite Hrest.
        -- by injection Hrest.
      * split; [done | intros [rest Hrest]; by injection Hrest].
Qed.

Lemma Contains_spec s sub :
  Contains s sub = true <-> exists before after, s = (before +:+ sub +:+ after).
Proof.
  induction s as [|d s IH]; simpl.
  - rewrite orb_false_r, HasPrefix_spec. split.
    + intros [rest Hrest]. by exists EmptyString, rest.
    + intros [[|b before] [after H]]; simpl in H; [by exists after | discriminate].
  - rewrite orb_true_iff, HasPrefix_spec, IH. split.
    + intros [[rest Hrest] | (before & after & H)].
      * by exists EmptyString, rest.
      * exists (String d before), after. simpl. by rewrite H.
    + intros ([|b before] & after & H); simpl in H.
      * left. by exists after.
      * right. exists before, after. by injection H.
Qed.

Lemma length_append (s t : string) :
  String.length (s +:+ t) = (String.length s + String.length t)%nat.
Proof. induction s as [|c s IH]; simpl; [done | by rewrite IH]. Qed.

Lemma substring_append_l (s t : string) : substring 0 (String.length s) (s +:+ t) = s.
Proof.
  induction s as [|c s IH]; simpl; [by destruct t | by rewrite IH].
Qed.

Lemma substring_all (t : string) : substring 0 (String.length t) t = t.
Proof. induction t as [|d t IHt]; simpl; [done | by rewrite IHt]. Qed.

Lemma substring_append_r (s t : string) :
  substring (String.length s) (String.length t) (s +:+ t) = t.
Proof.
  induction s as [|c s IH]; simpl; [apply substring_all | done].
Qed.

Lemma substring_split (n : nat) (s : string) :
  (n <= String.length s)%nat ->
  s = substring 0 n s +:+ substring n (String.length s - n) s.
Proof.
  revert s. induction n as [|n IH]; intros s Hn.
  - rewrite Nat.sub_0_r.
    replace (substring 0 0 s) with EmptyString by (by destruct s). simpl.
    symmetry. apply substring_all.
  - destruct s as [|c s]; simpl in *; [lia|].
    rewrite (IH s) at 1 by lia. reflexivity.
Qed.

Lemma HasSuffix_spec (s suffix : string) :
  HasSuffix s suffix = true <-> exists pre, s = pre +:+ suffix.
Proof.
  unfold HasSuffix. rewrite andb_true_iff, Nat.leb_le, String.eqb_eq. split.
  - intros [Hlen Heq].
    exists (substring 0 (String.length s - String.length suffix) s).
    pose proof (substring_split (String.length s - String.length suffix) s) as Hs.
    replace (String.length s - (String.length s - String.length suffix))%nat
      with (String.length suffix) in Hs by lia.
    rewrite Heq in Hs. apply Hs. lia.
  - intros [pre ->]. rewrite length_append. split; [lia|].
    replace (String.length pre + String.length suffix - String.length suffix)%nat
      with (String.length pre) by lia.
    apply substring_append_r.
Qed.

Lemma TrimSuffix_append (pre suffix : string) : TrimSuffix (pre +:+ suffix) suffix = pre.
Proof.
  unfold TrimSuffix.
  replace (HasSuffix (pre +:+ suffix) suffix) with true
    by (symmetry; apply HasSuffix_spec; by exists pre).
  rewrite length_append.
  replace (String.length pre + String.length suffix - String.length suffix)%nat
    with (String.length pre) by lia.
  apply substring_append_l.
Qed.

Lemma append_assoc (s t u : string) : (s +:+ t) +:+ u = s +:+ t +:+ u.
Proof.
  induction s as [|c s IH]; [done|].
  change (String c ((s +:+ t) +:+ u) = String c (s +:+ t +:+ u)). by rewrite IH.
Qed.

Lemma append_nil_r (s : string) : s +:+ "" = s.
Proof.
  induction s as [|c s IH]; [done|].
  change (String c (s +:+ "") = String c s). by rewrite IH.
Qed.

(** Text put before and after a string keeps what the string contains. *)
Lemma Contains_context (s sub pre post : string) :
  Contains s sub = true -> Contains (pre +:+ s +:+ post) sub = true.
Proof.
  rewrite !Contains_spec. intros (b & a & ->). exists (pre +:+ b), (a +:+ post).
  by rewrite !append_assoc.
Qed.

End Go.

(** ** Package [mcp]: the language-model advisory call *)

Module MCP.
Import Go.

Record Client : Type := {
  Provider : string;
  APIKey : string;
  BaseURL : string;
  Model : string;
  Timeout : Duration;
  UseFullURL : bool;
  MaxTokens : Z
}.

(** The substrings [isRetryableError] looks for, in the order of the
    source. *)
Definition retryableErrors : list string :=
  ["EOF"; "timeout"; "connection reset"; "connection refused";
   "temporary failure"; "no such host"; "stream error"; "INTERNAL_ERROR"].

Definition isRetryableError (err : error) : bool :=
  let errStr := Error err in
  existsb (fun retryable => Contains errStr retryable) retryableErrors.

(** What [CallWithMessages] does to the outside world: invocations of
    [callOnce] (numbered by the loop variable) and calls of [time.Sleep]. *)
Inductive event : Type :=
| CallOnce (attempt : Z)
| Sleep (d : Duration).

Definition is_CallOnce (e : event) : bool :=
  match e with CallOnce _ => true | Sleep _ => false end.

Definition maxRetries : Z := 3.

Definition errNoKey : error :=
  errorString "AI API密钥未设置，请先调用 SetAPIKey".

(** [fmt.Errorf("重试%d次后仍然失败: %w", maxRetries, lastErr)]; a nil
    [lastErr] is printed as [%!w(<nil>)] and nothing is wrapped. *)
Definition errExhausted (lastErr : option error) : error :=
  let head := "重试" +:+ pretty maxRetries +:+ "次后仍然失败: " in
  match lastErr with
  | Some err => wrapError (head +:+ Error err) err
  | None => errorString (head +:+ "%!w(<nil>)")
  end.

Section CallWithMessages.

(** [callOnce attempt systemPrompt userPrompt] is the outcome of the
    HTTP round trip made by the [attempt]-th iteration. *)
Variable callOnce : Z -> string -> string -> string + error.

(** The [for attempt := 1; attempt <= maxRetries; attempt++] loop. [fuel]
    bounds the number of iterations; [None] means the fuel ran out. *)
Fixpoint retryLoop (fuel : nat) (attempt : Z) (lastErr : option error)
    (systemPrompt userPrompt : string)
  : option ((string * option error) * list event) :=
  if attempt <=? maxRetries then
    match fuel with
    | O => None
    | S fuel' =>
      match callOnce attempt systemPrompt userPrompt with
      | inl result => Some ((result, None), [CallOnce attempt])
      | inr err =>
        if negb (isRetryableError err) then
          Some ((EmptyString, Some err), [CallOnce attempt])
        else
          let wait :=
            if attempt <? maxRetries
            then [Sleep (dmul (dmul attempt 2) Second)]
            else [] in
          match retryLoop fuel' (wrap64 (attempt + 1)) (Some err)
                  systemPrompt userPrompt with
          | Some (r, tr) => Some (r, CallOnce attempt :: wait ++ tr)
          | None => None
          end
      end
    end
  else
    Some ((EmptyString, Some (errExhausted lastErr)), []).

Definition CallWithMessages (client : Client) (systemPrompt userPrompt : string)
  : option ((string * option error) * list event) :=
  if String.eqb (APIKey client) EmptyString then
    Some ((EmptyString, Some errNoKey), [])
  else
    retryLoop 3 1 None systemPrompt userPrompt.

End CallWithMessages.

(** The classification as the specification words it: the last phrase is
    "internal server error" where the source has the marker
    [INTERNAL_ERROR]. *)
Definition spec_transient_phrases : list string :=
  ["EOF"; "timeout"; "connection reset"; "connection refused";
   "temporary failure"; "no such host"; "stream error"; "internal server error"].

Definition spec_transient (err : error) : bool :=
  existsb (fun phrase => Contains (Error err) phrase) spec_transient_phrases.

(** The calls and sleeps of a run that stops at its [k]-th attempt. *)
Definition schedule (k : nat) : list event :=
  match k with
  | 1%nat => [CallOnce 1]
  | 2%nat => [CallOnce 1; Sleep (2 * Second); CallOnce 2]
  | 3%nat => [CallOnce 1; Sleep (2 * Second); CallOnce 2; Sleep (4 * Second); CallOnce 3]
  | _ => []
  end.

Definition attempts_made (tr : list event) : nat :=
  length (filter (fun e => is_CallOnce e = true) tr).

Definition testClient : Client :=
  {| Provider := "custom"; APIKey := "sk-test"; BaseURL := "https://api.example/v1";
     Model := "m"; Timeout := 120 * Second; UseFullURL := false; MaxTokens := 2000 |}.

Definition flakyOnce (attempt : Z) (_ _ : string) : string + error :=
  if attempt =? 1 then inr (errorString "unexpected EOF") else inl "hold"%string.

(** *** Construction and configuration of a client *)

Definition ProviderCustom : string := "custom".

Definition ProviderDeepSeek : string := "deepseek".
Definition DefaultDeepSeekBaseURL : string := "https://api.deepseek.com/v1".
Definition DefaultDeepSeekModel : string := "deepseek-chat".

Definition ProviderQwen : string := "qwen".
Definition DefaultQwenBaseURL : string :=
  "https://dashscope.aliyuncs.com/compatible-mode/v1".
Definition DefaultQwenModel : string := "qwen3-max".

(** [DefaultTimeout = 120 * time.Second] *)
Definition DefaultTimeout : Duration := dmul 120 Second.

(** [QwenClient] and [DeepSeekClient] embed a pointer to a [Client],
    which may be nil. *)
Definition QwenClient : Type := option Client.
Definition DeepSeekClient : Type := option Client.

Definition with_provider (client : Client) (provider model baseURL : string) : Client :=
  {| Provider := provider; APIKey := APIKey client; BaseURL := baseURL; Model := model;
     Timeout := Timeout client; UseFullURL := UseFullURL client;
     MaxTokens := MaxTokens client |}.

(** The body of the provider clients' [SetAPIKey], on the embedded
    client: an empty custom URL or model keeps what the client has. *)
Definition setProviderKey (client : Client) (apiKey customURL customModel : string) : Client :=
  {| Provider := Provider client; APIKey := apiKey;
     BaseURL := if String.eqb customURL "" then BaseURL client else customURL;
     Model := if String.eqb customModel "" then Model client else customModel;
     Timeout := Timeout client; UseFullURL := UseFullURL client;
     MaxTokens := MaxTokens client |}.

Section New.

(** [strconv.Atoi] *)
Variable Atoi : string -> Z + error.

(** [New], given the value of the environment variable [AI_MAX_TOKENS]
    (empty when it is not set). *)
Definition New (envMaxTokens : string) : Client :=
  let maxTokens :=
    if negb (String.eqb envMaxTokens "") then
      match Atoi envMaxTokens with
      | inl parsed => if 0 <? parsed then parsed else 2000
      | inr _ => 2000
      end
    else 2000 in
  {| Provider := ProviderDeepSeek; APIKey := ""; BaseURL := DefaultDeepSeekBaseURL;
     Model := DefaultDeepSeekModel; Timeout := DefaultTimeout; UseFullURL := false;
     MaxTokens := maxTokens |}.

Definition NewQwenClient (envMaxTokens : string) : QwenClient :=
  Some (with_provider (New envMaxTokens) ProviderQwen DefaultQwenModel DefaultQwenBaseURL).

Definition NewDeepSeekClient (envMaxTokens : string) : DeepSeekClient :=
  Some (with_provider (New envMaxTokens)
          ProviderDeepSeek DefaultDeepSeekModel DefaultDeepSeekBaseURL).

(** [SetAPIKey] of [QwenClient] and of [DeepSeekClient]: a nil embedded
    client is first replaced by [New()]. *)
Definition QwenClient_SetAPIKey (envMaxTokens : string) (qwenClient : QwenClient)
    (apiKey customURL customModel : string) : QwenClient :=
  let client := match qwenClient with
                | Some client => client
                | None => New envMaxTokens
                end in
  Some (setProviderKey client apiKey customURL customModel).

Definition DeepSeekClient_SetAPIKey (envMaxTokens : string) (dsClient : DeepSeekClient)
    (apiKey customURL customModel : string) : DeepSeekClient :=
  let client := match dsClient with
                | Some client => client
                | None => New envMaxTokens
                end in
  Some (setProviderKey client apiKey customURL customModel).

End New.

(** [SetAPIKey] of [Client]: a URL that ends in [#] is taken as the full
    endpoint. *)
Definition SetAPIKey (client : Client) (apiKey apiURL customModel : string) : Client :=
  {| Provider := ProviderCustom; APIKey := apiKey;
     BaseURL := if HasSuffix apiURL "#" then TrimSuffix apiURL "#" else apiURL;
     Model := customModel; Timeout := dmul 120 Second;
     UseFullURL := HasSuffix apiURL "#"; MaxTokens := MaxTokens client |}.

(** *** One call of the API *)

Record message : Type := {
  role : string;
  content : string
}.

(** The JSON body of the request, by key. *)
Record requestBody : Type := {
  model : string;
  messages : list message;
  temperature : PrimFloat.float;
  max_tokens : Z
}.

(** The request handed to [httpClient.Do], with the timeout of the
    [http.Client] that sends it. *)
Record request : Type := {
  Method : string;
  URL : string;
  ContentType : string;
  Authorization : string;
  Body : requestBody;
  ClientTimeout : Duration
}.

(** What the round trip comes to: [Do] fails, or the reply arrives and
    reading its body fails, or the body is read. *)
Inductive roundTrip : Type :=
| DoFailed (err : error)
| ReadFailed (err : error)
| Responded (status : Z) (body : string).

Definition requestURL (client : Client) : string :=
  if UseFullURL client then BaseURL client
  else BaseURL client +:+ "/chat/completions".

Definition chatMessages (systemPrompt userPrompt : string) : list message :=
  (if negb (String.eqb systemPrompt "")
   then [{| role := "system"; content := systemPrompt |}]
   else [])
  ++ [{| role := "user"; content := userPrompt |}].

(** The request [callOnce] builds. (Marshalling this body cannot fail.) *)
Definition buildRequest (client : Client) (systemPrompt userPrompt : string) : request :=
  {| Method := "POST";
     URL := requestURL client;
     ContentType := "application/json";
     Authorization := "Bearer " +:+ APIKey client;
     Body := {| model := Model client;
                messages := chatMessages systemPrompt userPrompt;
                temperature := 0.5%float;
                max_tokens := MaxTokens client |};
     ClientTimeout := Timeout client |}.

Section CallOnce.

(** [http.NewRequest] fails on a URL that does not parse. *)
Variable newRequestError : string -> option error.

(** [json.Unmarshal] of the reply into the [content] of its choices. *)
Variable unmarshalChoices : string -> list string + error.

(** [httpClient.Do] followed by [io.ReadAll]. *)
Variable do : request -> roundTrip.

Definition callOnce (client : Client) (systemPrompt userPrompt : string) : string + error :=
  let req := buildRequest client systemPrompt userPrompt in
  match newRequestError (URL req) with
  | Some err => inr (wrapError ("创建请求失败: " +:+ Error err) err)
  | None =>
    match do req with
    | DoFailed err => inr (wrapError ("发送请求失败: " +:+ Error err) err)
    | ReadFailed err => inr (wrapError ("读取响应失败: " +:+ Error err) err)
    | Responded status body =>
      if negb (status =? 200) then
        inr (errorString ("API返回错误 (status " +:+ pretty status +:+ "): " +:+ body))
      else
        match unmarshalChoices body with
        | inr err => inr (wrapError ("解析响应失败: " +:+ Error err) err)
        | inl [] => inr (errorString "API返回空响应")
        | inl (choice :: _) => inl choice
        end
    end
  end.

End CallOnce.

(** A round trip that [CallWithMessages] answers with another attempt: a
    transport or read failure whose cause carries a retryable marker, or
    a reply other than 200 whose body carries one. *)
Definition transient (rt : roundTrip) : bool :=
  match rt with
  | DoFailed err | ReadFailed err => isRetryableError err
  | Responded status body =>
    negb (status =? 200) && existsb (fun retryable => Contains body retryable) retryableErrors
  end.

(** A server that drops the first connection and then answers. *)
Definition flakyServer (attempt : Z) (_ : request) : roundTrip :=
  if attempt =? 1 then DoFailed (errorString "read tcp: connection reset by peer")
  else Responded 200 "{choices}".

Definition oneChoice (body : string) : list string + error :=
  if String.eqb body "{choices}" then inl ["hold"%string]
  else inr (errorString "invalid character").

Definition anyURL (_ : string) : option error := None.

Definition testAtoi (s : string) : Z + error :=
  if String.eqb s "4000" then inl 4000
  else if String.eqb s "-5" then inl (-5)
  else inr (errorString "strconv.Atoi: invalid syntax").

Lemma isRetryableError_spec err :
  isRetryableError err = true <->
  exists retryable before after,
    retryable ∈ retryableErrors /\ Error err = before +:+ retryable +:+ after.
Proof.
  unfold isRetryableError. rewrite existsb_exists. split.
  - intros (r & Hin & Hc). apply Contains_spec in Hc as (b & a & Hc).
    exists r, b, a. split; [by apply list_elem_of_In | done].
  - intros (r & b & a & Hin & Heq). exists r. split; [by apply list_elem_of_In |].
    apply Contains_spec. by exists b, a.
Qed.

Lemma schedule_attempts k : (1 <= k <= 3)%nat -> attempts_made (schedule k) = k.
Proof.
  intros Hk. destruct k as [|[|[|[|k]]]]; try lia; reflexivity.
Qed.

(** C9 (as the source has it). With an API key set, [CallWithMessages]
    always returns; it stops at some attempt [k] between 1 and 3, having
    made exactly the calls and the [attempt * 2s] sleeps of [schedule k];
    every earlier attempt failed with a retryable error; a success at [k]
    is returned as it is, a non-retryable failure at [k] is returned as it
    is and nothing follows it, and a retryable failure at [k] only happens
    at [k = 3], where the result wraps that last failure. An error is
    retryable exactly when its message contains one of the eight markers of
    [retryableErrors], the last of which is [INTERNAL_ERROR]. *)
Theorem CallWithMessages_retry_policy
    (callOnce : Z -> string -> string -> string + error)
    (client : Client) (systemPrompt userPrompt : string) :
  APIKey client <> EmptyString ->
  exists res tr k,
    CallWithMessages callOnce client systemPrompt userPrompt = Some (res, tr) /\
    (1 <= k <= 3)%nat /\ tr = schedule k /\ attempts_made tr = k /\
    (forall j, (1 <= j < k)%nat ->
       exists e, callOnce (Z.of_nat j) systemPrompt userPrompt = inr e /\
                 isRetryableError e = true) /\
    match callOnce (Z.of_nat k) systemPrompt userPrompt with
    | inl result => res = (result, None)
    | inr e =>
      if isRetryableError e
      then k = 3%nat /\ res = (EmptyString, Some (errExhausted (Some e))) /\
           Unwrap (errExhausted (Some e)) = Some e
      else res = (EmptyString, Some e)
    end /\
    (forall err, isRetryableError err = true <->
       exists retryable before after,
         retryable ∈ ["EOF"; "timeout"; "connection reset"; "connection refused";
                      "temporary failure"; "no such host"; "stream error";
                      "INTERNAL_ERROR"] /\
         Error err = before +:+ retryable +:+ after).
Proof.
  intros Hkey. unfold CallWithMessages.
  destruct (String.eqb_spec (APIKey client) EmptyString) as [Hk|_]; [done|].
  assert (Hcls : forall err, isRetryableError err = true <->
       exists retryable before after,
         retryable ∈ retryableErrors /\ Error err = before +:+ retryable +:+ after)
    by apply isRetryableError_spec.
  cbn [retryLoop]. change (1 <=? maxRetries) with true. cbv iota.
  destruct (callOnce 1 systemPrompt userPrompt) as [r1|e1] eqn:H1.
  { exists (r1, None), [CallOnce 1], 1%nat. change (Z.of_nat 1) with 1. rewrite H1.
    repeat split; try lia; apply Hcls. }
  destruct (isRetryableError e1) eqn:R1; simpl negb; cbv iota.
  2:{ exists (EmptyString, Some e1), [CallOnce 1], 1%nat. change (Z.of_nat 1) with 1. rewrite H1, R1.
      repeat split; try lia; apply Hcls. }
  change (wrap64 (1 + 1)) with 2. change (2 <=? maxRetries) with true. cbv iota.
  destruct (callOnce 2 systemPrompt userPrompt) as [r2|e2] eqn:H2.
  { exists (r2, None), (schedule 2), 2%nat. change (Z.of_nat 2) with 2. rewrite H2.
    repeat split; try lia; try apply Hcls.
    intros j Hj. assert (j = 1%nat) as -> by lia. exists e1. by split. }
  destruct (isRetryableError e2) eqn:R2; simpl negb; cbv iota.
  2:{ exists (EmptyString, Some e2), (schedule 2), 2%nat. change (Z.of_nat 2) with 2. rewrite H2, R2.
      repeat split; try lia; try apply Hcls.
      intros j Hj. assert (j = 1%nat) as -> by lia. exists e1. by split. }
  change (wrap64 (2 + 1)) with 3. change (3 <=? maxRetries) with true. cbv iota.
  assert (Hprev : forall j, (1 <= j < 3)%nat ->
     exists e, callOnce (Z.of_nat j) systemPrompt userPrompt = inr e /\
               isRetryableError e = true).
  { intros j Hj. assert (j = 1%nat \/ j = 2%nat) as [-> | ->] by lia;
      [exists e1 | exists e2]; by split. }
  destruct (callOnce 3 systemPrompt userPrompt) as [r3|e3] eqn:H3.
  { exists (r3, None), (schedule 3), 3%nat. change (Z.of_nat 3) with 3. rewrite H3.
    repeat split; try lia; try apply Hcls; done. }
  destruct (isRetryableError e3) eqn:R3; simpl negb; cbv iota.
  2:{ exists (EmptyString, Some e3), (schedule 3), 3%nat. change (Z.of_nat 3) with 3. rewrite H3, R3.
      repeat split; try lia; try apply Hcls; done. }
  change (wrap64 (3 + 1)) with 4. change (4 <=? maxRetries) with false. cbv iota.
  exists (EmptyString, Some (errExhausted (Some e3))), (schedule 3), 3%nat.
  change (Z.of_nat 3) with 3. rewrite H3, R3.
  repeat split; try lia; try apply Hcls; done.
Qed.

Lemma CallWithMessages_retry_policy_witness :
  exists res tr k,
    CallWithMessages flakyOnce testClient "sys" "usr" = Some (res, tr) /\
    (1 <= k <= 3)%nat /\ tr = schedule k /\ attempts_made tr = k /\
    (forall j, (1 <= j < k)%nat ->
       exists e, flakyOnce (Z.of_nat j) "sys" "usr" = inr e /\
                 isRetryableError e = true) /\
    match flakyOnce (Z.of_nat k) "sys" "usr" with
    | inl result => res = (result, None)
    | inr e =>
      if isRetryableError e
      then k = 3%nat /\ res = (EmptyString, Some (errExhausted (Some e))) /\
           Unwrap (errExhausted (Some e)) = Some e
      else res = (EmptyString, Some e)
    end /\
    (forall err, isRetryableError err = true <->
       exists retryable before after,
         retryable ∈ ["EOF"; "timeout"; "connection reset"; "connection refused";
                      "temporary failure"; "no such host"; "stream error";
                      "INTERNAL_ERROR"] /\
         Error err = before +:+ retryable +:+ after).
Proof.
  apply (CallWithMessages_retry_policy flakyOnce testClient "sys" "usr").
  vm_compute. discriminate.
Defined.

(** C9 (as the claim words it) fails: an error whose message is the marker
    [INTERNAL_ERROR] contains none of the claim's phrases, yet it is retried
    until the attempts are exhausted; and a message that does contain
    "internal server error" is returned after the first attempt. *)
Lemma CallWithMessages_internal_error_marker :
  spec_transient (errorString "INTERNAL_ERROR") = false /\
  CallWithMessages (fun _ _ _ => inr (errorString "INTERNAL_ERROR")) testClient "sys" "usr"
    = Some ((EmptyString, Some (errExhausted (Some (errorString "INTERNAL_ERROR")))),
            [CallOnce 1; Sleep (2 * Second); CallOnce 2; Sleep (4 * Second); CallOnce 3]) /\
  spec_transient (errorString "API error (status 500): internal server error") = true /\
  CallWithMessages
    (fun _ _ _ => inr (errorString "API error (status 500): internal server error"))
    testClient "sys" "usr"
    = Some ((EmptyString,
             Some (errorString "API error (status 500): internal server error")),
            [CallOnce 1]).
Proof. vm_compute. repeat split. Qed.

Lemma isRetryableError_context (err : error) (pre post : string) :
  isRetryableError err = true ->
  isRetryableError (errorString (pre +:+ Error err +:+ post)) = true.
Proof.
  unfold isRetryableError. rewrite !existsb_exists.
  intros (retryable & Hin & Hc). exists retryable. split; [done|].
  by apply Contains_context.
Qed.

Lemma isRetryableError_wrapError (err : error) (pre : string) :
  isRetryableError err = true ->
  isRetryableError (wrapError (pre +:+ Error err) err) = true.
Proof.
  intros Herr. apply (isRetryableError_context err pre "") in Herr.
  by rewrite append_nil_r in Herr.
Qed.

(** X5. Whatever is written around the message of a retryable error,
    the result is retryable: text before and after it, a [%w] wrapping
    with a prefix, and the error [CallWithMessages] returns when the
    attempts are used up. *)
Theorem isRetryableError_wrapped (err : error) (pre post : string) :
  isRetryableError err = true ->
  isRetryableError (errorString (pre +:+ Error err +:+ post)) = true /\
  isRetryableError (wrapError (pre +:+ Error err) err) = true /\
  isRetryableError (errExhausted (Some err)) = true.
Proof.
  intros Herr. split; [by apply isRetryableError_context|].
  split; by apply isRetryableError_wrapError.
Qed.

Lemma isRetryableError_wrapped_witness :
  isRetryableError (errorString "unexpected EOF") = true /\
  isRetryableError (errorString ("发送请求失败: " +:+ "unexpected EOF" +:+ " (attempt 1)")) = true /\
  isRetryableError (errExhausted (Some (errorString "unexpected EOF"))) = true.
Proof.
  split; [reflexivity|].
  destruct (isRetryableError_wrapped (errorString "unexpected EOF")
              "发送请求失败: " " (attempt 1)" eq_refl) as (H1 & _ & H3).
  split; [exact H1 | exact H3].
Defined.

(** X6. After [SetAPIKey] with a URL that ends in [#], the request goes
    to that URL without the [#] and nothing appended; with any other URL
    it goes to the URL followed by [/chat/completions]. Either way the
    request carries the key as bearer token, names the given model, and
    keeps the client's token limit. *)
Theorem SetAPIKey_request_url
    (client : Client) (apiKey customModel systemPrompt userPrompt : string) :
  (forall u,
     URL (buildRequest (SetAPIKey client apiKey (u +:+ "#") customModel)
            systemPrompt userPrompt) = u) /\
  (forall apiURL, HasSuffix apiURL "#" = false ->
     URL (buildRequest (SetAPIKey client apiKey apiURL customModel)
            systemPrompt userPrompt) = apiURL +:+ "/chat/completions") /\
  (forall apiURL,
     Authorization (buildRequest (SetAPIKey client apiKey apiURL customModel)
                      systemPrompt userPrompt) = "Bearer " +:+ apiKey /\
     model (Body (buildRequest (SetAPIKey client apiKey apiURL customModel)
                    systemPrompt userPrompt)) = customModel /\
     max_tokens (Body (buildRequest (SetAPIKey client apiKey apiURL customModel)
                         systemPrompt userPrompt)) = MaxTokens client).
Proof.
  split; [|split].
  - intros u. cbn. unfold requestURL. cbn.
    replace (HasSuffix (u +:+ "#") "#") with true
      by (symmetry; apply HasSuffix_spec; by exists u).
    apply TrimSuffix_append.
  - intros apiURL Hno. cbn. unfold requestURL. cbn. by rewrite Hno.
  - intros apiURL. repeat split.
Qed.

(** X7. [callOnce] returns a text exactly when the request is created,
    the reply arrives with status 200, its body parses and has at least
    one choice; the text is the content of the first choice. Every other
    outcome is an error. *)
Theorem callOnce_outcome
    (newRequestError : string -> option error)
    (unmarshalChoices : string -> list string + error)
    (do : request -> roundTrip)
    (client : Client) (systemPrompt userPrompt result : string) :
  callOnce newRequestError unmarshalChoices do client systemPrompt userPrompt = inl result
  <->
  newRequestError (requestURL client) = None /\
  exists body rest,
    do (buildRequest client systemPrompt userPrompt) = Responded 200 body /\
    unmarshalChoices body = inl (result :: rest).
Proof.
  unfold callOnce. cbn [URL buildRequest].
  destruct (newRequestError (requestURL client)) as [err|].
  { split; [done | by intros [? _]]. }
  destruct (do (buildRequest client systemPrompt userPrompt)) as [err|err|status body].
  - split; [done | by intros [_ (? & ? & ? & _)]].
  - split; [done | by intros [_ (? & ? & ? & _)]].
  - destruct (Z.eqb_spec status 200) as [->|Hne]; cbn [negb].
    + destruct (unmarshalChoices body) as [[|choice rest]|err] eqn:Hparse.
      * split; [done|]. intros [_ (b & r & [= <-] & Hb)]. congruence.
      * split.
        -- intros [= <-]. split; [done|]. by exists body, rest.
        -- intros [_ (b & r & [= <-] & Hb)]. congruence.
      * split; [done|]. intros [_ (b & r & [= <-] & Hb)]. congruence.
    + split; [done|]. intros [_ (b & r & [= Hs _] & _)]. done.
Qed.

Lemma callOnce_transient
    (newRequestError : string -> option error)
    (unmarshalChoices : string -> list string + error)
    (do : request -> roundTrip)
    (client : Client) (systemPrompt userPrompt : string) :
  newRequestError (requestURL client) = None ->
  transient (do (buildRequest client systemPrompt userPrompt)) = true ->
  exists e,
    callOnce newRequestError unmarshalChoices do client systemPrompt userPrompt = inr e /\
    isRetryableError e = true.
Proof.
  intros Hurl Ht. unfold callOnce. cbn [URL buildRequest]. rewrite Hurl.
  destruct (do (buildRequest client systemPrompt userPrompt)) as [err|err|status body];
    cbn [transient] in Ht.
  - eexists. split; [done|]. by apply isRetryableError_wrapError.
  - eexists. split; [done|]. by apply isRetryableError_wrapError.
  - apply andb_true_iff in Ht as [Hs Hb]. rewrite Hs.
    eexists. split; [done|].
    unfold isRetryableError. cbn [Error]. apply existsb_exists.
    apply existsb_exists in Hb as (retryable & Hin & Hc). exists retryable.
    split; [done|].
    apply (Contains_context body retryable
             ("API返回错误 (status " +:+ pretty status +:+ "): ") "") in Hc.
    by rewrite append_nil_r, append_assoc, append_assoc in Hc.
Qed.

(** X8. With a key set and a URL that parses: when the round trips of
    the attempts before the [k]-th (for [k] from 1 to 3) are transient
    failures and the [k]-th is answered with status 200 and a body with at
    least one choice, [CallWithMessages] returns the first choice after
    exactly [k] requests, having paused 2 s after the first failure and
    4 s after the second. *)
Theorem CallWithMessages_over_http
    (newRequestError : string -> option error)
    (unmarshalChoices : string -> list string + error)
    (do : Z -> request -> roundTrip)
    (client : Client) (systemPrompt userPrompt : string)
    (k : nat) (body choice : string) (rest : list string) :
  APIKey client <> EmptyString ->
  newRequestError (requestURL client) = None ->
  (1 <= k <= 3)%nat ->
  (forall j, (1 <= j < k)%nat ->
     transient (do (Z.of_nat j) (buildRequest client systemPrompt userPrompt)) = true) ->
  do (Z.of_nat k) (buildRequest client systemPrompt userPrompt) = Responded 200 body ->
  unmarshalChoices body = inl (choice :: rest) ->
  CallWithMessages
    (fun attempt => callOnce newRequestError unmarshalChoices (do attempt) client)
    client systemPrompt userPrompt
  = Some ((choice, None), schedule k).
Proof.
  intros Hkey Hurl Hk Hfail Hok Hparse.
  assert (Hsucc :
    callOnce newRequestError unmarshalChoices (do (Z.of_nat k)) client
      systemPrompt userPrompt = inl choice).
  { unfold callOnce. cbn [URL buildRequest]. rewrite Hurl, Hok.
    change (negb (200 =? 200)) with false. cbv iota. by rewrite Hparse. }
  assert (Hretry : forall j, (1 <= j < k)%nat ->
    exists e,
      callOnce newRequestError unmarshalChoices (do (Z.of_nat j)) client
        systemPrompt userPrompt = inr e /\ isRetryableError e = true).
  { intros j Hj. apply callOnce_transient; [done | by apply Hfail]. }
  unfold CallWithMessages.
  destruct (String.eqb_spec (APIKey client) EmptyString) as [|_]; [done|].
  destruct k as [|[|[|[|k]]]]; try lia.
  - change (Z.of_nat 1) with 1 in Hsucc. cbn [retryLoop].
    change (1 <=? maxRetries) with true. cbv iota. by rewrite Hsucc.
  - destruct (Hretry 1%nat) as (e1 & H1 & R1); [lia|].
    change (Z.of_nat 1) with 1 in H1. change (Z.of_nat 2) with 2 in Hsucc.
    cbn [retryLoop]. change (1 <=? maxRetries) with true. cbv iota.
    rewrite H1, R1. cbn [negb]. change (wrap64 (1 + 1)) with 2.
    change (2 <=? maxRetries) with true. cbv iota. by rewrite Hsucc.
  - destruct (Hretry 1%nat) as (e1 & H1 & R1); [lia|].
    destruct (Hretry 2%nat) as (e2 & H2 & R2); [lia|].
    change (Z.of_nat 1) with 1 in H1. change (Z.of_nat 2) with 2 in H2.
    change (Z.of_nat 3) with 3 in Hsucc.
    cbn [retryLoop]. change (1 <=? maxRetries) with true. cbv iota.
    rewrite H1, R1. cbn [negb]. change (wrap64 (1 + 1)) with 2.
    change (2 <=? maxRetries) with true. cbv iota.
    rewrite H2, R2. cbn [negb]. change (wrap64 (2 + 1)) with 3.
    change (3 <=? maxRetries) with true. cbv iota. by rewrite Hsucc.
Qed.

Lemma CallWithMessages_over_http_witness :
  APIKey testClient <> EmptyString /\
  transient (flakyServer 1 (buildRequest testClient "sys" "usr")) = true /\
  CallWithMessages
    (fun attempt => callOnce anyURL oneChoice (flakyServer attempt) testClient)
    testClient "sys" "usr"
  = Some (("hold"%string, None), [CallOnce 1; Sleep (2 * Second); CallOnce 2]).
Proof.
  split; [vm_compute; discriminate|]. split; [reflexivity|].
  apply (CallWithMessages_over_http anyURL oneChoice flakyServer testClient
           "sys" "usr" 2 "{choices}" "hold" []).
  - vm_compute. discriminate.
  - reflexivity.
  - lia.
  - intros j Hj. assert (j = 1%nat) as -> by lia. reflexivity.
  - reflexivity.
  - reflexivity.
Defined.

(** X9. A client fresh from [New], [NewQwenClient] or
    [NewDeepSeekClient] (each of which returns a client) has no key and a
    timeout of 120 seconds. Its token limit is 2000 when [AI_MAX_TOKENS]
    is unset or empty, does not parse, or parses to a number that is not
    positive; when it is set and parses to a positive number, that number
    is the limit. The client of [New] and of [NewDeepSeekClient] names
    provider deepseek with the DeepSeek base URL and model, the client of
    [NewQwenClient] provider qwen with the Qwen base URL and model. Its
    requests would go to the base URL followed by [/chat/completions] and
    carry the token limit; but as long as the key of a client is empty,
    [CallWithMessages] makes no attempt and returns the missing-key
    error. *)
Theorem fresh_client_awaits_key (Atoi : string -> Z + error) (envMaxTokens : string)
    (client : Client) :
  client = New Atoi envMaxTokens \/
  NewQwenClient Atoi envMaxTokens = Some client \/
  NewDeepSeekClient Atoi envMaxTokens = Some client ->
  APIKey client = EmptyString /\
  UseFullURL client = false /\
  Timeout client = 120 * Second /\
  (envMaxTokens = EmptyString -> MaxTokens client = 2000) /\
  (forall parsed, envMaxTokens <> EmptyString -> Atoi envMaxTokens = inl parsed ->
     0 < parsed -> MaxTokens client = parsed) /\
  (forall parsed, Atoi envMaxTokens = inl parsed -> parsed <= 0 ->
     MaxTokens client = 2000) /\
  (forall err, Atoi envMaxTokens = inr err -> MaxTokens client = 2000) /\
  0 < MaxTokens client /\
  (client = New Atoi envMaxTokens \/ NewDeepSeekClient Atoi envMaxTokens = Some client ->
     Provider client = "deepseek" /\
     BaseURL client = "https://api.deepseek.com/v1" /\
     Model client = "deepseek-chat") /\
  (NewQwenClient Atoi envMaxTokens = Some client ->
     Provider client = "qwen" /\
     BaseURL client = "https://dashscope.aliyuncs.com/compatible-mode/v1" /\
     Model client = "qwen3-max") /\
  (exists qwenClient dsClient,
     NewQwenClient Atoi envMaxTokens = Some qwenClient /\
     NewDeepSeekClient Atoi envMaxTokens = Some dsClient) /\
  (forall systemPrompt userPrompt,
     URL (buildRequest client systemPrompt userPrompt)
       = BaseURL client +:+ "/chat/completions" /\
     max_tokens (Body (buildRequest client systemPrompt userPrompt)) = MaxTokens client /\
     model (Body (buildRequest client systemPrompt userPrompt)) = Model client) /\
  (forall callOnce systemPrompt userPrompt,
     CallWithMessages callOnce client systemPrompt userPrompt
     = Some ((EmptyString, Some errNoKey), [])) /\
  (forall keyless callOnce systemPrompt userPrompt,
     APIKey keyless = EmptyString ->
     CallWithMessages callOnce keyless systemPrompt userPrompt
     = Some ((EmptyString, Some errNoKey), [])).
Proof.
  intros Hfresh.
  assert (Hlimit : MaxTokens client = MaxTokens (New Atoi envMaxTokens)).
  { destruct Hfresh as [-> | [[= <-] | [= <-]]]; reflexivity. }
  assert (Hkey : APIKey client = EmptyString).
  { destruct Hfresh as [-> | [[= <-] | [= <-]]]; reflexivity. }
  assert (Hfull : UseFullURL client = false).
  { destruct Hfresh as [-> | [[= <-] | [= <-]]]; reflexivity. }
  assert (Hno : forall keyless callOnce systemPrompt userPrompt,
     APIKey keyless = EmptyString ->
     CallWithMessages callOnce keyless systemPrompt userPrompt
     = Some ((EmptyString, Some errNoKey), [])).
  { intros keyless callOnce systemPrompt userPrompt Hk.
    unfold CallWithMessages. by rewrite Hk. }
  split; [done|]. split; [done|].
  split; [destruct Hfresh as [-> | [[= <-] | [= <-]]]; reflexivity|].
  rewrite Hlimit. unfold New. cbn [MaxTokens].
  split; [by intros ->|].
  split.
  { intros parsed Hset Hparsed Hpos.
    destruct (String.eqb_spec envMaxTokens EmptyString) as [|_]; [done|]. cbn [negb].
    rewrite Hparsed. destruct (Z.ltb_spec 0 parsed); [done | lia]. }
  split.
  { intros parsed Hparsed Hneg.
    destruct (String.eqb envMaxTokens EmptyString); cbn [negb]; [done|].
    rewrite Hparsed. destruct (Z.ltb_spec 0 parsed); [lia | done]. }
  split.
  { intros err Herr.
    destruct (String.eqb envMaxTokens EmptyString); cbn [negb]; [done|].
    by rewrite Herr. }
  split.
  { destruct (String.eqb envMaxTokens EmptyString); cbn [negb]; [lia|].
    destruct (Atoi envMaxTokens) as [parsed|err]; [|lia].
    destruct (Z.ltb_spec 0 parsed); lia. }
  split; [intros [-> | [= <-]]; by repeat split|].
  split; [intros [= <-]; by repeat split|].
  split; [by eexists _, _|].
  split; [|split; [intros; by apply Hno | exact Hno]].
  intros systemPrompt userPrompt. cbn [URL Body buildRequest max_tokens model].
  unfold requestURL. by rewrite Hfull.
Qed.

Lemma fresh_client_awaits_key_witness :
  MaxTokens (New testAtoi "4000") = 4000 /\
  Provider (New testAtoi "4000") = "deepseek"%string /\
  URL (buildRequest (New testAtoi "4000") "sys" "usr")
    = "https://api.deepseek.com/v1/chat/completions"%string /\
  CallWithMessages flakyOnce (New testAtoi "4000") "sys" "usr"
    = Some ((EmptyString, Some errNoKey), []).
Proof.
  destruct (fresh_client_awaits_key testAtoi "4000" (New testAtoi "4000")
              (or_introl eq_refl))
    as (_ & _ & _ & _ & Hset & _ & _ & _ & Hprov & _ & _ & Hreq & Hcall & _).
  split; [apply (Hset 4000); [discriminate | reflexivity | lia]|].
  split; [apply (Hprov (or_introl eq_refl))|].
  split; [|apply Hcall].
  destruct (Hreq "sys"%string "usr"%string) as [Hurl _].
  destruct (Hprov (or_introl eq_refl)) as (_ & Hbase & _).
  rewrite Hurl, Hbase. reflexivity.
Defined.

(** X10. After [SetAPIKey] on a client made by [NewQwenClient] (by
    [NewDeepSeekClient]), requests carry the key as bearer token and go to
    the custom URL, or to the provider's default when none is given,
    always followed by [/chat/completions]; they name the custom model,
    or the provider's default when none is given; the provider name
    stays. *)
Theorem provider_SetAPIKey_endpoint
    (Atoi : string -> Z + error)
    (envMaxTokens apiKey customURL customModel systemPrompt userPrompt : string) :
  (exists client,
     QwenClient_SetAPIKey Atoi envMaxTokens (NewQwenClient Atoi envMaxTokens)
       apiKey customURL customModel = Some client /\
     Provider client = "qwen" /\
     URL (buildRequest client systemPrompt userPrompt)
       = (if String.eqb customURL "" then DefaultQwenBaseURL else customURL)
         +:+ "/chat/completions" /\
     model (Body (buildRequest client systemPrompt userPrompt))
       = (if String.eqb customModel "" then DefaultQwenModel else customModel) /\
     Authorization (buildRequest client systemPrompt userPrompt) = "Bearer " +:+ apiKey) /\
  (exists client,
     DeepSeekClient_SetAPIKey Atoi envMaxTokens (NewDeepSeekClient Atoi envMaxTokens)
       apiKey customURL customModel = Some client /\
     Provider client = "deepseek" /\
     URL (buildRequest client systemPrompt userPrompt)
       = (if String.eqb customURL "" then DefaultDeepSeekBaseURL else customURL)
         +:+ "/chat/completions" /\
     model (Body (buildRequest client systemPrompt userPrompt))
       = (if String.eqb customModel "" then DefaultDeepSeekModel else customModel) /\
     Authorization (buildRequest client systemPrompt userPrompt) = "Bearer " +:+ apiKey).
Proof.
  split; eexists; (split; [reflexivity|]); cbn; unfold requestURL; cbn;
    by destruct (String.eqb customURL ""), (String.eqb customModel "").
Qed.

(** The constructors and the custom endpoint, by computation. *)
Example New_and_SetAPIKey_examples :
  MaxTokens (New testAtoi "") = 2000 /\
  MaxTokens (New testAtoi "4000") = 4000 /\
  MaxTokens (New testAtoi "-5") = 2000 /\
  MaxTokens (New testAtoi "many") = 2000 /\
  requestURL (SetAPIKey testClient "k" "https://llm.example/v2/generate#" "m")
    = "https://llm.example/v2/generate"%string /\
  requestURL (SetAPIKey testClient "k" "https://llm.example/v2" "m")
    = "https://llm.example/v2/chat/completions"%string /\
  chatMessages "" "usr" = [{| role := "user"; content := "usr" |}] /\
  chatMessages "sys" "usr"
    = [{| role := "system"; content := "sys" |}; {| role := "user"; content := "usr" |}].
Proof. vm_compute. repeat split. Qed.


End MCP.

(** ** Package [trader]: margin percentage and closed-position detection *)

Module Trader.

Definition float64 : Type := PrimFloat.float.

(** [decision.PositionInfo], with the fields the tests of package
    [trader] set. *)
Record PositionInfo : Type := {
  Symbol : string;
  Side : string;
  EntryPrice : float64;
  MarkPrice : float64;
  Quantity : float64;
  Leverage : Z;
  UnrealizedPnL : float64;
  StopLoss : float64;
  TakeProfit : float64;
  LiquidationPrice : float64
}.

(** One position as the exchange adapter reports it to [GetPositions]
    (the keys of the map built in [TestGetPositions_MarginCalculationRegression]). *)
Record RawPosition : Type := {
  symbol : string;
  side : string;
  entryPrice : float64;
  markPrice : float64;
  positionAmt : float64;
  unRealizedProfit : float64;
  liquidationPrice : float64;
  leverage : float64
}.

(** The two derived entries of a row returned by [GetPositions]. *)
Record PositionRow : Type := {
  margin_used : float64;
  unrealized_pnl_pct : float64
}.

(** Modelled from the spec: [calculatePnLPercentage] of
    [trader/auto_trader.go] is missing from the tree (only its tests are
    there). "unrealizedPnL / marginUsed × 100 ... If margin used is zero
    or negative, percentage is defined as 0 (not a division fault)". *)
Definition calculatePnLPercentage (unrealizedPnl marginUsed : float64) : float64 :=
  if (marginUsed <=? 0)%float
  then 0%float
  else (unrealizedPnl / marginUsed * 100)%float.

(** Modelled from the spec: the margin computation of [GetPositions] is
    missing from the tree. "marginUsed = quantity × entryPrice / leverage
    — always derived from the entry price, never the current mark
    price". *)
Definition marginUsed (quantity entry lev : float64) : float64 :=
  (quantity * entry / lev)%float.

Definition positionRow (p : RawPosition) : PositionRow :=
  let m := marginUsed (positionAmt p) (entryPrice p) (leverage p) in
  {| margin_used := m;
     unrealized_pnl_pct := calculatePnLPercentage (unRealizedProfit p) m |}.

Definition with_markPrice (p : RawPosition) (mark : float64) : RawPosition :=
  {| symbol := symbol p; side := side p; entryPrice := entryPrice p;
     markPrice := mark; positionAmt := positionAmt p;
     unRealizedProfit := unRealizedProfit p;
     liquidationPrice := liquidationPrice p; leverage := leverage p |}.

(** The position of the regression test: 0.1 BTC long from 50000 at 10x
    with a fixed unrealized profit of 100. The literal is the binary64
    nearest to 0.1. *)
Definition regressionPosition (mark : float64) : RawPosition :=
  {| symbol := "BTCUSDT"; side := "long"; entryPrice := 50000%float;
     markPrice := mark; positionAmt := 0x1.999999999999ap-4%float;
     unRealizedProfit := 100%float; liquidationPrice := 45000%float;
     leverage := 10%float |}.

(** Key of a position in the snapshot: [symbol + "_" + side]. *)
Definition positionKey (p : PositionInfo) : string :=
  Symbol p +:+ "_" +:+ Side p.

Definition currentKeys (currentPositions : list PositionInfo) : gset string :=
  list_to_set (positionKey <$> currentPositions).

Section DetectClosed.

(** The order in which Go's [range] visits the bindings of a map. *)
Variable range_map : gmap string PositionInfo -> list (string * PositionInfo).

(** Modelled from the spec: [detectClosedPositions] of
    [trader/auto_trader.go] is missing from the tree (only its tests are
    there). "A position is reported closed iff its key exists in the
    previous snapshot and does not exist in currentPositions. If the
    previous snapshot is absent (first run), return empty". The snapshot
    [lastPositions] is [None] for Go's nil map. *)
Definition detectClosedPositions
    (lastPositions : option (gmap string PositionInfo))
    (currentPositions : list PositionInfo) : list PositionInfo :=
  match lastPositions with
  | None => []
  | Some last =>
    let current := currentKeys currentPositions in
    (filter (fun kv => kv.1 ∉ current) (range_map last)).*2
  end.

End DetectClosed.

(** Modelled from the spec: [updatePositionSnapshot] "replaces the stored
    snapshot wholesale (not merged)"; a later position with the same key
    overwrites an earlier one, as a Go map assignment does. *)
Definition updatePositionSnapshot (currentPositions : list PositionInfo)
  : option (gmap string PositionInfo) :=
  Some (foldl (fun m p => <[positionKey p := p]> m) ∅ currentPositions).

Definition btcLong : PositionInfo :=
  {| Symbol := "BTCUSDT"; Side := "long"; EntryPrice := 50000%float;
     MarkPrice := 49500%float; Quantity := 0x1.999999999999ap-4%float;
     Leverage := 10; UnrealizedPnL := 0%float; StopLoss := 0%float;
     TakeProfit := 0%float; LiquidationPrice := 0%float |}.

Definition ethShort : PositionInfo :=
  {| Symbol := "ETHUSDT"; Side := "short"; EntryPrice := 3000%float;
     MarkPrice := 2900%float; Quantity := 1%float;
     Leverage := 5; UnrealizedPnL := 0%float; StopLoss := 0%float;
     TakeProfit := 0%float; LiquidationPrice := 0%float |}.

Definition solLong : PositionInfo :=
  {| Symbol := "SOLUSDT"; Side := "long"; EntryPrice := 100%float;
     MarkPrice := 0%float; Quantity := 5%float;
     Leverage := 0; UnrealizedPnL := 0%float; StopLoss := 0%float;
     TakeProfit := 0%float; LiquidationPrice := 0%float |}.

(** A current position as the tests of [detectClosedPositions] give it:
    symbol and side, every other field zero. *)
Definition held (sym sd : string) : PositionInfo :=
  {| Symbol := sym; Side := sd; EntryPrice := 0%float;
     MarkPrice := 0%float; Quantity := 0%float;
     Leverage := 0; UnrealizedPnL := 0%float; StopLoss := 0%float;
     TakeProfit := 0%float; LiquidationPrice := 0%float |}.

(** The snapshot of [TestDetectClosedPositions_MultiplePositionsClosed]. *)
Definition threePositions : gmap string PositionInfo :=
  <["BTCUSDT_long" := btcLong]>
    (<["ETHUSDT_short" := ethShort]> {["SOLUSDT_long" := solLong]}).

Lemma filter_none {A} (P : A -> Prop) `{!forall x, Decision (P x)} (l : list A) :
  (forall x, x ∈ l -> ~ P x) -> filter P l = [].
Proof.
  induction l as [|x l IH]; intros Hl; [done|].
  rewrite filter_cons_False by (apply Hl; left).
  apply IH. intros y Hy. apply Hl. by right.
Qed.

Lemma filter_all {A} (P : A -> Prop) `{!forall x, Decision (P x)} (l : list A) :
  (forall x, x ∈ l -> P x) -> filter P l = l.
Proof.
  induction l as [|x l IH]; intros Hl; [done|].
  rewrite filter_cons_True by (apply Hl; left).
  f_equal. apply IH. intros y Hy. apply Hl. by right.
Qed.

Lemma not_current_key (currentPositions : list PositionInfo) (k : string) :
  k ∉ currentKeys currentPositions <->
  ~ exists q, q ∈ currentPositions /\ positionKey q = k.
Proof.
  unfold currentKeys. rewrite elem_of_list_to_set, list_elem_of_fmap.
  split; intros H (q & H1 & H2); apply H; exists q; by split.
Qed.

(** A margin that is positive is neither zero nor negative. *)
Lemma float_pos_not_leb_zero (m : float64) :
  (0 <? m)%float = true -> (m <=? 0)%float = false.
Proof.
  rewrite ltb_spec, leb_spec.
  change (Prim2SF 0) with (S754_zero false).
  destruct (Prim2SF m) as [s|s| |s mm e]; simpl; try done; by destruct s.
Qed.

(** C3. The percentage of a row is [calculatePnLPercentage] of the
    position's unrealized PnL and of the margin [quantity * entryPrice /
    leverage]; that is 0 when the margin is zero or negative and [pnl /
    margin * 100] otherwise, in particular for every positive margin. The
    row does not depend on the mark price: positions that differ only in
    their mark price have the same row, and the regression position
    (entry 50000, quantity 0.1, leverage 10, PnL 100) reads margin 500 and
    exactly 20 percent at every mark price, the five of the test among
    them. *)
Theorem pnl_percentage_entry_price_basis :
  (forall p : RawPosition,
     margin_used (positionRow p)
       = (positionAmt p * entryPrice p / leverage p)%float /\
     unrealized_pnl_pct (positionRow p)
       = calculatePnLPercentage (unRealizedProfit p)
           (positionAmt p * entryPrice p / leverage p)%float) /\
  (forall pnl m : float64, (m <=? 0)%float = true ->
     calculatePnLPercentage pnl m = 0%float) /\
  (forall pnl m : float64, (m <=? 0)%float = false ->
     calculatePnLPercentage pnl m = (pnl / m * 100)%float) /\
  (forall pnl m : float64, (0 <? m)%float = true ->
     calculatePnLPercentage pnl m = (pnl / m * 100)%float) /\
  (forall (p : RawPosition) (mark : float64),
     positionRow (with_markPrice p mark) = positionRow p) /\
  (forall mark : float64,
     margin_used (positionRow (regressionPosition mark)) = 500%float /\
     unrealized_pnl_pct (positionRow (regressionPosition mark)) = 20%float) /\
  Forall (fun mark => unrealized_pnl_pct (positionRow (regressionPosition mark)) = 20%float)
    [49000%float; 50000%float; 51000%float; 52000%float; 55000%float].
Proof.
  split; [by intros p|].
  split; [intros pnl m Hm; unfold calculatePnLPercentage; by rewrite Hm|].
  split; [intros pnl m Hm; unfold calculatePnLPercentage; by rewrite Hm|].
  split.
  { intros pnl m Hm. unfold calculatePnLPercentage.
    by rewrite (float_pos_not_leb_zero m Hm). }
  split; [by intros p mark|].
  split; [intros mark; split; vm_compute; reflexivity|].
  repeat constructor.
Qed.

(** The cases of [TestCalculatePnLPercentage] with an exact binary64
    answer. *)
Example calculatePnLPercentage_tests :
  calculatePnLPercentage 100%float 1000%float = 10%float /\
  calculatePnLPercentage (-50)%float 1000%float = (-5)%float /\
  calculatePnLPercentage 200%float 1000%float = 20%float /\
  calculatePnLPercentage 100%float 0%float = 0%float /\
  calculatePnLPercentage 100%float (-1000)%float = 0%float /\
  calculatePnLPercentage 0%float 1000%float = 0%float /\
  calculatePnLPercentage 5000%float 10000%float = 50%float.
Proof. vm_compute. repeat split. Qed.

(** C4. On the first run (no snapshot) nothing is reported, whatever the
    current positions are. With a snapshot, a position is reported exactly
    when it is bound in the snapshot to a key that is not [symbol ++ "_"
    ++ side] of any current position, and each such binding is reported
    once; nothing is reported when the keys [symbol ++ "_" ++ side] of the
    current positions are those of the snapshot (in particular for the
    snapshot just taken of them, which binds exactly these keys), and
    every position of the snapshot is reported when there is no current
    position. A position still held under its symbol and side is thus
    not reported: with BTCUSDT long tracked and held nothing is reported,
    with BTCUSDT long tracked and BTCUSDT short held the long one is, and
    with BTCUSDT long, ETHUSDT short and SOLUSDT long tracked and only
    SOLUSDT long held, the other two are. *)
Theorem detectClosedPositions_spec
    (range_map : gmap string PositionInfo -> list (string * PositionInfo)) :
  (forall m, range_map m ≡ₚ map_to_list m) ->
  (forall cur, detectClosedPositions range_map None cur = []) /\
  (forall last cur p,
     p ∈ detectClosedPositions range_map (Some last) cur <->
     exists k, last !! k = Some p /\
               ~ exists q, q ∈ cur /\ Symbol q +:+ "_" +:+ Side q = k) /\
  (forall last cur,
     detectClosedPositions range_map (Some last) cur
       ≡ₚ (filter (fun kv => kv.1 ∉ (fun q => Symbol q +:+ "_" +:+ Side q) <$> cur)
             (map_to_list last)).*2) /\
  (forall last cur,
     (forall k, is_Some (last !! k) <->
                exists q, q ∈ cur /\ Symbol q +:+ "_" +:+ Side q = k) ->
     detectClosedPositions range_map (Some last) cur = []) /\
  (forall cur,
     detectClosedPositions range_map (updatePositionSnapshot cur) cur = [] /\
     exists snapshot,
       updatePositionSnapshot cur = Some snapshot /\
       forall k, is_Some (snapshot !! k) <->
                 exists q, q ∈ cur /\ Symbol q +:+ "_" +:+ Side q = k) /\
  (forall last,
     detectClosedPositions range_map (Some last) [] ≡ₚ (map_to_list last).*2) /\
  detectClosedPositions range_map (Some {["BTCUSDT_long" := btcLong]})
    [held "BTCUSDT" "long"] = [] /\
  detectClosedPositions range_map (Some {["BTCUSDT_long" := btcLong]})
    [held "BTCUSDT" "short"] = [btcLong] /\
  detectClosedPositions range_map (Some threePositions) [held "SOLUSDT" "long"]
    ≡ₚ [btcLong; ethShort].
Proof.
  intros Hrange.
  assert (Hkey : forall (cur : list PositionInfo) (k : string),
            k ∉ currentKeys cur <->
            ~ exists q, q ∈ cur /\ Symbol q +:+ "_" +:+ Side q = k).
  { intros cur k. apply not_current_key. }
  assert (Hin : forall (cur : list PositionInfo) (k : string),
            k ∈ currentKeys cur <->
            exists q, q ∈ cur /\ Symbol q +:+ "_" +:+ Side q = k).
  { intros cur k. unfold currentKeys. rewrite elem_of_list_to_set, list_elem_of_fmap.
    split; intros (q & H1 & H2); exists q; by split. }
  assert (Hsub : forall last cur, dom last ⊆ currentKeys cur ->
            detectClosedPositions range_map (Some last) cur = []).
  { intros last cur Hdom. unfold detectClosedPositions.
    rewrite filter_none; [done|].
    intros [k v] Hkv Hk. apply Hk. apply Hdom.
    rewrite (Hrange last) in Hkv. apply elem_of_map_to_list in Hkv.
    apply elem_of_dom. by exists v. }
  assert (Hperm : forall last cur,
     detectClosedPositions range_map (Some last) cur
       ≡ₚ (filter (fun kv => kv.1 ∉ (fun q => Symbol q +:+ "_" +:+ Side q) <$> cur)
             (map_to_list last)).*2).
  { intros last cur. unfold detectClosedPositions. rewrite (Hrange last).
    rewrite (list_filter_iff (fun kv => kv.1 ∉ currentKeys cur)
               (fun kv => kv.1 ∉ (fun q => Symbol q +:+ "_" +:+ Side q) <$> cur));
      [done|].
    intros [k v]. cbn [fst]. rewrite Hkey, list_elem_of_fmap.
    split; intros Hno (q & H1 & H2); apply Hno; exists q; by split. }
  assert (Hsnap : forall (l : list PositionInfo) (m : gmap string PositionInfo),
            dom (foldl (fun m p => <[positionKey p := p]> m) m l)
              = dom m ∪ currentKeys l).
  { induction l as [|x l IH]; intros m; simpl.
    - unfold currentKeys. simpl. by rewrite union_empty_r_L.
    - rewrite IH, dom_insert_L. unfold currentKeys. simpl.
      apply set_eq. intros y. rewrite !elem_of_union, elem_of_singleton. tauto. }
  split; [done|]. split; [|split; [done|]; split; [|split; [|split; [|split; [|split]]]]].
  - intros last cur p. unfold detectClosedPositions.
    rewrite list_elem_of_fmap. split.
    + intros ([k v] & -> & Hkv). apply list_elem_of_filter in Hkv as [Hk Hkv].
      rewrite (Hrange last) in Hkv. apply elem_of_map_to_list in Hkv.
      exists k. split; [done|]. by apply Hkey.
    + intros (k & Hk & Hnot). exists (k, p). split; [done|].
      apply list_elem_of_filter. split; [by apply Hkey|].
      rewrite (Hrange last). by apply elem_of_map_to_list.
  - intros last cur Hdom. apply Hsub. intros k Hk.
    apply Hin, Hdom. by apply elem_of_dom.
  - intros cur. split.
    + unfold updatePositionSnapshot. apply Hsub.
      rewrite Hsnap, dom_empty_L, union_empty_l_L. done.
    + eexists. split; [reflexivity|]. intros k.
      rewrite <- elem_of_dom, Hsnap, dom_empty_L, union_empty_l_L. apply Hin.
  - intros last. unfold detectClosedPositions.
    rewrite filter_all; [by rewrite (Hrange last)|].
    intros kv _. unfold currentKeys. simpl. apply not_elem_of_empty.
  - apply Permutation_nil_r. rewrite Hperm. vm_compute. reflexivity.
  - apply Permutation_singleton_r. rewrite Hperm. vm_compute. reflexivity.
  - rewrite Hperm.
    assert (Heq : (filter (fun kv : string * PositionInfo =>
                     kv.1 ∉ (fun q => Symbol q +:+ "_" +:+ Side q)
                              <$> [held "SOLUSDT" "long"])
                     (map_to_list threePositions)).*2 = [ethShort; btcLong]
                  \/ (filter (fun kv : string * PositionInfo =>
                     kv.1 ∉ (fun q => Symbol q +:+ "_" +:+ Side q)
                              <$> [held "SOLUSDT" "long"])
                     (map_to_list threePositions)).*2 = [btcLong; ethShort]).
    { vm_compute. first [by left | by right]. }
    destruct Heq as [-> | ->]; [apply Permutation_swap | reflexivity].
Qed.

Example detectClosedPositions_stop_loss_test :
  detectClosedPositions map_to_list (Some {["BTCUSDT_long" := btcLong]}) [] = [btcLong].
Proof. vm_compute. reflexivity. Qed.

Example detectClosedPositions_first_run_test :
  detectClosedPositions map_to_list None [btcLong; ethShort] = [].
Proof. reflexivity. Qed.

Lemma detectClosedPositions_spec_witness :
  (forall cur, detectClosedPositions map_to_list None cur = []) /\
  (forall last cur p,
     p ∈ detectClosedPositions map_to_list (Some last) cur <->
     exists k, last !! k = Some p /\
               ~ exists q, q ∈ cur /\ Symbol q +:+ "_" +:+ Side q = k) /\
  (forall last cur,
     detectClosedPositions map_to_list (Some last) cur
       ≡ₚ (filter (fun kv => kv.1 ∉ (fun q => Symbol q +:+ "_" +:+ Side q) <$> cur)
             (map_to_list last)).*2) /\
  (forall last cur,
     (forall k, is_Some (last !! k) <->
                exists q, q ∈ cur /\ Symbol q +:+ "_" +:+ Side q = k) ->
     detectClosedPositions map_to_list (Some last) cur = []) /\
  (forall cur,
     detectClosedPositions map_to_list (updatePositionSnapshot cur) cur = [] /\
     exists snapshot,
       updatePositionSnapshot cur = Some snapshot /\
       forall k, is_Some (snapshot !! k) <->
                 exists q, q ∈ cur /\ Symbol q +:+ "_" +:+ Side q = k) /\
  (forall last,
     detectClosedPositions map_to_list (Some last) [] ≡ₚ (map_to_list last).*2) /\
  detectClosedPositions map_to_list (Some {["BTCUSDT_long" := btcLong]})
    [held "BTCUSDT" "long"] = [] /\
  detectClosedPositions map_to_list (Some {["BTCUSDT_long" := btcLong]})
    [held "BTCUSDT" "short"] = [btcLong] /\
  detectClosedPositions map_to_list (Some threePositions) [held "SOLUSDT" "long"]
    ≡ₚ [btcLong; ethShort].
Proof.
  apply (detectClosedPositions_spec map_to_list). intros m. reflexivity.
Defined.

End Trader.

(** ** Package [manager]: the aggregate leaderboard query *)

Module Manager.
Import Go.

(** The dynamic values held in a [map[string]interface{}]. *)
Inductive value : Type :=
| VNil
| VString (s : string)
| VFloat (f : PrimFloat.float)
| VInt (n : Z)
| VBool (b : bool).

(** [m[k]] on a [map[string]interface{}]: nil for a missing key. *)
Definition at_key (m : gmap string value) (k : string) : value :=
  default VNil (m !! k).

(** What the call [trader.GetAccountInfo()] made in the inner goroutine
    does: it returns after some time with an account or an error, or it
    never returns. *)
Inductive fetch : Type :=
| Returns (latency : Duration) (r : gmap string value + error)
| Hangs.

(** The part of [*trader.AutoTrader] this query reads. *)
Record AutoTrader : Type := {
  GetID : string;
  GetName : string;
  GetAIModel : string;
  GetExchange : string;
  GetSystemPromptTemplate : string;
  GetStatus : gmap string value;
  GetAccountInfo : fetch
}.

(** The case of the [select] statement that fired. *)
Inductive selected : Type :=
| FromAccountChan (account : gmap string value)
| FromErrorChan (err : error)
| CtxDone.

(** [context.WithTimeout(context.Background(), 3*time.Second)] *)
Definition perTraderTimeout : Duration := dmul 3 Second.

(** The [select] over [accountChan], [errorChan] and [ctx.Done()]: the
    case that becomes ready first fires; when the fetch returns at the very
    instant of the deadline both are ready and the runtime picks one
    ([ctxFirst] is its pick). *)
Definition selectCase (ctxFirst : bool) (f : fetch) : selected :=
  match f with
  | Hangs => CtxDone
  | Returns latency r =>
    if (latency <? perTraderTimeout)
       || ((latency =? perTraderTimeout) && negb ctxFirst)
    then match r with
         | inl account => FromAccountChan account
         | inr err => FromErrorChan err
         end
    else CtxDone
  end.

(** The map literal built in each of the three cases. *)
Definition traderData (trader : AutoTrader) (sel : selected) : gmap string value :=
  let status := GetStatus trader in
  match sel with
  | FromAccountChan account =>
    list_to_map
      [("trader_id", VString (GetID trader));
       ("trader_name", VString (GetName trader));
       ("ai_model", VString (GetAIModel trader));
       ("exchange", VString (GetExchange trader));
       ("total_equity", at_key account "total_equity");
       ("total_pnl", at_key account "total_pnl");
       ("total_pnl_pct", at_key account "total_pnl_pct");
       ("position_count", at_key account "position_count");
       ("margin_used_pct", at_key account "margin_used_pct");
       ("is_running", at_key status "is_running");
       ("system_prompt_template", VString (GetSystemPromptTemplate trader))]
  | FromErrorChan _ =>
    list_to_map
      [("trader_id", VString (GetID trader));
       ("trader_name", VString (GetName trader));
       ("ai_model", VString (GetAIModel trader));
       ("exchange", VString (GetExchange trader));
       ("total_equity", VFloat 0);
       ("total_pnl", VFloat 0);
       ("total_pnl_pct", VFloat 0);
       ("position_count", VInt 0);
       ("margin_used_pct", VFloat 0);
       ("is_running", at_key status "is_running");
       ("system_prompt_template", VString (GetSystemPromptTemplate trader));
       ("error", VString "账户数据获取失败")]
  | CtxDone =>
    list_to_map
      [("trader_id", VString (GetID trader));
       ("trader_name", VString (GetName trader));
       ("ai_model", VString (GetAIModel trader));
       ("exchange", VString (GetExchange trader));
       ("total_equity", VFloat 0);
       ("total_pnl", VFloat 0);
       ("total_pnl_pct", VFloat 0);
       ("position_count", VInt 0);
       ("margin_used_pct", VFloat 0);
       ("is_running", at_key status "is_running");
       ("system_prompt_template", VString (GetSystemPromptTemplate trader));
       ("error", VString "获取超时")]
  end.

Record traderResult : Type := {
  index : nat;
  data : gmap string value
}.

(** [results[result.index] = result.data]; a Go slice of maps starts out
    with nil entries ([None]). *)
Definition store (results : list (option (gmap string value))) (r : traderResult)
  : list (option (gmap string value)) :=
  <[index r := Some (data r)]> results.

Section GetConcurrentTraderData.

(** The runtime's pick for trader [i] when its fetch returns exactly at
    the deadline. *)
Variable pick : nat -> bool.

(** The order in which the goroutines' results arrive on [resultChan]. *)
Variable arrival : list traderResult -> list traderResult.

(** What the goroutine spawned for [traders[i]] sends on [resultChan]. *)
Definition sent (traders : list AutoTrader) : list traderResult :=
  imap (fun i trader =>
          {| index := i;
             data := traderData trader
                       (selectCase (pick i) (GetAccountInfo trader)) |})
       traders.

Definition getConcurrentTraderData (traders : list AutoTrader)
  : list (option (gmap string value)) :=
  let received := take (length traders) (arrival (sent traders)) in
  foldl store (replicate (length traders) None) received.

End GetConcurrentTraderData.

(** The placeholder entries of a degraded row. *)
Definition zeroed (row : gmap string value) : Prop :=
  row !! "total_equity" = Some (VFloat 0) /\
  row !! "total_pnl" = Some (VFloat 0) /\
  row !! "total_pnl_pct" = Some (VFloat 0) /\
  row !! "position_count" = Some (VInt 0) /\
  row !! "margin_used_pct" = Some (VFloat 0).

(** The entries of a row copied from the fetched account. *)
Definition carries (row account : gmap string value) : Prop :=
  row !! "total_equity" = Some (at_key account "total_equity") /\
  row !! "total_pnl" = Some (at_key account "total_pnl") /\
  row !! "total_pnl_pct" = Some (at_key account "total_pnl_pct") /\
  row !! "position_count" = Some (at_key account "position_count") /\
  row !! "margin_used_pct" = Some (at_key account "margin_used_pct").


Definition okTrader : AutoTrader :=
  {| GetID := "t1"; GetName := "alpha"; GetAIModel := "deepseek"; GetExchange := "binance";
     GetSystemPromptTemplate := "default";
     GetStatus := {["is_running" := VBool true]};
     GetAccountInfo :=
       Returns Second
         (inl (<["total_equity" := VFloat 1200]> {["position_count" := VInt 2]})) |}.

Definition failingTrader : AutoTrader :=
  {| GetID := "t2"; GetName := "beta"; GetAIModel := "qwen"; GetExchange := "binance";
     GetSystemPromptTemplate := "default";
     GetStatus := {["is_running" := VBool false]};
     GetAccountInfo := Returns (2 * Second) (inr (errorString "exchange unreachable")) |}.

Definition hangingTrader : AutoTrader :=
  {| GetID := "t3"; GetName := "gamma"; GetAIModel := "qwen"; GetExchange := "binance";
     GetSystemPromptTemplate := "default";
     GetStatus := {["is_running" := VBool true]};
     GetAccountInfo := Hangs |}.

Definition testTraders : list AutoTrader := [okTrader; failingTrader; hangingTrader].

(** *** Ownership of a trader id *)

(** The loop of [containsUserPrefix], at byte offset [i]. A [range] over
    a string yields runes with their byte offsets; [@] and [_] are ASCII,
    so they are met exactly at the bytes that hold them, and only the
    first rune has offset 0. *)
Fixpoint scanUserPrefix (i : nat) (traderID : string) : bool :=
  match traderID with
  | EmptyString => false
  | String ch rest =>
    if Ascii.eqb ch "@" then true
    else if Ascii.eqb ch "_" && (0 <? i)%nat then false
    else scanUserPrefix (S i) rest
  end.

Definition containsUserPrefix (traderID : string) : bool := scanUserPrefix 0 traderID.

Definition isUserTrader (traderID userID : string) : bool :=
  if (String.length userID <=? String.length traderID)%nat
     && String.eqb (substring 0 (String.length userID) traderID) userID
  then true
  else if String.eqb userID "default" && negb (containsUserPrefix traderID) then true
  else false.

(** *** The registry and the leaderboard queries *)

(** What the maps returned by the queries hold under their keys: the
    rows, or a count. *)
Inductive summary : Type :=
| Rows (rows : list (option (gmap string value)))
| Count (n : Z).

(** [CompetitionCache], with its fields [data] and [timestamp]. *)
Record CompetitionCache : Type := {
  cache_data : gmap string summary;
  cache_timestamp : Time
}.

Record TraderManager : Type := {
  traders : gmap string AutoTrader;
  competitionCache : CompetitionCache
}.

(** The zero [time.Time], on a clock that counts from 1970. *)
Definition zeroTime : Time := -62135596800 * Second.

Definition NewTraderManager : TraderManager :=
  {| traders := ∅;
     competitionCache := {| cache_data := ∅; cache_timestamp := zeroTime |} |}.

Definition GetTrader (tm : TraderManager) (id : string) : AutoTrader + error :=
  match traders tm !! id with
  | Some t => inl t
  | None => inr (errorString ("trader ID '" +:+ id +:+ "' 不存在"))
  end.

(** [traders[i]["total_pnl_pct"].(float64)], 0 when the entry is not a
    [float64], and the [less] function given to [sort.Slice]. *)
Definition pnlPct (row : option (gmap string value)) : PrimFloat.float :=
  match row with
  | Some r =>
    match r !! "total_pnl_pct" with
    | Some (VFloat f) => f
    | _ => 0%float
    end
  | None => 0%float
  end.

Definition byPnlPct (rowI rowJ : option (gmap string value)) : bool :=
  PrimFloat.ltb (pnlPct rowJ) (pnlPct rowI).

(** *** The order of [float64] *)

(** The place of a float that is not NaN in the order of [<]: its class
    (negative infinity, negative, zero, positive, positive infinity),
    then its exponent and mantissa. *)
Definition float_key (f : spec_float) : Z * Z * Z :=
  match f with
  | S754_zero _ => (0, 0, 0)
  | S754_infinity true => (-2, 0, 0)
  | S754_infinity false => (2, 0, 0)
  | S754_nan => (0, 0, 0)
  | S754_finite true m e => (-1, - e, - Z.pos m)
  | S754_finite false m e => (1, e, Z.pos m)
  end.

Definition key_lt (k1 k2 : Z * Z * Z) : Prop :=
  k1.1.1 < k2.1.1 \/
  (k1.1.1 = k2.1.1 /\ (k1.1.2 < k2.1.2 \/ (k1.1.2 = k2.1.2 /\ k1.2 < k2.2))).

(** No element of [l] that comes later has to sort before one that comes
    earlier. *)
Fixpoint sorted_by {A} (less : A -> A -> bool) (l : list A) : Prop :=
  match l with
  | [] => True
  | x :: l' => Forall (fun y => less y x = false) l' /\ sorted_by less l'
  end.

(** The row [getConcurrentTraderData] makes for the trader at index [i]. *)
Definition rowOf (pick : nat -> bool) (i : nat) (trader : AutoTrader)
  : option (gmap string value) :=
  Some (traderData trader (selectCase (pick i) (GetAccountInfo trader))).

(** A cache that is empty, as [NewTraderManager] makes it, or holds rows
    under [traders]. *)
Definition cache_ok (tm : TraderManager) : Prop :=
  cache_data (competitionCache tm) = ∅ \/
  exists rows, cache_data (competitionCache tm) !! "traders" = Some (Rows rows).




Section Queries.

Variable pick : nat -> bool.
Variable arrival : list traderResult -> list traderResult.

(** The order in which [range tm.traders] visits the registry. *)
Variable range_traders : gmap string AutoTrader -> list (string * AutoTrader).

(** [sort.Slice], which rearranges the slice it is given. *)
Variable sortSlice :
  (option (gmap string value) -> option (gmap string value) -> bool) ->
  list (option (gmap string value)) -> list (option (gmap string value)).

Definition GetTraderIDs (tm : TraderManager) : list string :=
  (range_traders (traders tm)).*1.

Definition GetAllTraders (tm : TraderManager) : gmap string AutoTrader :=
  foldl (fun result it => <[it.1 := it.2]> result) ∅ (range_traders (traders tm)).

(** [GetCompetitionData], called at instant [now]; [done] is the instant
    at which a recomputed result is put into the cache. (The error it
    returns is always nil, and is left out.) *)
Definition GetCompetitionData (tm : TraderManager) (now done : Time)
  : gmap string summary * TraderManager :=
  let cache := competitionCache tm in
  if (Since now (cache_timestamp cache) <? dmul 30 Second)
     && (0 <? size (cache_data cache))%nat
  then (cache_data cache, tm)
  else
    let allTraders := (range_traders (traders tm)).*2 in
    let sorted := sortSlice byPnlPct (getConcurrentTraderData pick arrival allTraders) in
    let totalCount := length sorted in
    let limit := 50%nat in
    let top := if (limit <? length sorted)%nat then take limit sorted else sorted in
    let comparison : gmap string summary :=
      <["traders" := Rows top]>
        (<["count" := Count (Z.of_nat (length top))]>
           {["total_count" := Count (Z.of_nat totalCount)]}) in
    (comparison,
     {| traders := traders tm;
        competitionCache := {| cache_data := comparison; cache_timestamp := done |} |}).

Definition GetTopTradersData (tm : TraderManager) (now done : Time)
  : (gmap string summary + error) * TraderManager :=
  let '(competitionData, tm') := GetCompetitionData tm now done in
  match competitionData !! "traders" with
  | Some (Rows allTraders) =>
    let limit := 5%nat in
    let topTraders :=
      if (limit <? length allTraders)%nat then take limit allTraders else allTraders in
    (inl (<["traders" := Rows topTraders]>
            {["count" := Count (Z.of_nat (length topTraders))]}), tm')
  | _ => (inr (errorString "竞赛数据格式错误"), tm')
  end.


End Queries.

Definition testRangeTraders (m : gmap string AutoTrader) : list (string * AutoTrader) :=
  map_to_list m.

(** A sort by insertion, for the concrete runs. *)
Fixpoint insertBy {A} (less : A -> A -> bool) (x : A) (l : list A) : list A :=
  match l with
  | [] => [x]
  | y :: l' => if less x y then x :: l else y :: insertBy less x l'
  end.

Definition testSort {A} (less : A -> A -> bool) (l : list A) : list A :=
  foldr (insertBy less) [] l.

Definition testManager : TraderManager :=
  {| traders :=
       <["t1" := okTrader]> (<["t2" := failingTrader]> {["t3" := hangingTrader]});
     competitionCache := {| cache_data := ∅; cache_timestamp := zeroTime |} |}.

Definition leadingTrader : AutoTrader :=
  {| GetID := "t4"; GetName := "delta"; GetAIModel := "deepseek"; GetExchange := "binance";
     GetSystemPromptTemplate := "default";
     GetStatus := {["is_running" := VBool true]};
     GetAccountInfo := Returns Second (inl {["total_pnl_pct" := VFloat 12]}) |}.

Definition trailingTrader : AutoTrader :=
  {| GetID := "t5"; GetName := "epsilon"; GetAIModel := "qwen"; GetExchange := "binance";
     GetSystemPromptTemplate := "default";
     GetStatus := {["is_running" := VBool true]};
     GetAccountInfo := Returns Second (inl {["total_pnl_pct" := VFloat 5]}) |}.

Definition rankedManager : TraderManager :=
  {| traders := <["t5" := trailingTrader]> {["t4" := leadingTrader]};
     competitionCache := {| cache_data := ∅; cache_timestamp := zeroTime |} |}.

Lemma store_length results r : length (store results r) = length results.
Proof. unfold store. apply length_insert. Qed.

Lemma foldl_store_length rs results :
  length (foldl store results rs) = length results.
Proof.
  revert results. induction rs as [|r rs IH]; intros results; simpl; [done|].
  by rewrite IH, store_length.
Qed.

(** A slot nobody writes keeps its content. *)
Lemma foldl_store_other rs results i :
  (forall r, r ∈ rs -> index r <> i) ->
  foldl store results rs !! i = results !! i.
Proof.
  revert results. induction rs as [|r rs IH]; intros results Hrs; simpl; [done|].
  rewrite IH by (intros r' Hr'; apply Hrs; by right).
  unfold store. apply list_lookup_insert_ne. apply Hrs. by left.
Qed.

(** A slot written by exactly one result holds that result's data,
    wherever in the arrival order that result comes. *)
Lemma foldl_store_hit rs results i d :
  NoDup (index <$> rs) ->
  {| index := i; data := d |} ∈ rs ->
  (i < length results)%nat ->
  foldl store results rs !! i = Some (Some d).
Proof.
  revert results. induction rs as [|r rs IH]; intros results Hnd Hin Hlen.
  - by apply not_elem_of_nil in Hin.
  - simpl in *. apply NoDup_cons in Hnd as [Hr Hnd].
    apply elem_of_cons in Hin as [<- | Hin].
    + rewrite foldl_store_other.
      * unfold store. simpl. by apply list_lookup_insert_eq.
      * intros r' Hr' Heq. apply Hr. simpl.
        apply list_elem_of_fmap. by exists r'.
    + apply IH; [done | done | by rewrite store_length].
Qed.

Lemma sent_lookup pick traders i :
  sent pick traders !! i =
  (fun trader => {| index := i;
                    data := traderData trader
                              (selectCase (pick i) (GetAccountInfo trader)) |})
    <$> traders !! i.
Proof. unfold sent. apply list_lookup_imap. Qed.

Lemma sent_length pick traders : length (sent pick traders) = length traders.
Proof. unfold sent. apply length_imap. Qed.

Lemma sent_indices pick traders :
  index <$> sent pick traders = seq 0 (length traders).
Proof.
  apply list_eq. intros i. rewrite list_lookup_fmap, sent_lookup.
  destruct (traders !! i) as [t|] eqn:Ht; simpl.
  - symmetry. apply lookup_seq. split; [done|]. by apply lookup_lt_Some in Ht.
  - symmetry. apply lookup_seq_ge. by apply lookup_ge_None in Ht.
Qed.


Lemma traderData_account trader account :
  carries (traderData trader (FromAccountChan account)) account /\
  traderData trader (FromAccountChan account) !! "error" = None.
Proof. repeat split. Qed.

Lemma traderData_error trader err :
  zeroed (traderData trader (FromErrorChan err)) /\
  traderData trader (FromErrorChan err) !! "error" = Some (VString "账户数据获取失败").
Proof. repeat split. Qed.

Lemma traderData_timeout trader :
  zeroed (traderData trader CtxDone) /\
  traderData trader CtxDone !! "error" = Some (VString "获取超时").
Proof. repeat split. Qed.




(** The three goroutines deliver in reverse order; every row still lands
    in its trader's slot. *)
Example getConcurrentTraderData_reverse_arrival :
  getConcurrentTraderData (fun _ => true) reverse testTraders
  = [Some (traderData okTrader
             (FromAccountChan (<["total_equity" := VFloat 1200]> {["position_count" := VInt 2]})));
     Some (traderData failingTrader (FromErrorChan (errorString "exchange unreachable")));
     Some (traderData hangingTrader CtxDone)].
Proof. vm_compute. reflexivity. Qed.


Lemma scanUserPrefix_spec (traderID : string) (k : nat) :
  scanUserPrefix k traderID = true <->
  exists pre post,
    traderID = pre +:+ "@" +:+ post /\
    forall i, (0 < k + i)%nat -> String.get i pre <> Some "_"%char.
Proof.
  revert k. induction traderID as [|ch rest IH]; intros k; cbn [scanUserPrefix].
  - split; [done|]. intros ([|c pre] & post & H & _); discriminate.
  - destruct (Ascii.eqb_spec ch "@") as [->|Hat].
    { split; [intros _ | done]. exists EmptyString, rest. split; [done|].
      intros i _. by destruct i. }
    assert (Hstep :
      (exists pre post,
         rest = pre +:+ "@" +:+ post /\
         forall i, (0 < S k + i)%nat -> String.get i pre <> Some "_"%char) <->
      (exists pre post,
         String ch rest = pre +:+ "@" +:+ post /\
         forall i, (0 < i)%nat -> String.get i pre <> Some "_"%char)).
    { split.
      - intros (pre & post & -> & Hno). exists (String ch pre), post. split; [done|].
        intros [|i] Hi; [lia|]. cbn. apply Hno. lia.
      - intros ([|c pre] & post & H & Hno).
        + injection H as H _. congruence.
        + injection H as _ ->. exists pre, post. split; [done|].
          intros i _. apply (Hno (S i)). lia. }
    destruct (Ascii.eqb_spec ch "_") as [->|Hus]; cbn [andb].
    + destruct (Nat.ltb_spec 0 k) as [Hk|Hk].
      * split; [done|]. intros ([|c pre] & post & H & Hno).
        -- injection H as H _. congruence.
        -- injection H as <- _. exfalso. apply (Hno 0%nat); [lia | done].
      * rewrite IH, Hstep. assert (k = 0)%nat as -> by lia.
        split; intros (pre & post & H & Hno); exists pre, post; (split; [done|]);
          intros i Hi; apply Hno; lia.
    + rewrite IH, Hstep.
      split; intros (pre & post & H & Hno); exists pre, post; (split; [done|]).
      * intros i Hi. destruct i as [|i]; [|apply Hno; lia].
        destruct pre as [|c pre]; [done|]. injection H as <- _. cbn. congruence.
      * intros i Hi. apply Hno. lia.
Qed.

Lemma slice_prefix_spec (s p : string) :
  (String.length p <=? String.length s)%nat
  && String.eqb (substring 0 (String.length p) s) p = true
  <-> exists rest, s = p +:+ rest.
Proof.
  rewrite andb_true_iff, Nat.leb_le, String.eqb_eq. split.
  - intros [Hlen Heq]. exists (substring (String.length p) (String.length s - String.length p) s).
    rewrite <- Heq at 1. by apply substring_split.
  - intros [rest ->]. rewrite length_append. split; [lia | apply substring_append_l].
Qed.

(** X11. [containsUserPrefix] answers true exactly when the id has an
    [@] that is not preceded by an underscore other than one at the very
    start of the id. *)
Theorem containsUserPrefix_spec (traderID : string) :
  containsUserPrefix traderID = true <->
  exists pre post,
    traderID = pre +:+ "@" +:+ post /\
    forall i, (0 < i)%nat -> String.get i pre <> Some "_"%char.
Proof. unfold containsUserPrefix. apply scanUserPrefix_spec. Qed.

(** X12. A trader id belongs to a user exactly when it starts with the
    user id, or the user is [default] and the id has no e-mail prefix in
    the sense of [containsUserPrefix]. *)
Theorem isUserTrader_spec (traderID userID : string) :
  isUserTrader traderID userID = true <->
  (exists rest, traderID = userID +:+ rest) \/
  (userID = "default"%string /\ containsUserPrefix traderID = false).
Proof.
  unfold isUserTrader. rewrite <- slice_prefix_spec.
  destruct ((String.length userID <=? String.length traderID)%nat
            && String.eqb (substring 0 (String.length userID) traderID) userID).
  { split; [by left | done]. }
  destruct (String.eqb_spec userID "default") as [->|Hne]; cbn [andb].
  - destruct (containsUserPrefix traderID); cbn [negb].
    + split; [done | by intros [|[_ ?]]].
    + split; [by right | done].
  - split; [done | by intros [|[? _]]].
Qed.

Example isUserTrader_examples :
  isUserTrader "alice@example.com_bot" "alice@example.com" = true /\
  isUserTrader "alice@example.com_bot" "default" = false /\
  isUserTrader "binance_deepseek" "default" = true /\
  isUserTrader "_a@b" "default" = false /\
  isUserTrader "a_b@c" "default" = true /\
  isUserTrader "bot" "" = true.
Proof. vm_compute. repeat split. Qed.

Lemma testSort_perm {A} (less : A -> A -> bool) (l : list A) : testSort less l ≡ₚ l.
Proof.
  assert (Hins : forall x l', insertBy less x l' ≡ₚ x :: l').
  { intros x l'. induction l' as [|y l' IH]; cbn; [done|].
    destruct (less x y); [done|]. rewrite IH. apply Permutation_swap. }
  induction l as [|x l IH]; cbn; [done|]. by rewrite Hins, IH.
Qed.

(** With every result delivered, slot [i] of the result is the row of
    the trader at index [i]. *)
Lemma getConcurrentTraderData_imap
    (pick : nat -> bool) (arrival : list traderResult -> list traderResult)
    (ts : list AutoTrader) :
  (forall l, arrival l ≡ₚ l) ->
  getConcurrentTraderData pick arrival ts = imap (rowOf pick) ts.
Proof.
  intros Harr. unfold getConcurrentTraderData.
  assert (Hlen : length (arrival (sent pick ts)) = length ts).
  { rewrite (Permutation_length (Harr _)). apply sent_length. }
  rewrite firstn_all2 by lia.
  apply list_eq. intros i. rewrite list_lookup_imap.
  destruct (ts !! i) as [t|] eqn:Hi; cbn.
  - apply foldl_store_hit.
    + rewrite (Harr _), sent_indices. apply NoDup_seq.
    + rewrite (Harr _). apply list_elem_of_lookup. exists i.
      by rewrite sent_lookup, Hi.
    + rewrite length_replicate. by apply lookup_lt_Some in Hi.
  - apply lookup_ge_None_2. rewrite foldl_store_length, length_replicate.
    by apply lookup_ge_None_1.
Qed.

Lemma comparison_size (a b c : summary) :
  (0 < size (<["traders" := a]> (<["count" := b]> ({["total_count" := c]} : gmap string summary))))%nat.
Proof.
  destruct (size _) eqn:Hs; [|lia].
  apply map_size_empty_iff in Hs. by apply insert_non_empty in Hs.
Qed.

Lemma SFltb_key_lt (f1 f2 : spec_float) :
  f1 <> S754_nan -> f2 <> S754_nan ->
  SFltb f1 f2 = true <-> key_lt (float_key f1) (float_key f2).
Proof.
  intros H1 H2. unfold SFltb, key_lt.
  destruct f1 as [s1|s1| |s1 m1 e1], f2 as [s2|s2| |s2 m2 e2]; try done;
    try destruct s1; try destruct s2; cbn; try (split; [discriminate | lia]);
    try (split; [lia | done]); try (split; [done | lia]).
  - destruct (Z.compare_spec e1 e2) as [->|Hlt|Hgt]; cbn.
    + rewrite Pos.compare_cont_spec. cbn.
      destruct (Pos.compare_spec m1 m2) as [->|Hm|Hm]; cbn; split; (lia || done || discriminate).
    + split; (lia || done || discriminate).
    + split; (lia || done || discriminate).
  - destruct (Z.compare_spec e1 e2) as [->|Hlt|Hgt]; cbn.
    + rewrite Pos.compare_cont_spec. cbn.
      destruct (Pos.compare_spec m1 m2) as [->|Hm|Hm]; cbn; split; (lia || done || discriminate).
    + split; (lia || done || discriminate).
    + split; (lia || done || discriminate).
Qed.

(** A float that equals itself is not NaN. *)
Lemma not_nan_Prim2SF (x : PrimFloat.float) :
  (x =? x)%float = true -> Prim2SF x <> S754_nan.
Proof. rewrite FloatAxioms.eqb_spec. intros H Hn. rewrite Hn in H. discriminate. Qed.

Lemma float_ltb_key_lt (x y : PrimFloat.float) :
  (x =? x)%float = true -> (y =? y)%float = true ->
  (x <? y)%float = true <-> key_lt (float_key (Prim2SF x)) (float_key (Prim2SF y)).
Proof.
  intros Hx Hy. rewrite FloatAxioms.ltb_spec.
  apply SFltb_key_lt; by apply not_nan_Prim2SF.
Qed.

Lemma float_ltb_irrefl (x : PrimFloat.float) : (x <? x)%float = false.
Proof.
  rewrite FloatAxioms.ltb_spec. unfold SFltb.
  destruct (Prim2SF x) as [s|s| |s m e]; try destruct s; cbn; try done;
    rewrite Z.compare_refl, Pos.compare_cont_spec, Pos.compare_refl; done.
Qed.

Lemma float_ltb_trans (x y z : PrimFloat.float) :
  (x =? x)%float = true -> (y =? y)%float = true -> (z =? z)%float = true ->
  (x <? y)%float = true -> (y <? z)%float = true -> (x <? z)%float = true.
Proof.
  intros Hx Hy Hz. rewrite !float_ltb_key_lt by done. unfold key_lt. lia.
Qed.

Lemma float_ltb_negtrans (x y z : PrimFloat.float) :
  (x =? x)%float = true -> (y =? y)%float = true -> (z =? z)%float = true ->
  (x <? y)%float = false -> (y <? z)%float = false -> (x <? z)%float = false.
Proof.
  intros Hx Hy Hz Hxy Hyz.
  apply not_true_iff_false. apply not_true_iff_false in Hxy, Hyz.
  rewrite float_ltb_key_lt in * by done. unfold key_lt in *. lia.
Qed.

Lemma float_not_ltb_leb (x y : PrimFloat.float) :
  (x =? x)%float = true -> (y =? y)%float = true ->
  (x <? y)%float = false -> (y <=? x)%float = true.
Proof.
  intros Hx Hy. rewrite FloatAxioms.ltb_spec, FloatAxioms.leb_spec.
  pose proof (not_nan_Prim2SF x Hx) as Hnx. pose proof (not_nan_Prim2SF y Hy) as Hny.
  unfold SFltb, SFleb.
  destruct (Prim2SF x) as [s1|s1| |s1 m1 e1], (Prim2SF y) as [s2|s2| |s2 m2 e2]; try done;
    try destruct s1; try destruct s2; cbn; try done.
  - rewrite (Z.compare_antisym e1 e2).
    destruct (e1 ?= e2); cbn; try done.
    rewrite !Pos.compare_cont_spec. cbn. rewrite (Pos.compare_antisym m1 m2).
    by destruct (m1 ?= m2)%positive.
  - rewrite (Z.compare_antisym e1 e2).
    destruct (e1 ?= e2); cbn; try done.
    rewrite !Pos.compare_cont_spec. cbn. rewrite (Pos.compare_antisym m1 m2).
    by destruct (m1 ?= m2)%positive.
Qed.

Lemma sorted_by_lookup {A} (less : A -> A -> bool) (l : list A) :
  sorted_by less l ->
  forall i j x y, (i < j)%nat -> l !! i = Some x -> l !! j = Some y -> less y x = false.
Proof.
  induction l as [|a l IH]; intros Hs i j x y Hij Hi Hj; [done|].
  destruct Hs as [Ha Hs]. destruct j as [|j]; [lia|]. cbn in Hj.
  destruct i as [|i]; cbn in Hi.
  - injection Hi as ->. rewrite Forall_forall in Ha. apply Ha.
    by eapply list_elem_of_lookup_2.
  - apply (IH Hs i j); [lia | done | done].
Qed.

Lemma insertBy_elem_of {A} (less : A -> A -> bool) (x y : A) (l : list A) :
  y ∈ insertBy less x l -> y = x \/ y ∈ l.
Proof.
  induction l as [|a l IH]; cbn.
  - intros Hy. apply list_elem_of_singleton in Hy. by left.
  - destruct (less x a).
    + intros Hy. apply elem_of_cons in Hy as [->|Hy]; [by left | by right].
    + intros Hy. apply elem_of_cons in Hy as [->|Hy]; [right; by left|].
      destruct (IH Hy) as [->|Hin]; [by left | right; by right].
Qed.

Lemma insertBy_sorted {A} (less : A -> A -> bool) (P : A -> Prop) :
  (forall x, P x -> less x x = false) ->
  (forall x y z, P x -> P y -> P z ->
     less x y = true -> less y z = true -> less x z = true) ->
  forall x l, P x -> Forall P l ->
    sorted_by less l -> sorted_by less (insertBy less x l).
Proof.
  intros Hirr Htrans x l Hx. induction l as [|a l IH]; intros HP Hs; cbn.
  - split; [constructor | done].
  - apply Forall_cons in HP as [Ha HP]. destruct Hs as [Hfa Hs].
    destruct (less x a) eqn:Hxa; cbn.
    + split; [|by split]. apply Forall_cons. split.
      * destruct (less a x) eqn:Hax; [|done].
        rewrite <- (Hirr x Hx). symmetry. by apply (Htrans x a x).
      * rewrite Forall_forall in Hfa, HP. apply Forall_forall. intros z Hz.
        destruct (less z x) eqn:Hzx; [|done].
        rewrite <- (Hfa z Hz). symmetry. apply (Htrans z x a); auto.
    + split; [|by apply IH]. apply Forall_forall. intros z Hz.
      apply insertBy_elem_of in Hz as [->|Hz]; [done|].
      rewrite Forall_forall in Hfa. by apply Hfa.
Qed.

Lemma testSort_elem_of {A} (less : A -> A -> bool) (l : list A) (x : A) :
  x ∈ testSort less l -> x ∈ l.
Proof.
  revert x. induction l as [|a l IH]; intros x; cbn; [done|].
  intros Hx. apply insertBy_elem_of in Hx as [->|Hx]; [by left | right; by apply IH].
Qed.

(** The sort of the concrete runs does what [sort.Slice] promises. *)
Lemma testSort_sorted {A} (less : A -> A -> bool) (l : list A) :
  (forall x, x ∈ l -> less x x = false) ->
  (forall x y z, x ∈ l -> y ∈ l -> z ∈ l ->
     less x y = true -> less y z = true -> less x z = true) ->
  forall i j x y, (i < j)%nat ->
    testSort less l !! i = Some x -> testSort less l !! j = Some y -> less y x = false.
Proof.
  intros Hirr Htrans. apply sorted_by_lookup.
  assert (Hsub : forall l', l' ⊆ l -> sorted_by less (testSort less l')).
  { induction l' as [|a l' IH]; intros Hl'; cbn; [done|].
    apply (insertBy_sorted less (fun x => x ∈ l)); [done | done | | |].
    - apply Hl'. by left.
    - apply Forall_forall. intros z Hz. apply Hl'. right. by eapply testSort_elem_of.
    - apply IH. intros z Hz. apply Hl'. by right. }
  by apply Hsub.
Qed.

(** The percentage a row is ranked by is a number when the account's
    is. *)
Lemma rowOf_not_nan (pick : nat -> bool) (i : nat) (t : AutoTrader) :
  (forall latency account f,
     GetAccountInfo t = Returns latency (inl account) ->
     account !! "total_pnl_pct" = Some (VFloat f) -> (f =? f)%float = true) ->
  (pnlPct (rowOf pick i t) =? pnlPct (rowOf pick i t))%float = true.
Proof.
  intros Hnum. unfold rowOf, pnlPct.
  destruct (selectCase (pick i) (GetAccountInfo t)) as [account|err|] eqn:Hsel.
  - destruct (traderData_account t account) as [(_ & _ & -> & _) _].
    assert (Hacc : exists latency, GetAccountInfo t = Returns latency (inl account)).
    { unfold selectCase in Hsel. destruct (GetAccountInfo t) as [latency r|]; [|done].
      destruct (_ || _); [|done]. destruct r; [|done]. injection Hsel as ->. by eexists. }
    destruct Hacc as [latency Hacc]. unfold at_key.
    destruct (account !! "total_pnl_pct") as [[| |f| |]|] eqn:Hf; cbn; try reflexivity.
    by eapply Hnum.
  - by destruct (traderData_error t err) as [(_ & _ & -> & _) _].
  - by destruct (traderData_timeout t) as [(_ & _ & -> & _) _].
Qed.

(** X13. When the cache is empty or at least 30 s old,
    [GetCompetitionData] queries every registered trader: the rows it
    handles are the traders' rows in some order, it returns the first 50
    of them under [traders], their number under [count] and the number of
    registered traders under [total_count], and it leaves exactly this
    result in the cache, stamped with the time of completion. The order
    is that of [sort.Slice] by [total_pnl_pct], largest first, an entry
    that is not a [float64] counting as 0: when [sort.Slice] sorts
    whatever it is given with an ordering that is irreflexive, transitive
    and has transitive incomparability, and no account reports a
    percentage that is NaN, no row comes before a row with a larger
    percentage, so the rows returned are 50 with the largest
    percentages. *)
Theorem GetCompetitionData_recomputes
    (pick : nat -> bool) (arrival : list traderResult -> list traderResult)
    (range_traders : gmap string AutoTrader -> list (string * AutoTrader))
    (sortSlice :
       (option (gmap string value) -> option (gmap string value) -> bool) ->
       list (option (gmap string value)) -> list (option (gmap string value)))
    (tm : TraderManager) (now done : Time) :
  (forall l, arrival l ≡ₚ l) ->
  (forall m, range_traders m ≡ₚ map_to_list m) ->
  (forall less l, sortSlice less l ≡ₚ l) ->
  30 * Second <= Since now (cache_timestamp (competitionCache tm))
  \/ cache_data (competitionCache tm) = ∅ ->
  exists comparison sorted,
    GetCompetitionData pick arrival range_traders sortSlice tm now done
    = (comparison,
       {| traders := traders tm;
          competitionCache := {| cache_data := comparison; cache_timestamp := done |} |}) /\
    sorted ≡ₚ imap (rowOf pick) (range_traders (traders tm)).*2 /\
    (range_traders (traders tm)).*2 ≡ₚ (map_to_list (traders tm)).*2 /\
    comparison !! "traders" = Some (Rows (take 50 sorted)) /\
    comparison !! "count" = Some (Count (Z.of_nat (50 `min` size (traders tm)))) /\
    comparison !! "total_count" = Some (Count (Z.of_nat (size (traders tm)))) /\
    ((forall less l,
        (forall x, x ∈ l -> less x x = false) ->
        (forall x y z, x ∈ l -> y ∈ l -> z ∈ l ->
           less x y = true -> less y z = true -> less x z = true) ->
        (forall x y z, x ∈ l -> y ∈ l -> z ∈ l ->
           less x y = false -> less y z = false -> less x z = false) ->
        forall i j x y, (i < j)%nat ->
          sortSlice less l !! i = Some x -> sortSlice less l !! j = Some y ->
          less y x = false) ->
     (forall id t latency account f,
        traders tm !! id = Some t ->
        GetAccountInfo t = Returns latency (inl account) ->
        account !! "total_pnl_pct" = Some (VFloat f) -> (f =? f)%float = true) ->
     forall i j rowI rowJ pnlPctI pnlPctJ,
       (i < j)%nat ->
       sorted !! i = Some rowI -> sorted !! j = Some rowJ ->
       pnlPctI = match rowI with
                 | Some r => match r !! "total_pnl_pct" with
                             | Some (VFloat f) => f
                             | _ => 0%float
                             end
                 | None => 0%float
                 end ->
       pnlPctJ = match rowJ with
                 | Some r => match r !! "total_pnl_pct" with
                             | Some (VFloat f) => f
                             | _ => 0%float
                             end
                 | None => 0%float
                 end ->
       (pnlPctI <? pnlPctJ)%float = false /\ (pnlPctJ <=? pnlPctI)%float = true).
Proof.
  intros Harr Hrange Hsort Hmiss. unfold GetCompetitionData.
  replace ((Since now (cache_timestamp (competitionCache tm)) <? dmul 30 Second)
           && (0 <? size (cache_data (competitionCache tm)))%nat) with false.
  2:{ symmetry. apply andb_false_iff. destruct Hmiss as [Hold | Hempty].
      - left. apply Z.ltb_ge. exact Hold.
      - right. rewrite Hempty, map_size_empty. done. }
  set (allTraders := (range_traders (traders tm)).*2).
  set (sorted := sortSlice byPnlPct (getConcurrentTraderData pick arrival allTraders)).
  assert (Hsorted : sorted ≡ₚ imap (rowOf pick) allTraders).
  { unfold sorted. rewrite Hsort. by rewrite getConcurrentTraderData_imap. }
  assert (Hlen : length sorted = size (traders tm)).
  { rewrite Hsorted, length_imap. unfold allTraders.
    rewrite length_fmap, (Permutation_length (Hrange _)). apply length_map_to_list. }
  assert (Htop : (if (50 <? length sorted)%nat then take 50 sorted else sorted)
                 = take 50 sorted).
  { destruct (Nat.ltb_spec 50 (length sorted)); [done|]. symmetry. apply take_ge. lia. }
  rewrite Htop.
  eexists _, sorted. split; [reflexivity|]. split; [done|].
  split; [unfold allTraders; by rewrite (Hrange _)|].
  split; [by rewrite lookup_insert_eq|].
  split.
  { rewrite lookup_insert_ne, lookup_insert_eq by done.
    by rewrite length_take, Hlen. }
  split.
  { rewrite !lookup_insert_ne by done. rewrite lookup_singleton_eq. by rewrite Hlen. }
  intros Hcontract Hnum i j rowI rowJ pnlPctI pnlPctJ Hij Hi Hj HpI HpJ.
  change (pnlPctI = pnlPct rowI) in HpI. change (pnlPctJ = pnlPct rowJ) in HpJ.
  subst pnlPctI pnlPctJ.
  assert (Hrows : forall row, row ∈ getConcurrentTraderData pick arrival allTraders ->
            (pnlPct row =? pnlPct row)%float = true).
  { intros row Hrow. rewrite getConcurrentTraderData_imap in Hrow by done.
    apply list_elem_of_lookup in Hrow as [n Hn].
    rewrite list_lookup_imap in Hn.
    destruct (allTraders !! n) as [t|] eqn:Ht; [|done]. cbn in Hn. injection Hn as <-.
    apply rowOf_not_nan. intros latency account f Hacc Hf.
    apply list_elem_of_lookup_2 in Ht. unfold allTraders in Ht.
    apply list_elem_of_fmap in Ht as ([id t'] & -> & Hin).
    rewrite (Hrange _) in Hin. apply elem_of_map_to_list in Hin.
    by eapply Hnum. }
  assert (Hin : forall row, row ∈ sorted ->
            (pnlPct row =? pnlPct row)%float = true).
  { intros row Hrow. apply Hrows. unfold sorted in Hrow. by rewrite Hsort in Hrow. }
  assert (Hless : byPnlPct rowJ rowI = false).
  { apply (Hcontract byPnlPct (getConcurrentTraderData pick arrival allTraders)
             ltac:(intros x _; apply float_ltb_irrefl)
             ltac:(intros x y z Hx Hy Hz; unfold byPnlPct;
                   intros H1 H2; apply (float_ltb_trans _ (pnlPct y)); auto)
             ltac:(intros x y z Hx Hy Hz; unfold byPnlPct;
                   intros H1 H2; apply (float_ltb_negtrans _ (pnlPct y)); auto)
             i j rowI rowJ Hij Hi Hj). }
  unfold byPnlPct in Hless. split; [exact Hless|].
  apply float_not_ltb_leb; [| | exact Hless];
    apply Hin; by eapply list_elem_of_lookup_2.
Qed.

(** X14. Whatever a call of [GetCompetitionData] returned is what later
    calls return, without touching the cache, for as long as the cache's
    time stamp is less than 30 s old, whatever traders are registered by
    then. *)
Theorem GetCompetitionData_cached
    (pick pick2 : nat -> bool) (arrival arrival2 : list traderResult -> list traderResult)
    (range_traders range_traders2 : gmap string AutoTrader -> list (string * AutoTrader))
    (sortSlice sortSlice2 :
       (option (gmap string value) -> option (gmap string value) -> bool) ->
       list (option (gmap string value)) -> list (option (gmap string value)))
    (tm tm1 : TraderManager) (now done now2 done2 : Time)
    (result : gmap string summary) (traders2 : gmap string AutoTrader) :
  GetCompetitionData pick arrival range_traders sortSlice tm now done = (result, tm1) ->
  Since now2 (cache_timestamp (competitionCache tm1)) < 30 * Second ->
  GetCompetitionData pick2 arrival2 range_traders2 sortSlice2
    {| traders := traders2; competitionCache := competitionCache tm1 |} now2 done2
  = (result, {| traders := traders2; competitionCache := competitionCache tm1 |}).
Proof.
  intros Hfirst Hfresh.
  assert (Hcache : cache_data (competitionCache tm1) = result /\
                   (0 < size (cache_data (competitionCache tm1)))%nat).
  { unfold GetCompetitionData in Hfirst.
    destruct ((Since now (cache_timestamp (competitionCache tm)) <? dmul 30 Second)
              && (0 <? size (cache_data (competitionCache tm)))%nat) eqn:Hhit.
    - injection Hfirst as <- <-. split; [done|].
      apply andb_true_iff in Hhit as [_ Hsize]. by apply Nat.ltb_lt in Hsize.
    - injection Hfirst as <- <-. cbn. split; [done | apply comparison_size]. }
  destruct Hcache as [Hdata Hsize]. unfold GetCompetitionData. cbn [competitionCache].
  replace (Since now2 (cache_timestamp (competitionCache tm1)) <? dmul 30 Second) with true
    by (symmetry; apply Z.ltb_lt; exact Hfresh).
  replace (0 <? size (cache_data (competitionCache tm1)))%nat with true
    by (symmetry; by apply Nat.ltb_lt).
  cbn [andb]. by rewrite Hdata.
Qed.

(** X15. On a manager whose cache is empty or holds rows,
    [GetTopTradersData] never reports a format error: it returns the
    first five rows of what [GetCompetitionData] returns, with their
    number, and leaves the manager as [GetCompetitionData] does, with a
    cache that again holds rows. *)
Theorem GetTopTradersData_top5
    (pick : nat -> bool) (arrival : list traderResult -> list traderResult)
    (range_traders : gmap string AutoTrader -> list (string * AutoTrader))
    (sortSlice :
       (option (gmap string value) -> option (gmap string value) -> bool) ->
       list (option (gmap string value)) -> list (option (gmap string value)))
    (tm : TraderManager) (now done : Time) :
  cache_ok tm ->
  exists competitionData rows tm' top,
    GetCompetitionData pick arrival range_traders sortSlice tm now done
      = (competitionData, tm') /\
    competitionData !! "traders" = Some (Rows rows) /\
    GetTopTradersData pick arrival range_traders sortSlice tm now done = (inl top, tm') /\
    top !! "traders" = Some (Rows (take 5 rows)) /\
    top !! "count" = Some (Count (Z.of_nat (5 `min` length rows))) /\
    cache_ok tm'.
Proof.
  intros Hok.
  assert (Hcomp : exists competitionData rows tm',
    GetCompetitionData pick arrival range_traders sortSlice tm now done
      = (competitionData, tm') /\
    competitionData !! "traders" = Some (Rows rows) /\ cache_ok tm').
  { unfold GetCompetitionData.
    destruct ((Since now (cache_timestamp (competitionCache tm)) <? dmul 30 Second)
              && (0 <? size (cache_data (competitionCache tm)))%nat) eqn:Hhit.
    - apply andb_true_iff in Hhit as [_ Hsize]. apply Nat.ltb_lt in Hsize.
      destruct Hok as [Hempty | [rows Hrows]].
      + rewrite Hempty, map_size_empty in Hsize. lia.
      + eexists _, rows, _. split; [reflexivity|]. split; [done|]. right. by exists rows.
    - eexists _, _, _. split; [reflexivity|]. split; [by rewrite lookup_insert_eq|].
      right. eexists. cbn. by rewrite lookup_insert_eq. }
  destruct Hcomp as (competitionData & rows & tm' & Hget & Hrows & Hok').
  unfold GetTopTradersData. rewrite Hget, Hrows.
  assert (Htop : (if (5 <? length rows)%nat then take 5 rows else rows) = take 5 rows).
  { destruct (Nat.ltb_spec 5 (length rows)); [done|]. symmetry. apply take_ge. lia. }
  rewrite Htop. eexists _, rows, _, _. split; [done|]. split; [done|].
  split; [reflexivity|]. split; [by rewrite lookup_insert_eq|]. split; [|done].
  rewrite lookup_insert_ne, lookup_singleton_eq by done. by rewrite length_take.
Qed.

Lemma foldl_insert_lookup (l : list (string * AutoTrader)) (acc : gmap string AutoTrader)
    (k : string) (v : AutoTrader) :
  NoDup l.*1 ->
  foldl (fun result it => <[it.1 := it.2]> result) acc l !! k = Some v <->
  (k, v) ∈ l \/ ((k ∉ l.*1) /\ acc !! k = Some v).
Proof.
  revert acc. induction l as [|[k' v'] l IH]; intros acc Hnd; cbn.
  - split; [intros H; right; split; [apply not_elem_of_nil | done]|].
    intros [H | [_ H]]; [by apply not_elem_of_nil in H | done].
  - cbn in Hnd. apply NoDup_cons in Hnd as [Hk' Hnd]. rewrite IH by done.
    rewrite elem_of_cons, not_elem_of_cons. split.
    + intros [Hin | [Hout Hacc]]; [by left; right|].
      destruct (decide (k = k')) as [->|Hne].
      * rewrite lookup_insert_eq in Hacc. injection Hacc as ->. left. by left.
      * rewrite lookup_insert_ne in Hacc by done. right. done.
    + intros [[Heq | Hin] | [[Hne Hout] Hacc]].
      * injection Heq as -> ->. right. split; [done|]. by rewrite lookup_insert_eq.
      * by left.
      * right. split; [done|]. by rewrite lookup_insert_ne.
Qed.

(** X16. The ids [GetTraderIDs] lists are the keys of the registry, each
    once; [GetTrader] finds a trader exactly for these ids and returns the
    registered one; [GetAllTraders] returns a map with the bindings of
    the registry. *)
Theorem GetTrader_GetTraderIDs
    (range_traders : gmap string AutoTrader -> list (string * AutoTrader))
    (tm : TraderManager) :
  (forall m, range_traders m ≡ₚ map_to_list m) ->
  NoDup (GetTraderIDs range_traders tm) /\
  length (GetTraderIDs range_traders tm) = size (traders tm) /\
  (forall id, id ∈ GetTraderIDs range_traders tm <-> exists t, GetTrader tm id = inl t) /\
  (forall id t, GetTrader tm id = inl t <-> traders tm !! id = Some t) /\
  GetAllTraders range_traders tm = traders tm.
Proof.
  intros Hrange. unfold GetTraderIDs, GetAllTraders.
  assert (Hget : forall id t, GetTrader tm id = inl t <-> traders tm !! id = Some t).
  { intros id t. unfold GetTrader. destruct (traders tm !! id); split; congruence. }
  assert (Hnd : NoDup (range_traders (traders tm)).*1).
  { rewrite (Hrange _). apply NoDup_fst_map_to_list. }
  split; [done|]. split.
  { rewrite length_fmap, (Permutation_length (Hrange _)). apply length_map_to_list. }
  split.
  { intros id. rewrite (Hrange _), list_elem_of_fmap. split.
    - intros ([k t] & -> & Hin). exists t. apply Hget. by apply elem_of_map_to_list.
    - intros [t Ht]. exists (id, t). split; [done|].
      apply elem_of_map_to_list. by apply Hget. }
  split; [done|].
  apply map_eq. intros k. apply option_eq. intros v.
  rewrite foldl_insert_lookup by done. rewrite (Hrange _), elem_of_map_to_list.
  split; [intros [H | [_ H]]; [done | by rewrite lookup_empty in H] | by left].
Qed.

Lemma GetCompetitionData_recomputes_witness :
  cache_data (competitionCache rankedManager) = ∅ /\
  exists comparison sorted,
    (GetCompetitionData (fun _ => true) reverse testRangeTraders testSort rankedManager 100 101).1
      = comparison /\
    comparison !! "traders" = Some (Rows (take 50 sorted)) /\
    comparison !! "count" = Some (Count 2) /\
    comparison !! "total_count" = Some (Count 2) /\
    forall rowI rowJ,
      sorted !! 0%nat = Some rowI -> sorted !! 1%nat = Some rowJ ->
      (pnlPct rowJ <=? pnlPct rowI)%float = true.
Proof.
  split; [reflexivity|].
  destruct (GetCompetitionData_recomputes (fun _ => true) reverse testRangeTraders testSort
              rankedManager 100 101)
    as (comparison & sorted & Hget & _ & _ & Hrows & Hc & Ht & Horder).
  - intros l. apply reverse_Permutation.
  - intros m. reflexivity.
  - intros less l. apply testSort_perm.
  - right. reflexivity.
  - exists comparison, sorted. rewrite Hget. split; [reflexivity|].
    split; [exact Hrows|]. split; [exact Hc|]. split; [exact Ht|].
    intros rowI rowJ Hi Hj.
    refine (proj2 (Horder _ _ 0%nat 1%nat rowI rowJ _ _ _ Hi Hj eq_refl eq_refl)).
    + intros less l Hirr Htrans _. by apply testSort_sorted.
    + intros id t latency account f Hid Hacc Hf.
      cbn [traders rankedManager] in Hid.
      apply lookup_insert_Some in Hid as [[_ <-] | [_ Hid]].
      * injection Hacc as _ <-. apply lookup_singleton_Some in Hf as [_ [= <-]].
        reflexivity.
      * apply lookup_singleton_Some in Hid as [_ <-].
        injection Hacc as _ <-. apply lookup_singleton_Some in Hf as [_ [= <-]].
        reflexivity.
    + lia.
Defined.

(** The leaderboard of two traders, by computation: the larger
    percentage first, whatever the order of arrival. *)
Example GetCompetitionData_ranks :
  match (GetCompetitionData (fun _ => true) reverse testRangeTraders testSort
           rankedManager 100 101).1 !! "traders" with
  | Some (Rows rows) =>
    (fun row => match row with
                | Some r => (r !! "trader_id", r !! "total_pnl_pct")
                | None => (None, None)
                end) <$> rows
  | _ => []
  end = [(Some (VString "t4"), Some (VFloat 12)); (Some (VString "t5"), Some (VFloat 5))].
Proof. vm_compute. reflexivity. Qed.

Lemma GetCompetitionData_cached_witness :
  Since 110 (cache_timestamp (competitionCache
     (GetCompetitionData (fun _ => true) reverse testRangeTraders testSort
        testManager 100 101).2)) < 30 * Second /\
  GetCompetitionData (fun _ => false) id testRangeTraders testSort
    {| traders := ∅;
       competitionCache :=
         competitionCache
           (GetCompetitionData (fun _ => true) reverse testRangeTraders testSort
              testManager 100 101).2 |} 110 111
  = ((GetCompetitionData (fun _ => true) reverse testRangeTraders testSort
        testManager 100 101).1,
     {| traders := ∅;
        competitionCache :=
          competitionCache
            (GetCompetitionData (fun _ => true) reverse testRangeTraders testSort
               testManager 100 101).2 |}).
Proof.
  split; [reflexivity|].
  apply (GetCompetitionData_cached (fun _ => true) (fun _ => false) reverse id
           testRangeTraders testRangeTraders testSort testSort testManager _ 100 101).
  - apply surjective_pairing.
  - reflexivity.
Defined.

Lemma GetTopTradersData_top5_witness :
  cache_ok testManager /\
  exists top tm',
    GetTopTradersData (fun _ => true) reverse testRangeTraders testSort testManager 100 101
      = (inl top, tm') /\
    cache_ok tm'.
Proof.
  split; [by left|].
  destruct (GetTopTradersData_top5 (fun _ => true) reverse testRangeTraders testSort
              testManager 100 101) as (c & rows & tm' & top & _ & _ & Hget & _ & _ & Hok').
  - by left.
  - exists top, tm'. split; [exact Hget | exact Hok'].
Defined.

Lemma GetTrader_GetTraderIDs_witness :
  NoDup (GetTraderIDs testRangeTraders testManager) /\
  length (GetTraderIDs testRangeTraders testManager) = size (traders testManager).
Proof.
  destruct (GetTrader_GetTraderIDs testRangeTraders testManager) as (H1 & H2 & _).
  - intros m. reflexivity.
  - split; [exact H1 | exact H2].
Defined.





End Manager.

(** ** Package [market]: the kline cache and the combined-streams client *)

Module Market.
Import Go.

Definition float64 : Type := PrimFloat.float.

(** [Kline] and the payload of a kline frame ([KlineWSData]), with the
    fields [processKlineUpdate] reads and writes. *)
Record Kline : Type := {
  OpenTime : Z;
  Open : float64;
  High : float64;
  Low : float64;
  Close : float64;
  Volume : float64;
  CloseTime : Z;
  QuoteVolume : float64;
  Trades : Z;
  TakerBuyBaseVolume : float64;
  TakerBuyQuoteVolume : float64
}.

Record KlineWSData : Type := {
  StartTime : Z;
  WSCloseTime : Z;
  NumberOfTrades : Z;
  OpenPrice : string;
  HighPrice : string;
  LowPrice : string;
  ClosePrice : string;
  WSVolume : string;
  WSQuoteVolume : string;
  WSTakerBuyBaseVolume : string;
  WSTakerBuyQuoteVolume : string
}.

Definition zeroKline : Kline :=
  {| OpenTime := 0; Open := 0%float; High := 0%float; Low := 0%float;
     Close := 0%float; Volume := 0%float; CloseTime := 0;
     QuoteVolume := 0%float; Trades := 0;
     TakerBuyBaseVolume := 0%float; TakerBuyQuoteVolume := 0%float |}.

(** *** Slices of klines

    The heap holds the backing arrays, addressed by their position; an
    array never changes its length. A slice is a window [off, off+len)
    into one array, and its capacity runs to the end of that array. Two
    slices with the same [arr] share storage. *)
Abbreviation heap := (list (list Kline)).

Record slice : Type := {
  arr : nat;
  off : nat;
  len : nat
}.

Definition array (h : heap) (a : nat) : list Kline := default [] (h !! a).

Definition capacity (h : heap) (s : slice) : nat :=
  (length (array h (arr s)) - off s)%nat.

(** The elements a slice denotes. *)
Definition contents (h : heap) (s : slice) : list Kline :=
  take (len s) (drop (off s) (array h (arr s))).

(** [s[i]] *)
Definition get (h : heap) (s : slice) (i : nat) : option Kline :=
  array h (arr s) !! (off s + i)%nat.

(** [s[i] = k] *)
Definition set_index (h : heap) (s : slice) (i : nat) (k : Kline) : heap :=
  <[arr s := <[(off s + i)%nat := k]> (array h (arr s))]> h.

Definition alloc (h : heap) (A : list Kline) : heap * nat :=
  (h ++ [A], length h).

(** [make([]Kline, n)] *)
Definition make (h : heap) (n : nat) : heap * slice :=
  let '(h', a) := alloc h (replicate n zeroKline) in
  (h', {| arr := a; off := 0; len := n |}).

(** [copy(dst, src)]: the first [min(len(dst), len(src))] elements. *)
Definition copy (h : heap) (dst src : slice) : heap :=
  let n := (len dst `min` len src)%nat in
  let A := array h (arr dst) in
  <[arr dst := take (off dst) A ++ take n (contents h src) ++ drop (off dst + n) A]> h.

(** [s[1:]] *)
Definition reslice1 (s : slice) : slice :=
  {| arr := arr s; off := S (off s); len := (len s - 1)%nat |}.

(** [result := make([]Kline, len(klines)); copy(result, klines)] *)
Definition clone (h : heap) (klines : slice) : heap * slice :=
  let '(h1, result) := make h (len klines) in
  (copy h1 result klines, result).

(** A slice is well formed in a heap when its window lies within an
    allocated array. *)
Definition wf_slice (h : heap) (s : slice) : Prop :=
  (arr s < length h)%nat /\ (off s + len s <= length (array h (arr s)))%nat.

(** *** The cache and the stream client *)

(** [KlineCacheEntry]. An entry is never modified after it is stored (a
    new one is stored instead), so the pointer is modelled by the value;
    the array behind [Klines] is shared and is modified. *)
Record KlineCacheEntry : Type := {
  Klines : slice;
  ReceivedAt : Time
}.

(** A buffered channel of raw messages: the queued messages, oldest
    first, and the buffer size given to [make]. A consumer parked in
    [range ch] on an empty channel is the empty queue: handing a message
    to it is an enqueue followed at once by its dequeue. (The package only
    makes buffered channels, of size 100.) *)
Record chan : Type := {
  chan_buf : list string;
  chan_cap : nat
}.

Record CombinedStreamsClient : Type := {
  conn : option nat;
  subscribers : gmap string chan;
  reconnect : bool;
  batchSize : Z;
  onReconnectSubscribeFunc : bool
}.

Record WSMonitor : Type := {
  combinedClient : CombinedStreamsClient;
  klineDataMap3m : gmap string KlineCacheEntry;
  klineDataMap4h : gmap string KlineCacheEntry;
  mem : heap
}.

(** What the package does to the outside world. *)
Inductive event : Type :=
| GetKlines (symbol interval : string) (limit : Z)
| WriteJSON (method : string) (params : list string) (id : Z)
| GoHandleKlineData (symbol stream interval : string)
| OnReconnectSubscribe (streams : list string)
| Dial
| GoReadMessages
| GoHandleReconnect
| SleepFor (d : Duration)
| LogChannelFull (stream : string)
| LogParseFailed.

Definition is_GetKlines (e : event) : bool :=
  match e with GetKlines _ _ _ => true | _ => false end.

Definition pulls (tr : list event) : nat :=
  length (filter (fun e => is_GetKlines e = true) tr).

(** The [params] of the subscribe frames written, and the arguments the
    reconnect hook was called with, oldest first. *)
Definition subscribe_calls (tr : list event) : list (list string) :=
  omap (fun e => match e with
                 | WriteJSON "SUBSCRIBE" params _ => Some params
                 | _ => None
                 end) tr.

(** The pauses made, oldest first. *)
Definition sleeps (tr : list event) : list Duration :=
  omap (fun e => match e with
                 | SleepFor d => Some d
                 | _ => None
                 end) tr.

Definition hook_calls (tr : list event) : list (list string) :=
  omap (fun e => match e with
                 | OnReconnectSubscribe streams => Some streams
                 | _ => None
                 end) tr.

(** [getKlineDataMap] returns a pointer to one of the two maps of the
    monitor, or to a map made on the spot that nobody else ever sees. *)
Inductive mapRef : Type := Map3m | Map4h | FreshMap.

#[global] Instance mapRef_eq_dec : EqDecision mapRef.
Proof. solve_decision. Defined.

Definition getKlineDataMap (_time : string) : mapRef :=
  if String.eqb _time "3m" then Map3m
  else if String.eqb _time "4h" then Map4h
  else FreshMap.

Definition Load (m : WSMonitor) (ref : mapRef) (key : string) : option KlineCacheEntry :=
  match ref with
  | Map3m => klineDataMap3m m !! key
  | Map4h => klineDataMap4h m !! key
  | FreshMap => None
  end.

Definition Store (m : WSMonitor) (ref : mapRef) (key : string) (entry : KlineCacheEntry)
  : WSMonitor :=
  match ref with
  | Map3m =>
    {| combinedClient := combinedClient m;
       klineDataMap3m := <[key := entry]> (klineDataMap3m m);
       klineDataMap4h := klineDataMap4h m; mem := mem m |}
  | Map4h =>
    {| combinedClient := combinedClient m;
       klineDataMap3m := klineDataMap3m m;
       klineDataMap4h := <[key := entry]> (klineDataMap4h m); mem := mem m |}
  | FreshMap => m
  end.

Definition with_mem (m : WSMonitor) (h : heap) : WSMonitor :=
  {| combinedClient := combinedClient m; klineDataMap3m := klineDataMap3m m;
     klineDataMap4h := klineDataMap4h m; mem := h |}.

Definition with_client (m : WSMonitor) (c : CombinedStreamsClient) : WSMonitor :=
  {| combinedClient := c; klineDataMap3m := klineDataMap3m m;
     klineDataMap4h := klineDataMap4h m; mem := mem m |}.

Definition with_subscribers (c : CombinedStreamsClient) (subs : gmap string chan)
  : CombinedStreamsClient :=
  {| conn := conn c; subscribers := subs; reconnect := reconnect c;
     batchSize := batchSize c; onReconnectSubscribeFunc := onReconnectSubscribeFunc c |}.

Definition with_conn (c : CombinedStreamsClient) (k : option nat)
  : CombinedStreamsClient :=
  {| conn := k; subscribers := subscribers c; reconnect := reconnect c;
     batchSize := batchSize c; onReconnectSubscribeFunc := onReconnectSubscribeFunc c |}.

(** [AddSubscriber]: a new, empty channel takes the place of whatever
    was registered for the stream. *)
Definition AddSubscriber (c : CombinedStreamsClient) (stream : string) (bufferSize : nat)
  : CombinedStreamsClient :=
  with_subscribers c (<[stream := {| chan_buf := []; chan_cap := bufferSize |}]> (subscribers c)).

(** The cached state as a reader sees it: for every key the candles and
    the time of receipt. *)
Definition view_entry (h : heap) (e : KlineCacheEntry) : list Kline * Time :=
  (contents h (Klines e), ReceivedAt e).

Definition cache_view (m : WSMonitor)
  : gmap string (list Kline * Time) * gmap string (list Kline * Time) :=
  (view_entry (mem m) <$> klineDataMap3m m, view_entry (mem m) <$> klineDataMap4h m).

(** Every cached slice is well formed. *)
Definition wf (m : WSMonitor) : Prop :=
  forall ref key e, Load m ref key = Some e -> wf_slice (mem m) (Klines e).

(** [15 * time.Minute] *)
Definition maxAge : Duration := dmul 15 Minute.

(** [h'] keeps every array of [h] at its address and length (it may have
    changed elements and allocated more arrays). *)
Definition heap_extends (h h' : heap) : Prop :=
  (length h <= length h')%nat /\
  forall a, (a < length h)%nat -> length (array h' a) = length (array h a).

Section Environment.

(** The REST client: [GetKlines now symbol interval limit] is what
    [apiClient.GetKlines(symbol, interval, limit)] answers at instant
    [now], the candles together with the spare capacity of the slice
    that holds them. *)
Variable apiGetKlines : Time -> string -> string -> Z -> (list Kline * nat) + error.

(** The outcome of [conn.WriteJSON] for a subscribe frame. *)
Variable wsWriteJSON : list string -> option error.

(** The spare capacity the runtime adds when [append] has to move a
    slice to a new array (given the new length). *)
Variable growth : nat -> nat.

(** [%.1f] of [dataAge.Minutes()]. *)
Variable fmtMinutes : Duration -> string.

(** [parseFloat] of package [market]. *)
Variable parseFloat : string -> float64.

(** [append(s, k)] *)
Definition append (h : heap) (s : slice) (k : Kline) : heap * slice :=
  if (len s <? capacity h s)%nat then
    (set_index h s (len s) k, {| arr := arr s; off := off s; len := S (len s) |})
  else
    let '(h', a) :=
      alloc h (contents h s ++ [k] ++ replicate (growth (S (len s))) zeroKline) in
    (h', {| arr := a; off := 0; len := S (len s) |}).

(** [subscribeSymbol]: registers a consumer channel of size 100 for the
    stream, starts the goroutine that feeds the cache from it, and
    returns the stream name. *)
Definition subscribeSymbol (m : WSMonitor) (symbol st : string)
  : list string * WSMonitor * list event :=
  let stream := ToLower symbol +:+ "@kline_" +:+ st in
  let c := AddSubscriber (combinedClient m) stream 100 in
  ([stream], with_client m c, [GoHandleKlineData symbol stream st]).

(** [subscribeStreams]: one SUBSCRIBE frame naming all the streams, or
    an error when there is no connection. *)
Definition subscribeStreams (c : CombinedStreamsClient) (streams : list string) (now : Time)
  : option error * list event :=
  match conn c with
  | None => (Some (errorString "WebSocket未连接"), [])
  | Some _ => (wsWriteJSON streams, [WriteJSON "SUBSCRIBE" streams now])
  end.

Definition staleError (symbol duration : string) (dataAge : Duration) : error :=
  errorString (symbol +:+ " 的 " +:+ duration +:+ " K线数据已过期 (" +:+
               fmtMinutes dataAge +:+ " 分钟)，WebSocket 可能未正常工作").

Definition pullError (duration : string) (err : error) : error :=
  errorString ("获取" +:+ duration +:+ "分钟K线失败: " +:+ Error err).

Definition GetCurrentKlines (m : WSMonitor) (symbol duration : string) (now : Time)
  : (slice + error) * WSMonitor * list event :=
  match Load m (getKlineDataMap duration) symbol with
  | None =>
    match apiGetKlines now symbol duration 100 with
    | inr err => (inr (pullError duration err), m, [GetKlines symbol duration 100])
    | inl (pulled, spare) =>
      let '(h1, a) := alloc (mem m) (pulled ++ replicate spare zeroKline) in
      let klines := {| arr := a; off := 0; len := length pulled |} in
      let entry := {| Klines := klines; ReceivedAt := now |} in
      let m1 := Store (with_mem m h1) (getKlineDataMap duration) (ToUpper symbol) entry in
      let '(subStr, m2, ev1) := subscribeSymbol m1 symbol duration in
      let '(subErr, ev2) := subscribeStreams (combinedClient m2) subStr now in
      let '(h2, result) := clone (mem m2) klines in
      (inl result, with_mem m2 h2, GetKlines symbol duration 100 :: ev1 ++ ev2)
    end
  | Some entry =>
    let dataAge := Since now (ReceivedAt entry) in
    if maxAge <? dataAge then
      (inr (staleError symbol duration dataAge), m, [])
    else
      let klines := Klines entry in
      let '(h1, result) := clone (mem m) klines in
      (inl result, with_mem m h1, [])
  end.

Definition toKline (wsData : KlineWSData) : Kline :=
  {| OpenTime := StartTime wsData;
     Open := parseFloat (OpenPrice wsData);
     High := parseFloat (HighPrice wsData);
     Low := parseFloat (LowPrice wsData);
     Close := parseFloat (ClosePrice wsData);
     Volume := parseFloat (WSVolume wsData);
     CloseTime := WSCloseTime wsData;
     QuoteVolume := parseFloat (WSQuoteVolume wsData);
     Trades := NumberOfTrades wsData;
     TakerBuyBaseVolume := parseFloat (WSTakerBuyBaseVolume wsData);
     TakerBuyQuoteVolume := parseFloat (WSTakerBuyQuoteVolume wsData) |}.

(** Is [kline] the bar that [klines] ends with
    ([len(klines) > 0 && klines[len(klines)-1].OpenTime == kline.OpenTime])? *)
Definition same_bar (h : heap) (klines : slice) (kline : Kline) : bool :=
  (0 <? len klines)%nat &&
  match get h klines (len klines - 1) with
  | Some lastBar => OpenTime lastBar =? OpenTime kline
  | None => false
  end.

Definition processKlineUpdate (m : WSMonitor) (symbol : string) (wsData : KlineWSData)
    (_time : string) (now : Time) : WSMonitor :=
  let kline := toKline wsData in
  let klineDataMap := getKlineDataMap _time in
  let '(h', klines') :=
    match Load m klineDataMap symbol with
    | Some entry =>
      let klines := Klines entry in
      if same_bar (mem m) klines kline then
        (set_index (mem m) klines (len klines - 1) kline, klines)
      else
        let '(h1, klines1) := append (mem m) klines kline in
        if (100 <? len klines1)%nat then (h1, reslice1 klines1) else (h1, klines1)
    | None =>
      let '(h1, a) := alloc (mem m) [kline] in
      (h1, {| arr := a; off := 0; len := 1 |})
    end in
  Store (with_mem m h') klineDataMap symbol {| Klines := klines'; ReceivedAt := now |}.

(** The candle sequence after a tick, in the words of the
    specification: a bar with the open time of the last stored bar takes
    its place; any other bar is appended, and the oldest bar is dropped
    when that makes more than 100. *)
Definition updated_bars (old : list Kline) (kline : Kline) : list Kline :=
  let pushed :=
    let l := old ++ [kline] in
    if (100 <? length l)%nat then drop 1 l else l in
  match last old with
  | Some lastBar =>
    if OpenTime lastBar =? OpenTime kline
    then <[(length old - 1)%nat := kline]> old
    else pushed
  | None => pushed
  end.

(** *** The cache seen through [cache_view]

    [GetCurrentKlines] on candle sequences instead of slices: what a
    caller can observe of a call, as a function of what it could observe
    of the cache before. [GetCurrentKlines_view] below shows that the
    heap-level function computes exactly this whatever the layout of the
    heap, which is what makes the returned slice a copy. *)
Abbreviation view := (gmap string (list Kline * Time) * gmap string (list Kline * Time))%type.

Definition view_Load (v : view) (ref : mapRef) (key : string) : option (list Kline * Time) :=
  match ref with
  | Map3m => v.1 !! key
  | Map4h => v.2 !! key
  | FreshMap => None
  end.

Definition view_Store (v : view) (ref : mapRef) (key : string) (x : list Kline * Time) : view :=
  match ref with
  | Map3m => (<[key := x]> v.1, v.2)
  | Map4h => (v.1, <[key := x]> v.2)
  | FreshMap => v
  end.

Definition observation : Type := (list Kline + error) * CombinedStreamsClient * view * list event.

Definition observe (res : (slice + error) * WSMonitor * list event) : observation :=
  let '(r, m, ev) := res in
  (match r with
   | inl s => inl (contents (mem m) s)
   | inr err => inr err
   end, combinedClient m, cache_view m, ev).

Definition GetCurrentKlines_on_view (c : CombinedStreamsClient) (v : view)
    (symbol duration : string) (now : Time) : observation :=
  match view_Load v (getKlineDataMap duration) symbol with
  | None =>
    match apiGetKlines now symbol duration 100 with
    | inr err => (inr (pullError duration err), c, v, [GetKlines symbol duration 100])
    | inl (pulled, _) =>
      let stream := ToLower symbol +:+ "@kline_" +:+ duration in
      let c' := AddSubscriber c stream 100 in
      (inl pulled, c',
       view_Store v (getKlineDataMap duration) (ToUpper symbol) (pulled, now),
       GetKlines symbol duration 100 :: [GoHandleKlineData symbol stream duration]
         ++ (subscribeStreams c' [stream] now).2)
    end
  | Some (bars, receivedAt) =>
    if maxAge <? Since now receivedAt then
      (inr (staleError symbol duration (Since now receivedAt)), c, v, [])
    else (inl bars, c, v, [])
  end.

(** What the holder of a slice over array [a] can do to the heap: write
    into that array and allocate; every other array stays as it is. *)
Definition caller_writes (a : nat) (h h' : heap) : Prop :=
  (length h <= length h')%nat /\
  forall b, (b < length h)%nat -> b <> a -> array h' b = array h b.

(** *** The cap as an invariant of the cache *)

(** Every cached sequence has at most 100 bars. *)
Definition bounded (m : WSMonitor) : Prop :=
  forall ref key e, Load m ref key = Some e -> (len (Klines e) <= 100)%nat.

(** [cache.Store(s, &KlineCacheEntry{Klines: klines, ReceivedAt:
    time.Now()})] for candles just pulled, when there are any. *)
Definition storePulled (m : WSMonitor) (ref : mapRef) (s : string)
    (pulled : list Kline) (spare : nat) (now : Time) : WSMonitor :=
  if (0 <? length pulled)%nat then
    let '(h1, a) := alloc (mem m) (pulled ++ replicate spare zeroKline) in
    Store (with_mem m h1) ref s
      {| Klines := {| arr := a; off := 0; len := length pulled |}; ReceivedAt := now |}
  else m.

(** The body of the goroutine that [initializeHistoricalData] starts for
    one symbol: pull and store the 3m candles, then the 4h candles; a
    failed pull ends it. *)
Definition seedHistorical (m : WSMonitor) (s : string) (now : Time) : WSMonitor :=
  match apiGetKlines now s "3m" 100 with
  | inr _ => m
  | inl (klines, spare) =>
    let m1 := storePulled m Map3m s klines spare now in
    match apiGetKlines now s "4h" 100 with
    | inr _ => m1
    | inl (klines4h, spare4h) => storePulled m1 Map4h s klines4h spare4h now
    end
  end.

(** The operations that write the cache maps: the initial seeding of a
    symbol, a tick delivered by a consumer goroutine, and a read. *)
Inductive op : Type :=
| Seed (symbol : string) (now : Time)
| Tick (symbol : string) (wsData : KlineWSData) (_time : string) (now : Time)
| Read (symbol duration : string) (now : Time).

Definition apply_op (m : WSMonitor) (o : op) : WSMonitor :=
  match o with
  | Seed symbol now => seedHistorical m symbol now
  | Tick symbol wsData _time now => processKlineUpdate m symbol wsData _time now
  | Read symbol duration now => (GetCurrentKlines m symbol duration now).1.2
  end.

Definition apply_ops (m : WSMonitor) (ops : list op) : WSMonitor :=
  foldl apply_op m ops.

(** The ticks the consumer goroutines apply one after the other: symbol,
    payload, interval and the instant of each. *)
Definition processKlineUpdates (m : WSMonitor)
    (updates : list (string * KlineWSData * string * Time)) : WSMonitor :=
  foldl (fun m u => processKlineUpdate m u.1.1.1 u.1.1.2 u.1.2 u.2) m updates.

(** *** The combined-streams client *)

(** [json.Unmarshal] of a frame into its [stream] and [data] members. *)
Variable unmarshal : string -> option (string * string).

(** The order in which [range c.subscribers] visits the streams. *)
Variable range_streams : gmap string chan -> list string.

Hypothesis range_streams_perm :
  forall subs, range_streams subs ≡ₚ (map_to_list subs).*1.

(** [Connect], given what the dial comes back with. *)
Definition Connect (c : CombinedStreamsClient) (dialed : nat + error)
  : option error * CombinedStreamsClient * list event :=
  match dialed with
  | inr err =>
    (Some (errorString ("组合流WebSocket连接失败: " +:+ Error err)), c, [Dial])
  | inl k => (None, with_conn c (Some k), [Dial; GoReadMessages])
  end.

(** [handleReconnect]. [dials] are the outcomes of the successive dials;
    the retry that the source starts with [go c.handleReconnect()] is the
    recursive call. [None]: the next dial has not answered yet. *)
Fixpoint handleReconnect (dials : list (nat + error)) (c : CombinedStreamsClient)
    (now : Time) : option (CombinedStreamsClient * list event) :=
  if negb (reconnect c) then Some (c, [])
  else
    match dials with
    | [] => None
    | dialed :: dials' =>
      match Connect c dialed with
      | (Some _, c1, ev) =>
        match handleReconnect dials' c1 now with
        | Some (c2, ev2) =>
          Some (c2, SleepFor (dmul 3 Second) :: ev ++ GoHandleReconnect :: ev2)
        | None => None
        end
      | (None, c1, ev) =>
        let streams := range_streams (subscribers c1) in
        if (0 <? length streams)%nat then
          let hook :=
            if onReconnectSubscribeFunc c1 then [OnReconnectSubscribe streams] else [] in
          let '(_, ev3) := subscribeStreams c1 streams now in
          Some (c1, SleepFor (dmul 3 Second) :: ev ++ hook ++ ev3)
        else Some (c1, SleepFor (dmul 3 Second) :: ev)
      end
    end.

(** [select { case ch <- data: default: }] *)
Definition trySend (ch : chan) (data : string) : option chan :=
  if (length (chan_buf ch) <? chan_cap ch)%nat
  then Some {| chan_buf := chan_buf ch ++ [data]; chan_cap := chan_cap ch |}
  else None.

Definition handleCombinedMessage (c : CombinedStreamsClient) (message : string)
  : CombinedStreamsClient * list event :=
  match unmarshal message with
  | None => (c, [LogParseFailed])
  | Some (stream, data) =>
    match subscribers c !! stream with
    | Some ch =>
      match trySend ch data with
      | Some ch' => (with_subscribers c (<[stream := ch']> (subscribers c)), [])
      | None => (c, [LogChannelFull stream])
      end
    | None => (c, [])
    end
  end.

(** A consumer's [<-ch]: the oldest queued message, if there is one. *)
Definition recv (ch : chan) : option (string * chan) :=
  match chan_buf ch with
  | [] => None
  | data :: rest => Some (data, {| chan_buf := rest; chan_cap := chan_cap ch |})
  end.

(** The read loop and the consumers taking turns: a frame arrives, or the
    consumer of a stream receives (when its channel is empty it stays
    blocked and the step does nothing). [run] returns what the consumers
    received, in order. Each consumer reads the channel the registry
    holds for its stream, which is the channel it was given as long as
    the stream is neither registered again nor closed during the run. *)
Inductive step : Type :=
| Incoming (message : string)
| Receive (stream : string).

Fixpoint run (steps : list step) (c : CombinedStreamsClient)
  : CombinedStreamsClient * list (string * string) :=
  match steps with
  | [] => (c, [])
  | Incoming message :: rest => run rest (handleCombinedMessage c message).1
  | Receive stream :: rest =>
    match subscribers c !! stream with
    | Some ch =>
      match recv ch with
      | Some (data, ch') =>
        let '(c', got) := run rest (with_subscribers c (<[stream := ch']> (subscribers c))) in
        (c', (stream, data) :: got)
      | None => run rest c
      end
    | None => run rest c
    end
  end.

(** What a reconnect that succeeds does about subscriptions: the frames
    it wrote ([subscribed]) and the hook calls it made ([hooked]). *)
Definition resubscribed (c : CombinedStreamsClient)
    (subscribed hooked : list (list string)) : Prop :=
  if decide (subscribers c = ∅) then
    subscribed = [] /\ hooked = []
  else
    exists streams,
      subscribed = [streams] /\
      hooked = (if onReconnectSubscribeFunc c then [streams] else []) /\
      streams ≡ₚ (map_to_list (subscribers c)).*1 /\
      NoDup streams /\
      length streams = size (subscribers c) /\
      forall stream, stream ∈ streams <-> is_Some (subscribers c !! stream).

(** *** Batched subscription *)

(** [splitIntoBatches]. [symbols[i:end]] panics when [end < i]; the loop
    does not end when [batchSize] is 0. [None] stands for both. *)
Fixpoint splitLoop (fuel : nat) (symbols : list string) (batchSize i : Z)
  : option (list (list string)) :=
  if i <? Z.of_nat (length symbols) then
    match fuel with
    | O => None
    | S fuel' =>
      let stop := wrap64 (i + batchSize) in
      let stop := if Z.of_nat (length symbols) <? stop
                  then Z.of_nat (length symbols) else stop in
      if (stop <? i) || (i <? 0) then None
      else
        match splitLoop fuel' symbols batchSize (wrap64 (i + batchSize)) with
        | Some rest =>
          Some (take (Z.to_nat (stop - i)) (drop (Z.to_nat i) symbols) :: rest)
        | None => None
        end
    end
  else Some [].

Definition splitIntoBatches (symbols : list string) (batchSize : Z)
  : option (list (list string)) :=
  splitLoop (length symbols) symbols batchSize 0.

Definition streamName (interval symbol : string) : string :=
  ToLower symbol +:+ "@kline_" +:+ interval.

(** The loop of [BatchSubscribeKlines] over the batches, [i] counting
    from 0: one [subscribeStreams] per batch, a pause of 100 ms after every
    batch but the last, and the first failure ends it. *)
Fixpoint subscribeBatches (c : CombinedStreamsClient) (interval : string)
    (i : Z) (batches : list (list string)) (now : Time) : option error * list event :=
  match batches with
  | [] => (None, [])
  | batch :: rest =>
    let streams := streamName interval <$> batch in
    match subscribeStreams c streams now with
    | (Some err, ev) =>
      (Some (errorString ("第 " +:+ pretty (i + 1) +:+ " 批订阅失败: " +:+ Error err)), ev)
    | (None, ev) =>
      let pause := match rest with
                   | [] => []
                   | _ :: _ => [SleepFor (dmul 100 Millisecond)]
                   end in
      let '(res, ev') := subscribeBatches c interval (i + 1) rest now in
      (res, ev ++ pause ++ ev')
    end
  end.

Definition BatchSubscribeKlines (c : CombinedStreamsClient) (symbols : list string)
    (interval : string) (now : Time) : option (option error * list event) :=
  match splitIntoBatches symbols (batchSize c) with
  | Some batches => Some (subscribeBatches c interval 0 batches now)
  | None => None
  end.

(** *** Registration, shutdown and the consumer loop *)

(** [subKlineTime] *)
Definition subKlineTime : list string := ["3m"; "4h"].

(** The first loop of [subscribeAll]: [subscribeSymbol] for every symbol
    and every interval of [subKlineTime]. *)
Definition registerIntervals (acc : WSMonitor * list event) (symbol : string)
  : WSMonitor * list event :=
  foldl (fun acc st =>
           let '(_, m', ev') := subscribeSymbol acc.1 symbol st in (m', acc.2 ++ ev'))
        acc subKlineTime.

Definition registerAll (m : WSMonitor) (symbols : list string) : WSMonitor * list event :=
  foldl registerIntervals (m, []) symbols.

(** The second loop: one [BatchSubscribeKlines] per interval, ended by
    the first error. *)
Fixpoint subscribeIntervals (c : CombinedStreamsClient) (symbols intervals : list string)
    (now : Time) : option (option error * list event) :=
  match intervals with
  | [] => Some (None, [])
  | st :: rest =>
    match BatchSubscribeKlines c symbols st now with
    | None => None
    | Some (Some err, ev) => Some (Some err, ev)
    | Some (None, ev) =>
      match subscribeIntervals c symbols rest now with
      | Some (res, ev') => Some (res, ev ++ ev')
      | None => None
      end
    end
  end.

(** [subscribeAll]; [symbols] is the field [m.symbols]. *)
Definition subscribeAll (m : WSMonitor) (symbols : list string) (now : Time)
  : option (option error * WSMonitor * list event) :=
  let '(m1, ev1) := registerAll m symbols in
  match subscribeIntervals (combinedClient m1) symbols subKlineTime now with
  | Some (res, ev2) => Some (res, m1, ev1 ++ ev2)
  | None => None
  end.

(** The streams [subscribeAll] deals with. *)
Definition allStreams (symbols : list string) : list string :=
  (streamName "3m" <$> symbols) ++ (streamName "4h" <$> symbols).

(** The goroutines started, oldest first. *)
Definition consumers_started (tr : list event) : list (string * string * string) :=
  omap (fun e => match e with
                 | GoHandleKlineData symbol stream interval => Some (symbol, stream, interval)
                 | _ => None
                 end) tr.

(** [Close] of [CombinedStreamsClient]. [doneClosed] tells whether [c.done] is
    closed already, in which case closing it again panics ([None]).
    Besides the client the result names the connection that was closed
    and the channels that were closed, each under its stream and with
    what is queued on it, in the order of the [range]. Closing a channel
    does not discard its queue: the consumer that ranges over the channel
    still receives what is queued, and then its loop ends. *)
Definition CombinedStreamsClient_Close (c : CombinedStreamsClient) (doneClosed : bool)
  : option (CombinedStreamsClient * option nat * list (string * chan)) :=
  if doneClosed then None
  else
    Some ({| conn := None; subscribers := ∅; reconnect := false;
             batchSize := batchSize c;
             onReconnectSubscribeFunc := onReconnectSubscribeFunc c |},
          conn c,
          omap (fun stream => (fun ch => (stream, ch)) <$> subscribers c !! stream)
               (range_streams (subscribers c))).

(** [json.Unmarshal] of a payload into a [KlineWSData]. *)
Variable unmarshalKline : string -> option KlineWSData.

(** [handleKlineData]: [received] are the payloads the goroutine takes
    from its channel until the channel is closed, each with the instant
    at which it is processed. *)
Definition handleKlineData (m : WSMonitor) (symbol : string)
    (received : list (string * Time)) (_time : string) : WSMonitor :=
  foldl (fun m it =>
           match unmarshalKline it.1 with
           | None => m
           | Some klineData => processKlineUpdate m symbol klineData _time it.2
           end)
        m received.

(** The ticks among the payloads. *)
Definition ticks (symbol : string) (received : list (string * Time)) (_time : string)
  : list op :=
  omap (fun it => (fun klineData => Tick symbol klineData _time it.2) <$> unmarshalKline it.1)
       received.

(** The payloads that arrive for a stream, and those its consumer
    receives, oldest first. *)
Definition incoming_for (stream : string) (steps : list step) : list string :=
  omap (fun st => match st with
                  | Incoming message =>
                    match unmarshal message with
                    | Some (s, data) => if String.eqb s stream then Some data else None
                    | None => None
                    end
                  | Receive _ => None
                  end) steps.

Definition received_on (stream : string) (got : list (string * string)) : list string :=
  omap (fun it => if String.eqb it.1 stream then Some it.2 else None) got.

(** The part of a trace that concerns the connection. *)
Definition is_connection_event (e : event) : bool :=
  match e with
  | Dial | GoReadMessages | GoHandleReconnect | SleepFor _ => true
  | _ => false
  end.

Definition connection_events (tr : list event) : list event :=
  filter (fun e => is_connection_event e = true) tr.

(** A reconnect after [n] failed dials: a pause of 3 s before every
    dial, a retry started after each failure, and the read loop started
    after the dial that succeeds. *)
Definition backoff (n : nat) : list event :=
  concat (replicate n [SleepFor (3 * Second); Dial; GoHandleReconnect])
  ++ [SleepFor (3 * Second); Dial; GoReadMessages].

(** *** Facts about arrays and slices *)

Lemma array_alloc_old (h : heap) (A : list Kline) (a : nat) :
  (a < length h)%nat -> array (h ++ [A]) a = array h a.
Proof. intros Ha. unfold array. by rewrite lookup_app_l. Qed.

Lemma array_alloc_new (h : heap) (A : list Kline) : array (h ++ [A]) (length h) = A.
Proof.
  unfold array. rewrite lookup_app_r by lia. by rewrite Nat.sub_diag.
Qed.

Lemma array_insert_eq (h : heap) (A : list Kline) (a : nat) :
  (a < length h)%nat -> array (<[a := A]> h) a = A.
Proof. intros Ha. unfold array. by rewrite list_lookup_insert_eq. Qed.

Lemma array_insert_ne (h : heap) (A : list Kline) (a b : nat) :
  a <> b -> array (<[a := A]> h) b = array h b.
Proof. intros Hab. unfold array. by rewrite list_lookup_insert_ne. Qed.

Lemma contents_lookup (h : heap) (s : slice) (i : nat) :
  contents h s !! i =
  if decide (i < len s)%nat then array h (arr s) !! (off s + i)%nat else None.
Proof.
  unfold contents. case_decide.
  - by rewrite lookup_take_lt, lookup_drop.
  - apply lookup_take_ge. lia.
Qed.

Lemma contents_length (h : heap) (s : slice) :
  wf_slice h s -> length (contents h s) = len s.
Proof.
  intros [_ Hs]. unfold contents. rewrite length_take, length_drop. lia.
Qed.

(** The elements of a slice only depend on its own array. *)
Lemma contents_ext (h h' : heap) (s : slice) :
  array h' (arr s) = array h (arr s) -> contents h' s = contents h s.
Proof. intros Heq. unfold contents. by rewrite Heq. Qed.

Lemma get_contents (h : heap) (s : slice) (i : nat) :
  (i < len s)%nat -> get h s i = contents h s !! i.
Proof. intros Hi. rewrite contents_lookup. by case_decide. Qed.

Lemma heap_extends_refl (h : heap) : heap_extends h h.
Proof. split; [lia | done]. Qed.

Lemma heap_extends_trans (h1 h2 h3 : heap) :
  heap_extends h1 h2 -> heap_extends h2 h3 -> heap_extends h1 h3.
Proof.
  intros [L12 A12] [L23 A23]. split; [lia|].
  intros a Ha. rewrite A23 by lia. by apply A12.
Qed.

Lemma wf_slice_extends (h h' : heap) (s : slice) :
  heap_extends h h' -> wf_slice h s -> wf_slice h' s.
Proof.
  intros [Hl Ha] [Hs1 Hs2]. split; [lia|]. rewrite Ha by done. done.
Qed.

Lemma heap_extends_alloc (h : heap) (A : list Kline) : heap_extends h (h ++ [A]).
Proof.
  split.
  - rewrite length_app. simpl. lia.
  - intros a Ha. by rewrite array_alloc_old.
Qed.

Lemma heap_extends_insert (h : heap) (a : nat) (A : list Kline) :
  length A = length (array h a) -> heap_extends h (<[a := A]> h).
Proof.
  intros HA. split.
  - by rewrite length_insert.
  - intros b Hb. destruct (decide (a = b)) as [<- | Hne].
    + by rewrite array_insert_eq.
    + by rewrite array_insert_ne.
Qed.

Lemma heap_extends_set_index (h : heap) (s : slice) (i : nat) (k : Kline) :
  heap_extends h (set_index h s i k).
Proof. unfold set_index. apply heap_extends_insert. by rewrite length_insert. Qed.

Lemma length_set_index_heap (h : heap) (s : slice) (i : nat) (k : Kline) :
  length (set_index h s i k) = length h.
Proof. unfold set_index. apply length_insert. Qed.

Lemma contents_set_index (h : heap) (s : slice) (i : nat) (k : Kline) :
  wf_slice h s -> (i < len s)%nat ->
  contents (set_index h s i k) s = <[i := k]> (contents h s).
Proof.
  intros [Hs1 Hs2] Hi. unfold set_index, contents.
  rewrite array_insert_eq by done.
  apply list_eq. intros j.
  destruct (decide (j < len s)%nat) as [Hj | Hj].
  - rewrite lookup_take_lt, lookup_drop by done.
    destruct (decide (i = j)) as [<- | Hne].
    + rewrite !list_lookup_insert_eq; [done | | lia].
      rewrite length_take, length_drop. lia.
    + rewrite !list_lookup_insert_ne by lia.
      by rewrite lookup_take_lt, lookup_drop.
  - rewrite lookup_take_ge by lia. symmetry.
    apply lookup_ge_None. rewrite length_insert, length_take. lia.
Qed.

Lemma set_index_other (h : heap) (s : slice) (i : nat) (k : Kline) (a : nat) :
  a <> arr s -> array (set_index h s i k) a = array h a.
Proof. intros Ha. unfold set_index. by rewrite array_insert_ne. Qed.

(** [clone] returns a slice of a new array that holds the same elements;
    no existing array is touched. *)
Lemma clone_spec (h : heap) (s : slice) :
  wf_slice h s ->
  let '(h', r) := clone h s in
  arr r = length h /\ off r = 0%nat /\ len r = len s /\
  length h' = S (length h) /\
  (forall a, (a < length h)%nat -> array h' a = array h a) /\
  contents h' r = contents h s /\
  wf_slice h' r.
Proof.
  intros Hwf. unfold clone, make, alloc, copy. simpl.
  rewrite Nat.min_id.
  assert (Hlen : (length h < length (h ++ [replicate (len s) zeroKline]))%nat).
  { rewrite length_app. simpl. lia. }
  assert (Hsrc : contents (h ++ [replicate (len s) zeroKline]) s = contents h s).
  { apply contents_ext. apply array_alloc_old. apply Hwf. }
  rewrite array_alloc_new, Hsrc. simpl.
  rewrite (take_ge (contents h s)) by (rewrite contents_length by done; lia).
  rewrite (drop_ge (replicate (len s) zeroKline)) by (rewrite length_replicate; lia).
  rewrite app_nil_r.
  repeat split; simpl.
  - rewrite length_insert, length_app. simpl. lia.
  - intros a Ha. rewrite array_insert_ne by lia. by apply array_alloc_old.
  - unfold contents at 1. simpl. rewrite array_insert_eq by done.
    rewrite drop_0. apply take_ge. rewrite contents_length by done. lia.
  - rewrite length_insert. lia.
  - rewrite array_insert_eq by done. rewrite contents_length by done. lia.
Qed.

Lemma append_spec (h : heap) (s : slice) (k : Kline) :
  wf_slice h s ->
  let '(h', s') := append h s k in
  contents h' s' = contents h s ++ [k] /\ len s' = S (len s) /\
  wf_slice h' s' /\ heap_extends h h'.
Proof.
  intros Hwf. pose proof Hwf as [Hs1 Hs2]. unfold append, capacity.
  pose proof (contents_length h s Hwf) as Hlen.
  destruct (Nat.ltb_spec (len s) (length (array h (arr s)) - off s)) as [Hcap | Hcap].
  - split; [|split; [done|split]].
    + apply list_eq. intros j. rewrite contents_lookup. simpl.
      unfold set_index. rewrite array_insert_eq by done.
      destruct (decide (j < len s)%nat) as [Hj | Hj].
      * rewrite decide_True by lia. rewrite list_lookup_insert_ne by lia.
        rewrite lookup_app_l by lia. rewrite contents_lookup. by rewrite decide_True.
      * rewrite lookup_app_r by lia. rewrite Hlen. case_decide as Hj'.
        -- assert (j = len s) as -> by lia.
           rewrite list_lookup_insert_eq by lia. by rewrite Nat.sub_diag.
        -- symmetry. apply lookup_ge_None. simpl. lia.
    + split; simpl.
      * by rewrite length_set_index_heap.
      * unfold set_index. rewrite array_insert_eq by done.
        rewrite length_insert. lia.
    + apply heap_extends_set_index.
  - unfold alloc. split; [|split; [done|split]].
    + unfold contents at 1. simpl. rewrite array_alloc_new, drop_0.
      rewrite cons_middle, app_assoc. apply take_app_length'.
      rewrite length_app, Hlen. simpl. lia.
    + split; simpl.
      * rewrite length_app. simpl. lia.
      * rewrite array_alloc_new, !length_app, Hlen. simpl. lia.
    + apply heap_extends_alloc.
Qed.

Lemma Load_with_mem m h ref key : Load (with_mem m h) ref key = Load m ref key.
Proof. by destruct ref. Qed.

Lemma Load_Store m ref ref' key key' e :
  Load (Store m ref key e) ref' key' =
  if decide (ref = ref' /\ key = key' /\ ref <> FreshMap) then Some e else Load m ref' key'.
Proof.
  case_decide as H.
  - destruct H as (<- & <- & Hf). destruct ref; simpl; [| |done]; apply lookup_insert_eq.
  - destruct ref, ref'; simpl; try done;
      (rewrite lookup_insert_ne; [done|]); intros ->; by apply H.
Qed.

Lemma mem_Store m ref key e : mem (Store m ref key e) = mem m.
Proof. by destruct ref. Qed.

Lemma Load_Some_not_fresh m ref key e : Load m ref key = Some e -> ref <> FreshMap.
Proof. by destruct ref. Qed.

(** Storing a well-formed slice over a heap that extends the old one
    keeps the cache well formed. *)
Lemma wf_Store m h ref key klines t :
  wf m -> heap_extends (mem m) h -> wf_slice h klines ->
  wf (Store (with_mem m h) ref key {| Klines := klines; ReceivedAt := t |}).
Proof.
  intros Hwf Hext Hk ref' key' e'. rewrite Load_Store, mem_Store. simpl.
  case_decide.
  - by intros [= <-].
  - rewrite Load_with_mem. intros Hl.
    eapply wf_slice_extends; [done|]. by eapply Hwf.
Qed.

Lemma same_bar_last (h : heap) (klines : slice) (kline : Kline) :
  wf_slice h klines ->
  same_bar h klines kline =
  match last (contents h klines) with
  | Some lastBar => OpenTime lastBar =? OpenTime kline
  | None => false
  end.
Proof.
  intros Hwf. unfold same_bar.
  rewrite last_lookup, contents_length by done.
  destruct (Nat.ltb_spec 0 (len klines)) as [Hpos | Hzero]; simpl.
  - rewrite get_contents by lia. by replace (pred (len klines)) with (len klines - 1)%nat by lia.
  - assert (len klines = 0%nat) as Hl by lia. rewrite Hl. simpl.
    rewrite contents_lookup. rewrite Hl. by rewrite decide_False by lia.
Qed.

Lemma updated_bars_length (old : list Kline) (kline : Kline) :
  (length (updated_bars old kline) <= length old `max` 100)%nat /\
  ((length old <= 100)%nat -> (length (updated_bars old kline) <= 100)%nat).
Proof.
  assert (Hpush :
    (length (if (100 <? length (old ++ [kline]))%nat
             then drop 1 (old ++ [kline]) else old ++ [kline]) <= length old `max` 100)%nat).
  { destruct (Nat.ltb_spec 100 (length (old ++ [kline]))) as [H|H];
      [rewrite length_drop|]; rewrite length_app in *; simpl in *; lia. }
  assert (Hall : (length (updated_bars old kline) <= length old `max` 100)%nat).
  { unfold updated_bars. destruct (last old) as [lastBar|]; [|done].
    destruct (OpenTime lastBar =? OpenTime kline); [|done].
    rewrite length_insert. lia. }
  split; [done | lia].
Qed.

Lemma insert_last_take {A} (l : list A) (x : A) :
  (0 < length l)%nat ->
  <[(length l - 1)%nat := x]> l = take (length l - 1) l ++ [x].
Proof.
  induction l as [|y l IH]; simpl; [lia|]. intros _.
  destruct l as [|z l]; [done|].
  simpl in *. rewrite Nat.sub_0_r in *. f_equal. apply IH. lia.
Qed.

Lemma last_Some_length (l : list Kline) (x : Kline) :
  last l = Some x -> (0 < length l)%nat.
Proof. destruct l; [done | simpl; lia]. Qed.

Lemma reslice1_spec (h : heap) (s : slice) :
  wf_slice h s -> (0 < len s)%nat ->
  contents h (reslice1 s) = drop 1 (contents h s) /\ wf_slice h (reslice1 s).
Proof.
  intros [Hs1 Hs2] Hpos. split.
  - unfold contents, reslice1. simpl.
    replace (S (off s)) with (off s + 1)%nat by lia.
    rewrite <- (drop_drop _ 1 (off s)).
    rewrite take_drop_commute. by replace (1 + (len s - 1))%nat with (len s) by lia.
  - split; simpl; [done | lia].
Qed.

(** The shape of what [processKlineUpdate] stores. *)
Lemma processKlineUpdate_shape
    (m : WSMonitor) (symbol : string) (wsData : KlineWSData) (_time : string) (now : Time) :
  wf m ->
  exists h' klines',
    processKlineUpdate m symbol wsData _time now
      = Store (with_mem m h') (getKlineDataMap _time) symbol
          {| Klines := klines'; ReceivedAt := now |} /\
    heap_extends (mem m) h' /\ wf_slice h' klines' /\
    match Load m (getKlineDataMap _time) symbol with
    | Some e => (len klines' <= len (Klines e) `max` 100)%nat
    | None => klines' = {| arr := length (mem m); off := 0; len := 1 |} /\
              contents h' klines' = [toKline wsData]
    end.
Proof.
  intros Hwf. unfold processKlineUpdate.
  destruct (Load m (getKlineDataMap _time) symbol) as [e|] eqn:Hload.
  - pose proof (Hwf _ _ _ Hload) as Hs.
    destruct (same_bar (mem m) (Klines e) (toKline wsData)).
    + eexists _, _. split; [done|]. split; [apply heap_extends_set_index|].
      split; [|lia]. eapply wf_slice_extends; [apply heap_extends_set_index | done].
    + pose proof (append_spec (mem m) (Klines e) (toKline wsData) Hs) as Happ.
      destruct (append (mem m) (Klines e) (toKline wsData)) as [h1 klines1].
      destruct Happ as (Hc & Hl & Hw & Hx).
      destruct (Nat.ltb_spec 100 (len klines1)) as [Hbig | Hsmall].
      * destruct (reslice1_spec h1 klines1 Hw) as [_ Hr]; [lia|].
        eexists _, _. split; [done|]. split; [done|]. split; [done|]. simpl. lia.
      * eexists _, _. split; [done|]. split; [done|]. split; [done|]. lia.
  - unfold alloc. eexists _, _. split; [done|].
    split; [apply heap_extends_alloc|]. split; [|split; [done|]].
    + split; simpl; [rewrite length_app; simpl; lia|].
      rewrite array_alloc_new. simpl. lia.
    + unfold contents. simpl. by rewrite array_alloc_new.
Qed.

Lemma processKlineUpdate_preserves
    (m : WSMonitor) (symbol : string) (wsData : KlineWSData) (_time : string) (now : Time) :
  wf m -> bounded m ->
  wf (processKlineUpdate m symbol wsData _time now) /\
  bounded (processKlineUpdate m symbol wsData _time now).
Proof.
  intros Hwf Hb.
  destruct (processKlineUpdate_shape m symbol wsData _time now Hwf)
    as (h' & klines' & -> & Hx & Hw & Hlen).
  split; [by apply wf_Store|].
  intros ref key e. rewrite Load_Store. case_decide as Hd.
  - intros [= <-]. simpl. destruct Hd as (<- & <- & _).
    destruct (Load m (getKlineDataMap _time) symbol) as [e0|] eqn:Hl.
    + pose proof (Hb _ _ _ Hl). lia.
    + destruct Hlen as [-> _]. simpl. lia.
  - rewrite Load_with_mem. apply Hb.
Qed.

Lemma processKlineUpdates_preserves (m : WSMonitor)
    (updates : list (string * KlineWSData * string * Time)) :
  wf m -> bounded m ->
  wf (processKlineUpdates m updates) /\ bounded (processKlineUpdates m updates).
Proof.
  revert m. induction updates as [|[[[symbol wsData] _time] now] updates IH];
    intros m Hwf Hb; [done|].
  destruct (processKlineUpdate_preserves m symbol wsData _time now Hwf Hb).
  by apply IH.
Qed.

(** C7. A tick for a key that has an entry stores a new entry for that
    key, stamped with the current time. The bar of the tick has the
    tick's start and close times and trade count, and the parsed open,
    high, low, close, volume, quote volume and taker buy volumes of the
    tick. The candles of the new entry are those of [updated_bars] for
    that bar: when the tick's start time is the open time of the last
    stored bar, the same window of the same array now ends with the
    tick's bar and all other bars are as before; otherwise the bar is
    appended and, if that makes more than 100, the oldest bar is dropped.
    The sequence never grows beyond the larger of its previous length and
    100, so a sequence of at most 100 bars stays at most 100 bars long;
    and when every cached sequence has at most 100 bars before, so it is
    after the tick and after any further ticks. The cache stays well
    formed. *)
Theorem processKlineUpdate_spec
    (m : WSMonitor) (symbol : string) (wsData : KlineWSData) (_time : string)
    (now : Time) (e : KlineCacheEntry) (kline : Kline) :
  wf m ->
  Load m (getKlineDataMap _time) symbol = Some e ->
  kline = {| OpenTime := StartTime wsData;
             Open := parseFloat (OpenPrice wsData);
             High := parseFloat (HighPrice wsData);
             Low := parseFloat (LowPrice wsData);
             Close := parseFloat (ClosePrice wsData);
             Volume := parseFloat (WSVolume wsData);
             CloseTime := WSCloseTime wsData;
             QuoteVolume := parseFloat (WSQuoteVolume wsData);
             Trades := NumberOfTrades wsData;
             TakerBuyBaseVolume := parseFloat (WSTakerBuyBaseVolume wsData);
             TakerBuyQuoteVolume := parseFloat (WSTakerBuyQuoteVolume wsData) |} ->
  exists e',
    Load (processKlineUpdate m symbol wsData _time now) (getKlineDataMap _time) symbol
      = Some e' /\
    ReceivedAt e' = now /\
    contents (mem (processKlineUpdate m symbol wsData _time now)) (Klines e')
      = updated_bars (contents (mem m) (Klines e)) kline /\
    (forall lastBar,
       last (contents (mem m) (Klines e)) = Some lastBar ->
       OpenTime lastBar = StartTime wsData ->
       Klines e' = Klines e /\
       contents (mem (processKlineUpdate m symbol wsData _time now)) (Klines e')
         = <[(length (contents (mem m) (Klines e)) - 1)%nat := kline]>
             (contents (mem m) (Klines e)) /\
       contents (mem (processKlineUpdate m symbol wsData _time now)) (Klines e')
         = take (length (contents (mem m) (Klines e)) - 1) (contents (mem m) (Klines e))
             ++ [kline]) /\
    ((forall lastBar,
       last (contents (mem m) (Klines e)) = Some lastBar ->
       OpenTime lastBar <> StartTime wsData) ->
     contents (mem (processKlineUpdate m symbol wsData _time now)) (Klines e')
       = if (100 <? length (contents (mem m) (Klines e) ++ [kline]))%nat
         then drop 1 (contents (mem m) (Klines e) ++ [kline])
         else contents (mem m) (Klines e) ++ [kline]) /\
    (length (contents (mem (processKlineUpdate m symbol wsData _time now)) (Klines e'))
       <= length (contents (mem m) (Klines e)) `max` 100)%nat /\
    ((length (contents (mem m) (Klines e)) <= 100)%nat ->
     (length (contents (mem (processKlineUpdate m symbol wsData _time now)) (Klines e'))
        <= 100)%nat) /\
    wf (processKlineUpdate m symbol wsData _time now) /\
    (bounded m ->
     bounded (processKlineUpdate m symbol wsData _time now) /\
     forall updates ref key e0,
       Load (processKlineUpdates (processKlineUpdate m symbol wsData _time now) updates)
         ref key = Some e0 ->
       (length (contents
                  (mem (processKlineUpdates
                          (processKlineUpdate m symbol wsData _time now) updates))
                  (Klines e0)) <= 100)%nat).
Proof.
  intros Hwf Hload Hkline.
  assert (Hto : kline = toKline wsData) by exact Hkline.
  clear Hkline.
  assert (Hstart : StartTime wsData = OpenTime kline) by (by rewrite Hto).
  rewrite Hstart.
  pose proof (Hwf _ _ _ Hload) as Hs.
  pose proof (Load_Some_not_fresh _ _ _ _ Hload) as Hfresh.
  pose proof (contents_length _ _ Hs) as Hlen.
  pose proof (processKlineUpdate_preserves m symbol wsData _time now Hwf) as Hpres.
  set (old := contents (mem m) (Klines e)) in *.
  (* What the body computes before the final Store. *)
  assert (Hbody : exists h' klines',
    processKlineUpdate m symbol wsData _time now
      = Store (with_mem m h') (getKlineDataMap _time) symbol
          {| Klines := klines'; ReceivedAt := now |} /\
    contents h' klines' = updated_bars old kline /\
    wf_slice h' klines' /\ heap_extends (mem m) h' /\
    (forall lastBar, last old = Some lastBar ->
       OpenTime lastBar = OpenTime kline -> klines' = Klines e)).
  { unfold processKlineUpdate. rewrite Hload, <- Hto.
    rewrite same_bar_last by done. fold old. unfold updated_bars.
    destruct (last old) as [lastBar|] eqn:Hlast.
    - destruct (Z.eqb_spec (OpenTime lastBar) (OpenTime kline)) as [Heq | Hne].
      + exists (set_index (mem m) (Klines e) (len (Klines e) - 1) kline), (Klines e).
        assert (0 < len (Klines e))%nat as Hpos.
        { rewrite <- Hlen. by eapply last_Some_length. }
        split; [done|]. split; [|split; [|split; [|done]]].
        * rewrite contents_set_index by (done || lia). fold old. by rewrite Hlen.
        * eapply wf_slice_extends; [apply heap_extends_set_index | done].
        * apply heap_extends_set_index.
      + pose proof (append_spec (mem m) (Klines e) kline Hs) as Happ.
        destruct (append (mem m) (Klines e) kline) as [h1 klines1].
        destruct Happ as (Hc & Hl & Hw & Hx). fold old in Hc.
        rewrite length_app, Hlen. simpl. rewrite Hl.
        replace (len (Klines e) + 1)%nat with (S (len (Klines e))) by lia.
        destruct (Nat.ltb_spec 100 (S (len (Klines e)))) as [Hbig | Hsmall].
        * exists h1, (reslice1 klines1).
          destruct (reslice1_spec h1 klines1 Hw) as [Hr1 Hr2]; [lia|].
          split; [done|]. split; [by rewrite Hr1, Hc|]. split; [done|]. split; [done|].
          intros lb [= <-] Hlb. done.
        * exists h1, klines1.
          split; [done|]. split; [done|]. split; [done|]. split; [done|].
          intros lb [= <-] Hlb. done.
    - pose proof (append_spec (mem m) (Klines e) kline Hs) as Happ.
      destruct (append (mem m) (Klines e) kline) as [h1 klines1].
      destruct Happ as (Hc & Hl & Hw & Hx). fold old in Hc.
      rewrite length_app, Hlen. simpl. rewrite Hl.
      replace (len (Klines e) + 1)%nat with (S (len (Klines e))) by lia.
      destruct (Nat.ltb_spec 100 (S (len (Klines e)))) as [Hbig | Hsmall].
      + exists h1, (reslice1 klines1).
        destruct (reslice1_spec h1 klines1 Hw) as [Hr1 Hr2]; [lia|].
        split; [done|]. split; [by rewrite Hr1, Hc|]. split; [done|]. split; [done|].
        intros lb Hlb. done.
      + exists h1, klines1.
        split; [done|]. split; [done|]. split; [done|]. split; [done|].
        intros lb Hlb. done. }
  destruct Hbody as (h' & klines' & Hupd & Hc & Hw & Hx & Hsame).
  rewrite Hupd in *.
  exists {| Klines := klines'; ReceivedAt := now |}.
  rewrite Load_Store, mem_Store. simpl.
  rewrite decide_True by done. rewrite Hc.
  pose proof (updated_bars_length old kline) as [Hb1 Hb2].
  split; [done|]. split; [done|]. split; [done|].
  split; [|split; [|split; [done|split; [done|split]]]].
  - intros lastBar Hlast Heq. split; [by eapply Hsame|].
    assert (Hins : updated_bars old kline = <[(length old - 1)%nat := kline]> old).
    { unfold updated_bars. rewrite Hlast.
      by destruct (Z.eqb_spec (OpenTime lastBar) (OpenTime kline)). }
    split; [done|]. rewrite Hins.
    apply insert_last_take. by eapply last_Some_length.
  - intros Hne. unfold updated_bars.
    destruct (last old) as [lastBar|] eqn:Hlast; [|done].
    destruct (Z.eqb_spec (OpenTime lastBar) (OpenTime kline)) as [Heq|_]; [|done].
    by destruct (Hne lastBar eq_refl).
  - by apply wf_Store.
  - intros Hb. destruct (Hpres Hb) as [Hwf' Hb']. split; [done|].
    intros updates ref key e0 He0.
    destruct (processKlineUpdates_preserves _ updates Hwf' Hb') as [Hwf'' Hb''].
    rewrite contents_length by (by eapply Hwf''). by eapply Hb''.
Qed.

Lemma view_Load_cache_view m ref key :
  view_Load (cache_view m) ref key = view_entry (mem m) <$> Load m ref key.
Proof. destruct ref; simpl; [apply lookup_fmap | apply lookup_fmap | done]. Qed.

Lemma cache_view_Store m ref key e :
  cache_view (Store m ref key e)
  = view_Store (cache_view m) ref key (view_entry (mem m) e).
Proof.
  destruct ref; unfold cache_view; simpl; [| |done]; by rewrite fmap_insert.
Qed.

Lemma view_entry_ext (h h' : heap) (e : KlineCacheEntry) :
  array h' (arr (Klines e)) = array h (arr (Klines e)) ->
  view_entry h' e = view_entry h e.
Proof. intros Heq. unfold view_entry. by rewrite (contents_ext h h'). Qed.

(** Replacing the heap by one that agrees on the arrays behind the cache
    changes nothing a reader can see. *)
Lemma cache_view_ext (m : WSMonitor) (h' : heap) :
  (forall ref key e, Load m ref key = Some e ->
     array h' (arr (Klines e)) = array (mem m) (arr (Klines e))) ->
  cache_view (with_mem m h') = cache_view m.
Proof.
  intros Hagree. unfold cache_view. simpl. f_equal.
  - apply map_fmap_ext. intros key e He. apply view_entry_ext.
    by apply (Hagree Map3m key).
  - apply map_fmap_ext. intros key e He. apply view_entry_ext.
    by apply (Hagree Map4h key).
Qed.

Lemma wf_with_mem (m : WSMonitor) (h' : heap) :
  wf m -> heap_extends (mem m) h' -> wf (with_mem m h').
Proof.
  intros Hwf Hext ref key e. rewrite Load_with_mem. simpl. intros Hl.
  eapply wf_slice_extends; [done|]. by eapply Hwf.
Qed.

Lemma wf_with_client (m : WSMonitor) (c : CombinedStreamsClient) :
  wf m -> wf (with_client m c).
Proof. intros Hwf ref key e Hl. apply (Hwf ref key e). by destruct ref. Qed.

Lemma clone_extends (h : heap) (s : slice) :
  wf_slice h s -> heap_extends h (clone h s).1.
Proof.
  intros Hwf. pose proof (clone_spec h s Hwf) as Hc.
  destruct (clone h s) as [h' r]. destruct Hc as (_ & _ & _ & Hl & Hold & _). simpl.
  split; [lia|]. intros a Ha. by rewrite Hold.
Qed.

Lemma client_Store m ref key e : combinedClient (Store m ref key e) = combinedClient m.
Proof. by destruct ref. Qed.

Lemma pulled_slice (h : heap) (pulled : list Kline) (spare : nat) :
  let h1 := h ++ [pulled ++ replicate spare zeroKline] in
  let klines := {| arr := length h; off := 0; len := length pulled |} in
  contents h1 klines = pulled /\ wf_slice h1 klines.
Proof.
  simpl. split.
  - unfold contents. simpl. rewrite array_alloc_new, drop_0. apply take_app_length.
  - split; simpl.
    + rewrite length_app. simpl. lia.
    + rewrite array_alloc_new, length_app. lia.
Qed.

Arguments clone : simpl never.
Arguments contents : simpl never.
Arguments cache_view : simpl never.

(** The heap-level [GetCurrentKlines] computes what
    [GetCurrentKlines_on_view] says, keeps the cache well formed, only
    adds arrays to the heap, and returns a slice over an array that no
    cache entry uses. *)
Lemma GetCurrentKlines_view (m : WSMonitor) (symbol duration : string) (now : Time) :
  wf m ->
  observe (GetCurrentKlines m symbol duration now)
    = GetCurrentKlines_on_view (combinedClient m) (cache_view m) symbol duration now /\
  wf (GetCurrentKlines m symbol duration now).1.2 /\
  heap_extends (mem m) (mem (GetCurrentKlines m symbol duration now).1.2) /\
  match (GetCurrentKlines m symbol duration now).1.1 with
  | inl r =>
    (arr r < length (mem (GetCurrentKlines m symbol duration now).1.2))%nat /\
    forall ref key e,
      Load (GetCurrentKlines m symbol duration now).1.2 ref key = Some e ->
      arr (Klines e) <> arr r
  | inr _ => (GetCurrentKlines m symbol duration now).1.2 = m
  end.
Proof.
  intros Hwf. unfold GetCurrentKlines, GetCurrentKlines_on_view.
  rewrite view_Load_cache_view.
  destruct (Load m (getKlineDataMap duration) symbol) as [e|] eqn:Hl; cbn.
  - (* hit *)
    destruct (maxAge <? Since now (ReceivedAt e)); cbn.
    { split; [done|]. split; [done|]. split; [apply heap_extends_refl | done]. }
    pose proof (Hwf _ _ _ Hl) as Hs.
    pose proof (clone_spec (mem m) (Klines e) Hs) as Hc.
    pose proof (clone_extends (mem m) (Klines e) Hs) as Hx.
    destruct (clone (mem m) (Klines e)) as [h1 r].
    destruct Hc as (Ha & _ & _ & Hlen & Hold & Hcont & Hwr). cbn in *.
    assert (Hagree : forall ref key e', Load m ref key = Some e' ->
              array h1 (arr (Klines e')) = array (mem m) (arr (Klines e'))).
    { intros ref key e' He'. apply Hold. by apply (Hwf ref key e'). }
    split; [by rewrite Hcont, cache_view_ext|].
    split; [by apply wf_with_mem|]. split; [done|]. split; [lia|].
    intros ref key e'. rewrite Load_with_mem. intros He'.
    pose proof (Hwf _ _ _ He') as [Hlt _]. lia.
  - (* miss *)
    destruct (apiGetKlines now symbol duration 100) as [[pulled spare]|err]; cbn.
    2:{ split; [done|]. split; [done|]. split; [apply heap_extends_refl | done]. }
    unfold subscribeSymbol. cbn.
    set (h1 := mem m ++ [pulled ++ replicate spare zeroKline]).
    set (klines := {| arr := length (mem m); off := 0; len := length pulled |}).
    set (entry := {| Klines := klines; ReceivedAt := now |}).
    set (m1 := Store (with_mem m h1) (getKlineDataMap duration) (ToUpper symbol) entry).
    set (stream := ToLower symbol +:+ "@kline_" +:+ duration).
    destruct (pulled_slice (mem m) pulled spare) as [Hpc Hpw].
    fold h1 klines in Hpc, Hpw.
    assert (Hx1 : heap_extends (mem m) h1) by apply heap_extends_alloc.
    assert (Hwf1 : wf m1) by (by apply wf_Store).
    assert (Hm1 : mem m1 = h1) by apply mem_Store.
    assert (Hc1 : combinedClient m1 = combinedClient m)
      by (unfold m1; by rewrite client_Store).
    assert (Hv1 : cache_view m1
              = view_Store (cache_view m) (getKlineDataMap duration) (ToUpper symbol)
                  (pulled, now)).
    { unfold m1. rewrite cache_view_Store. f_equal.
      - apply cache_view_ext. intros ref key e' He'.
        apply array_alloc_old. by apply (Hwf ref key e').
      - unfold view_entry. simpl. by rewrite Hpc. }
    rewrite Hc1.
    destruct (subscribeStreams (AddSubscriber (combinedClient m) stream 100) [stream] now)
      as [subErr ev2] eqn:Hsub.
    rewrite Hm1.
    pose proof (clone_spec h1 klines Hpw) as Hc.
    pose proof (clone_extends h1 klines Hpw) as Hx2.
    destruct (clone h1 klines) as [h2 r].
    destruct Hc as (Ha & _ & _ & Hlen & Hold & Hcont & Hwr). cbn in *.
    set (m2 := with_client m1 (AddSubscriber (combinedClient m) stream 100)).
    assert (Hwf2 : wf m2) by (by apply wf_with_client).
    assert (Hagree : forall ref key e', Load m2 ref key = Some e' ->
              array h2 (arr (Klines e')) = array (mem m2) (arr (Klines e'))).
    { intros ref key e' He'. simpl. rewrite Hm1. apply Hold.
      pose proof (Hwf2 _ _ _ He') as [Hlt _]. simpl in Hlt. by rewrite Hm1 in Hlt. }
    split; [|split; [|split; [|split]]].
    + rewrite Hcont, Hpc. rewrite (cache_view_ext m2 h2 Hagree).
      change (cache_view m2) with (cache_view m1). by rewrite Hv1.
    + apply wf_with_mem; [done|]. simpl. by rewrite Hm1.
    + by eapply heap_extends_trans.
    + lia.
    + intros ref key e'. rewrite Load_with_mem. intros He'.
      pose proof (Hwf2 _ _ _ He') as [Hlt _]. simpl in Hlt. rewrite Hm1 in Hlt. lia.
Qed.

Lemma maxAge_value : maxAge = 15 * Minute.
Proof. reflexivity. Qed.

Lemma stale_iff (now receivedAt : Time) :
  (maxAge <? Since now receivedAt) = true <-> 15 * Minute < now - receivedAt.
Proof.
  rewrite Z.ltb_lt, maxAge_value. unfold Since. apply Sub_gt.
  unfold int64_min, int64_max, Minute, Second. lia.
Qed.

(** C1. A read that finds an entry older than 15 minutes returns the
    staleness error, whose message names the symbol, the interval and the
    age in minutes; it returns no candles, leaves the monitor as it was
    and performs no pull (it has no effect on the outside at all). An
    entry of age at most 15 minutes is served. In particular an entry
    aged exactly 15 minutes is served and one aged 15 minutes and one
    second is refused. *)
Theorem GetCurrentKlines_stale
    (m : WSMonitor) (symbol duration : string) (now : Time) (e : KlineCacheEntry) :
  Load m (getKlineDataMap duration) symbol = Some e ->
  (15 * Minute < now - ReceivedAt e ->
     GetCurrentKlines m symbol duration now
       = (inr (staleError symbol duration (Since now (ReceivedAt e))), m, []) /\
     pulls (GetCurrentKlines m symbol duration now).2 = 0%nat /\
     Error (staleError symbol duration (Since now (ReceivedAt e)))
       = symbol +:+ " 的 " +:+ duration +:+ " K线数据已过期 (" +:+
         fmtMinutes (Since now (ReceivedAt e)) +:+ " 分钟)，WebSocket 可能未正常工作") /\
  (now - ReceivedAt e <= 15 * Minute ->
     exists r m',
       GetCurrentKlines m symbol duration now = (inl r, m', []) /\
       (wf m -> contents (mem m') r = contents (mem m) (Klines e))) /\
  (now - ReceivedAt e = 15 * Minute ->
     exists r m', GetCurrentKlines m symbol duration now = (inl r, m', [])) /\
  (now - ReceivedAt e = 15 * Minute + Second ->
     exists err, GetCurrentKlines m symbol duration now = (inr err, m, [])).
Proof.
  intros Hl.
  assert (Hstale : 15 * Minute < now - ReceivedAt e ->
            GetCurrentKlines m symbol duration now
              = (inr (staleError symbol duration (Since now (ReceivedAt e))), m, [])).
  { intros Hage. unfold GetCurrentKlines. rewrite Hl.
    apply stale_iff in Hage. by rewrite Hage. }
  assert (Hfresh : now - ReceivedAt e <= 15 * Minute ->
            exists r m',
              GetCurrentKlines m symbol duration now = (inl r, m', []) /\
              (wf m -> contents (mem m') r = contents (mem m) (Klines e))).
  { intros Hage. unfold GetCurrentKlines. rewrite Hl.
    destruct (maxAge <? Since now (ReceivedAt e)) eqn:Hs.
    { apply stale_iff in Hs. lia. }
    destruct (clone (mem m) (Klines e)) as [h1 r] eqn:Hc.
    exists r, (with_mem m h1). split; [done|]. intros Hwf.
    pose proof (clone_spec (mem m) (Klines e) (Hwf _ _ _ Hl)) as Hspec.
    rewrite Hc in Hspec. by destruct Hspec as (_ & _ & _ & _ & _ & Hcont & _). }
  split; [|split; [done|split]].
  - intros Hage. rewrite (Hstale Hage). by repeat split.
  - intros Hage. destruct Hfresh as (r & m' & Hr & _); [lia|]. by exists r, m'.
  - intros Hage. eexists. apply Hstale. unfold Second in *. lia.
Qed.

Lemma observation_inv {A B C D : Type} (a a' : A) (b b' : B) (c c' : C) (d d' : D) :
  (a, b, c, d) = (a', b', c', d') -> a = a' /\ b = b' /\ c = c' /\ d = d'.
Proof. by intros [= -> -> -> ->]. Qed.

Lemma caller_writes_set_index (h : heap) (s : slice) (i : nat) (k : Kline) :
  caller_writes (arr s) h (set_index h s i k).
Proof.
  split; [by rewrite length_set_index_heap|].
  intros b _ Hb. by apply set_index_other.
Qed.

(** C5. A successful read returns a slice over an array of its own,
    holding the candles of the entry it found: whatever the caller then
    writes through it, the cached state is what it was, and a second read
    of the same key behaves and returns exactly as it would have without
    the caller's writes. *)
Theorem GetCurrentKlines_returns_copy
    (m : WSMonitor) (symbol duration : string) (now : Time)
    (r : slice) (m1 : WSMonitor) (ev : list event) :
  wf m ->
  GetCurrentKlines m symbol duration now = (inl r, m1, ev) ->
  (forall e, Load m (getKlineDataMap duration) symbol = Some e ->
     contents (mem m1) r = contents (mem m) (Klines e) /\
     cache_view m1 = cache_view m) /\
  (forall ref key e, Load m1 ref key = Some e -> arr (Klines e) <> arr r) /\
  forall h', caller_writes (arr r) (mem m1) h' ->
    cache_view (with_mem m1 h') = cache_view m1 /\
    forall now2,
      observe (GetCurrentKlines (with_mem m1 h') symbol duration now2)
      = observe (GetCurrentKlines m1 symbol duration now2).
Proof.
  intros Hwf Hget.
  pose proof (GetCurrentKlines_view m symbol duration now Hwf) as (Hobs & Hwf1 & _ & Hfresh).
  rewrite Hget in Hobs, Hwf1, Hfresh. cbn in Hobs, Hwf1, Hfresh.
  destruct Hfresh as [_ Hfresh].
  split.
  { intros e He. unfold GetCurrentKlines_on_view in Hobs.
    rewrite view_Load_cache_view, He in Hobs. cbn in Hobs.
    destruct (maxAge <? Since now (ReceivedAt e));
      apply observation_inv in Hobs as (Hres & _ & Hview & _); [done|].
    split; [congruence | done]. }
  split; [done|]. intros h' [Hlen Hkeep].
  assert (Hagree : forall ref key e, Load m1 ref key = Some e ->
            array h' (arr (Klines e)) = array (mem m1) (arr (Klines e))).
  { intros ref key e He. apply Hkeep; [by apply (Hwf1 ref key e) | by eapply Hfresh]. }
  assert (Hview : cache_view (with_mem m1 h') = cache_view m1)
    by (by apply cache_view_ext).
  assert (Hwf' : wf (with_mem m1 h')).
  { intros ref key e. rewrite Load_with_mem. intros He. cbn.
    destruct (Hwf1 _ _ _ He) as [Ha Hb]. split; [lia|]. by rewrite (Hagree ref key e). }
  split; [done|]. intros now2.
  destruct (GetCurrentKlines_view (with_mem m1 h') symbol duration now2 Hwf') as [-> _].
  destruct (GetCurrentKlines_view m1 symbol duration now2 Hwf1) as [-> _].
  by rewrite Hview.
Qed.

Lemma getKlineDataMap_cached (duration : string) :
  duration = "3m" \/ duration = "4h" -> getKlineDataMap duration <> FreshMap.
Proof. by intros [-> | ->]. Qed.

Lemma view_Load_Store_eq (v : view) (ref : mapRef) (key : string) (x : list Kline * Time) :
  ref <> FreshMap -> view_Load (view_Store v ref key x) ref key = Some x.
Proof. destruct ref; [| |done]; intros _; simpl; apply lookup_insert_eq. Qed.

Lemma getKlineDataMap_fresh (duration : string) :
  duration <> "3m" -> duration <> "4h" -> getKlineDataMap duration = FreshMap.
Proof.
  intros H3 H4. unfold getKlineDataMap.
  destruct (String.eqb_spec duration "3m"); [done|].
  by destruct (String.eqb_spec duration "4h").
Qed.

(** C6 (as the source has it). A read that finds no entry makes exactly
    one pull (limit 100). If the pull fails, its error is returned and
    nothing else happens. If it succeeds, the read registers a consumer
    channel of size 100 for the stream of that symbol and interval, starts
    its consumer, sends one subscribe frame for that stream if the client
    is connected, and returns the pulled candles in a slice that shares
    its array with no cache entry. For an interval that has a cache
    (["3m"] or ["4h"]) and a symbol written in upper case, an entry holding
    the pulled candles and stamped with the current time is stored for
    that symbol and interval, so any later read of the same key makes no
    pull and, within 15 minutes, returns the pulled candles. For any other
    interval the cache is left as it was. *)
Theorem GetCurrentKlines_miss_seeds
    (m : WSMonitor) (symbol duration : string) (now : Time) :
  wf m ->
  Load m (getKlineDataMap duration) symbol = None ->
  (forall err, apiGetKlines now symbol duration 100 = inr err ->
     GetCurrentKlines m symbol duration now
       = (inr (pullError duration err), m, [GetKlines symbol duration 100])) /\
  (forall pulled spare, apiGetKlines now symbol duration 100 = inl (pulled, spare) ->
   exists r m1 ev,
    GetCurrentKlines m symbol duration now = (inl r, m1, ev) /\
    pulls ev = 1%nat /\
    ev = GetKlines symbol duration 100
         :: GoHandleKlineData symbol (ToLower symbol +:+ "@kline_" +:+ duration) duration
         :: match conn (combinedClient m) with
            | Some _ => [WriteJSON "SUBSCRIBE" [ToLower symbol +:+ "@kline_" +:+ duration] now]
            | None => []
            end /\
    subscribers (combinedClient m1) !! (ToLower symbol +:+ "@kline_" +:+ duration)
      = Some {| chan_buf := []; chan_cap := 100 |} /\
    contents (mem m1) r = pulled /\
    (forall ref key e, Load m1 ref key = Some e -> arr (Klines e) <> arr r) /\
    (duration = "3m" \/ duration = "4h" -> ToUpper symbol = symbol ->
       (exists e,
          Load m1 (getKlineDataMap duration) symbol = Some e /\
          contents (mem m1) (Klines e) = pulled /\
          ReceivedAt e = now) /\
       forall now2,
         pulls (GetCurrentKlines m1 symbol duration now2).2 = 0%nat /\
         (now2 - now <= 15 * Minute ->
          exists r2 m2,
            GetCurrentKlines m1 symbol duration now2 = (inl r2, m2, []) /\
            contents (mem m2) r2 = pulled)) /\
    (duration <> "3m" -> duration <> "4h" -> cache_view m1 = cache_view m)).
Proof.
  intros Hwf Hmiss. split.
  { intros err Hapi. unfold GetCurrentKlines. by rewrite Hmiss, Hapi. }
  intros pulled spare Hapi.
  pose proof (GetCurrentKlines_view m symbol duration now Hwf) as (Hobs & Hwf1 & _ & Hfresh).
  unfold GetCurrentKlines_on_view in Hobs.
  rewrite view_Load_cache_view, Hmiss, Hapi in Hobs. cbn in Hobs.
  destruct (GetCurrentKlines m symbol duration now) as [[res m1] ev].
  cbn in Hobs, Hwf1, Hfresh.
  apply observation_inv in Hobs as (Hcont & Hclient & Hview & Hev).
  destruct res as [r|err]; [|done]. injection Hcont as Hcont.
  destruct Hfresh as [_ Hfresh].
  set (stream := ToLower symbol +:+ "@kline_" +:+ duration) in *.
  exists r, m1, ev. split; [done|].
  assert (Hev' : ev = GetKlines symbol duration 100
         :: GoHandleKlineData symbol stream duration
         :: match conn (combinedClient m) with
            | Some _ => [WriteJSON "SUBSCRIBE" [stream] now]
            | None => []
            end).
  { rewrite Hev. unfold subscribeStreams, AddSubscriber. cbn.
    by destruct (conn (combinedClient m)). }
  split; [|split; [done|split; [|split; [done|split; [done|split]]]]].
  - rewrite Hev'. by destruct (conn (combinedClient m)).
  - rewrite Hclient. unfold AddSubscriber. cbn. apply lookup_insert_eq.
  - intros Hdur Hup.
    pose proof (getKlineDataMap_cached duration Hdur) as Hcached.
    rewrite Hup in Hview.
    assert (He : exists e, Load m1 (getKlineDataMap duration) symbol = Some e /\
                           contents (mem m1) (Klines e) = pulled /\ ReceivedAt e = now).
    { pose proof (view_Load_cache_view m1 (getKlineDataMap duration) symbol) as Hv.
      rewrite Hview, view_Load_Store_eq in Hv by done.
      destruct (Load m1 (getKlineDataMap duration) symbol) as [e|]; [|done].
      exists e. injection Hv as Hv1 Hv2. by repeat split. }
    split; [done|]. destruct He as (e & Hload & Hec & Het).
    intros now2.
    pose proof (GetCurrentKlines_view m1 symbol duration now2 Hwf1) as (Hobs2 & _).
    unfold GetCurrentKlines_on_view in Hobs2.
    rewrite view_Load_cache_view, Hload in Hobs2. cbn in Hobs2.
    rewrite Hec, Het in Hobs2.
    destruct (GetCurrentKlines m1 symbol duration now2) as [[res2 m2] ev2].
    cbn in Hobs2. cbn.
    destruct (maxAge <? Since now2 now) eqn:Hs.
    + apply observation_inv in Hobs2 as (_ & _ & _ & ->). split; [done|]. intros Hage.
      apply stale_iff in Hs. lia.
    + apply observation_inv in Hobs2 as (Hres & _ & _ & ->). split; [done|]. intros _.
      destruct res2 as [r2|err2]; [|done]. exists r2, m2. split; [done|]. congruence.
  - intros H3 H4. by rewrite Hview, (getKlineDataMap_fresh duration H3 H4).
Qed.

Lemma GetCurrentKlines_preserves (m : WSMonitor) (symbol duration : string) (now : Time) :
  (forall pulled spare, apiGetKlines now symbol duration 100 = inl (pulled, spare) ->
     (length pulled <= 100)%nat) ->
  wf m -> bounded m ->
  wf (GetCurrentKlines m symbol duration now).1.2 /\
  bounded (GetCurrentKlines m symbol duration now).1.2.
Proof.
  intros Hapi Hwf Hb.
  split; [by apply GetCurrentKlines_view|].
  unfold GetCurrentKlines.
  destruct (Load m (getKlineDataMap duration) symbol) as [e|] eqn:Hl.
  - destruct (maxAge <? Since now (ReceivedAt e)); [done|].
    destruct (clone (mem m) (Klines e)) as [h1 r]. cbn.
    intros ref key e'. rewrite Load_with_mem. apply Hb.
  - destruct (apiGetKlines now symbol duration 100) as [[pulled spare]|err] eqn:Ha; [|done].
    unfold alloc, subscribeSymbol. cbn.
    destruct (subscribeStreams _ _ _) as [subErr ev2].
    destruct (clone _ _) as [h2 r]. cbn.
    intros ref key e'. rewrite Load_with_mem.
    change (Load (with_client ?m0 ?c) ref key) with (Load m0 ref key).
    rewrite Load_Store. case_decide.
    + intros [= <-]. simpl. by eapply Hapi.
    + rewrite Load_with_mem. apply Hb.
Qed.

Lemma storePulled_preserves (m : WSMonitor) (ref : mapRef) (s : string)
    (pulled : list Kline) (spare : nat) (now : Time) :
  (length pulled <= 100)%nat ->
  wf m -> bounded m ->
  wf (storePulled m ref s pulled spare now) /\
  bounded (storePulled m ref s pulled spare now).
Proof.
  intros Hlen Hwf Hb. unfold storePulled.
  destruct (0 <? length pulled)%nat; [|done]. unfold alloc.
  destruct (pulled_slice (mem m) pulled spare) as [_ Hpw]. split.
  - apply wf_Store; [done | apply heap_extends_alloc | done].
  - intros ref' key e. rewrite Load_Store. case_decide.
    + by intros [= <-].
    + rewrite Load_with_mem. apply Hb.
Qed.

Lemma seedHistorical_preserves (m : WSMonitor) (s : string) (now : Time) :
  (forall duration pulled spare,
     apiGetKlines now s duration 100 = inl (pulled, spare) -> (length pulled <= 100)%nat) ->
  wf m -> bounded m ->
  wf (seedHistorical m s now) /\ bounded (seedHistorical m s now).
Proof.
  intros Hapi Hwf Hb. unfold seedHistorical.
  destruct (apiGetKlines now s "3m" 100) as [[klines spare]|err] eqn:H3; [|done].
  destruct (storePulled_preserves m Map3m s klines spare now) as [Hwf1 Hb1];
    [by eapply Hapi | done | done |].
  destruct (apiGetKlines now s "4h" 100) as [[klines4h spare4h]|err] eqn:H4; [|done].
  apply storePulled_preserves; [by eapply Hapi | done | done].
Qed.

(** X1. From a well-formed cache in which every sequence has at most 100
    bars (the empty cache, for one), and with a provider that returns at
    most the 100 candles it is asked for, every sequence of seedings,
    ticks and reads leads to a well-formed cache in which every sequence
    has at most 100 bars. *)
Theorem cache_stays_within_100 (m : WSMonitor) (ops : list op) :
  (forall now symbol duration pulled spare,
     apiGetKlines now symbol duration 100 = inl (pulled, spare) ->
     (length pulled <= 100)%nat) ->
  wf m -> bounded m ->
  wf (apply_ops m ops) /\ bounded (apply_ops m ops) /\
  forall ref key e, Load (apply_ops m ops) ref key = Some e ->
    (length (contents (mem (apply_ops m ops)) (Klines e)) <= 100)%nat.
Proof.
  intros Hapi Hwf Hb.
  assert (Hinv : wf (apply_ops m ops) /\ bounded (apply_ops m ops)).
  { revert m Hwf Hb. induction ops as [|o ops IH]; intros m Hwf Hb; [done|].
    simpl.
    destruct o as [symbol now | symbol wsData _time now | symbol duration now]; simpl.
    - destruct (seedHistorical_preserves m symbol now) as [Hw' Hb'];
        [by eauto | done | done |]. by apply IH.
    - destruct (processKlineUpdate_preserves m symbol wsData _time now Hwf Hb).
      by apply IH.
    - destruct (GetCurrentKlines_preserves m symbol duration now) as [Hw' Hb'];
        [by eauto | done | done |]. by apply IH. }
  destruct Hinv as [Hw' Hb']. split; [done|]. split; [done|].
  intros ref key e He. rewrite contents_length by (by eapply Hw'). by eapply Hb'.
Qed.

(** X2. A tick for a key that has no entry yet creates one, holding
    that single bar (the tick's start and close times and trade count,
    and its parsed prices and volumes) and stamped with the current time,
    when the interval has a cache; for any other interval no map of the
    monitor changes. *)
Theorem processKlineUpdate_first_tick
    (m : WSMonitor) (symbol : string) (wsData : KlineWSData) (_time : string) (now : Time) :
  wf m ->
  Load m (getKlineDataMap _time) symbol = None ->
  (_time = "3m" \/ _time = "4h" ->
     exists e',
       Load (processKlineUpdate m symbol wsData _time now) (getKlineDataMap _time) symbol
         = Some e' /\
       ReceivedAt e' = now /\
       contents (mem (processKlineUpdate m symbol wsData _time now)) (Klines e')
         = [{| OpenTime := StartTime wsData;
               Open := parseFloat (OpenPrice wsData);
               High := parseFloat (HighPrice wsData);
               Low := parseFloat (LowPrice wsData);
               Close := parseFloat (ClosePrice wsData);
               Volume := parseFloat (WSVolume wsData);
               CloseTime := WSCloseTime wsData;
               QuoteVolume := parseFloat (WSQuoteVolume wsData);
               Trades := NumberOfTrades wsData;
               TakerBuyBaseVolume := parseFloat (WSTakerBuyBaseVolume wsData);
               TakerBuyQuoteVolume := parseFloat (WSTakerBuyQuoteVolume wsData) |}]) /\
  (_time <> "3m" -> _time <> "4h" ->
     klineDataMap3m (processKlineUpdate m symbol wsData _time now) = klineDataMap3m m /\
     klineDataMap4h (processKlineUpdate m symbol wsData _time now) = klineDataMap4h m).
Proof.
  intros Hwf Hmiss.
  destruct (processKlineUpdate_shape m symbol wsData _time now Hwf)
    as (h' & klines' & -> & Hx & Hw & Hlen).
  rewrite Hmiss in Hlen. destruct Hlen as [Hk Hc]. split.
  - intros Hdur. pose proof (getKlineDataMap_cached _time Hdur) as Hcached.
    eexists. rewrite Load_Store, decide_True by done.
    split; [done|]. split; [done|]. by rewrite mem_Store.
  - intros H3 H4. by rewrite (getKlineDataMap_fresh _time H3 H4).
Qed.

Lemma subscribe_calls_app (tr1 tr2 : list event) :
  subscribe_calls (tr1 ++ tr2) = subscribe_calls tr1 ++ subscribe_calls tr2.
Proof. unfold subscribe_calls. apply omap_app. Qed.

Lemma hook_calls_app (tr1 tr2 : list event) :
  hook_calls (tr1 ++ tr2) = hook_calls tr1 ++ hook_calls tr2.
Proof. unfold hook_calls. apply omap_app. Qed.

Lemma range_streams_empty (subs : gmap string chan) :
  range_streams subs = [] <-> subs = ∅.
Proof.
  split.
  - intros Hnil. pose proof (range_streams_perm subs) as Hp. rewrite Hnil in Hp.
    apply Permutation_nil_l in Hp. symmetry in Hp. apply fmap_nil_inv in Hp.
    by apply map_to_list_empty_iff.
  - intros ->. pose proof (range_streams_perm ∅) as Hp.
    rewrite map_to_list_empty in Hp. by apply Permutation_nil_r in Hp.
Qed.

(** C2. When the client is set to reconnect and, after any number of
    failed dials, a dial succeeds, [handleReconnect] returns with the new
    connection installed and the registry untouched; if the registry is
    empty it has written no subscribe frame and called no hook, otherwise
    it has written exactly one subscribe frame, whose streams are exactly
    the registered ones, each once (and has called the hook, if one is
    set, once with the same list). *)
Theorem handleReconnect_resubscribes
    (c : CombinedStreamsClient) (now : Time)
    (failed : list error) (k : nat) (rest : list (nat + error)) :
  reconnect c = true ->
  exists c' ev,
    handleReconnect ((inr <$> failed) ++ inl k :: rest) c now = Some (c', ev) /\
    conn c' = Some k /\
    subscribers c' = subscribers c /\
    resubscribed c (subscribe_calls ev) (hook_calls ev).
Proof.
  intros Hrec. induction failed as [|err failed IH]; cbn [fmap list_fmap app handleReconnect].
  - rewrite Hrec. cbn [negb Connect].
    set (c1 := with_conn c (Some k)).
    set (streams := range_streams (subscribers c1)).
    assert (Hperm : streams ≡ₚ (map_to_list (subscribers c)).*1)
      by apply range_streams_perm.
    destruct (Nat.ltb_spec 0 (length streams)) as [Hpos | Hzero].
    + unfold subscribeStreams. cbn [conn c1 with_conn].
      eexists _, _. split; [done|]. split; [done|]. split; [done|].
      unfold resubscribed. rewrite decide_False.
      2:{ intros Hempty. apply range_streams_empty in Hempty.
          change (range_streams (subscribers c)) with streams in Hempty.
          rewrite Hempty in Hpos. simpl in Hpos. lia. }
      exists streams. split; [|split; [|split; [done|split; [|split]]]].
      * cbn. rewrite subscribe_calls_app. by destruct (onReconnectSubscribeFunc c).
      * cbn. rewrite hook_calls_app. by destruct (onReconnectSubscribeFunc c).
      * rewrite Hperm. apply NoDup_fst_map_to_list.
      * rewrite Hperm, length_fmap. apply length_map_to_list.
      * intros stream. rewrite Hperm, list_elem_of_fmap. split.
        -- intros ([s ch] & -> & Hin). apply elem_of_map_to_list in Hin. by exists ch.
        -- intros [ch Hch]. exists (stream, ch). split; [done|].
           by apply elem_of_map_to_list.
    + eexists _, _. split; [done|]. split; [done|]. split; [done|].
      unfold resubscribed. rewrite decide_True; [done|].
      apply range_streams_empty. change (subscribers c) with (subscribers c1).
      fold streams. apply length_zero_iff_nil. lia.
  - rewrite Hrec. cbn [negb Connect].
    destruct IH as (c' & ev & -> & Hconn & Hsubs & Hres).
    eexists _, _. split; [done|]. split; [done|]. split; [done|]. done.
Qed.

(** C10. A frame that does not parse, or whose stream has no registered
    channel, is discarded and changes nothing. A frame for a registered
    stream whose channel has room is appended to that channel's queue and
    to no other. When the channel is full the call returns at once with
    the client unchanged: the frame is in no queue, so whatever happens
    afterwards is what would have happened had the frame never arrived. *)
Theorem handleCombinedMessage_dispatch (c : CombinedStreamsClient) (message : string) :
  match unmarshal message with
  | None => handleCombinedMessage c message = (c, [LogParseFailed])
  | Some (stream, data) =>
    match subscribers c !! stream with
    | None => handleCombinedMessage c message = (c, [])
    | Some ch =>
      ((length (chan_buf ch) < chan_cap ch)%nat ->
         exists c',
           handleCombinedMessage c message = (c', []) /\
           subscribers c' !! stream
             = Some {| chan_buf := chan_buf ch ++ [data]; chan_cap := chan_cap ch |} /\
           (forall other, other <> stream ->
              subscribers c' !! other = subscribers c !! other) /\
           conn c' = conn c /\ reconnect c' = reconnect c) /\
      ((chan_cap ch <= length (chan_buf ch))%nat ->
         handleCombinedMessage c message = (c, [LogChannelFull stream]) /\
         forall later, run (Incoming message :: later) c = run later c)
    end
  end.
Proof.
  unfold handleCombinedMessage.
  destruct (unmarshal message) as [[stream data]|] eqn:Hparse; [|done].
  destruct (subscribers c !! stream) as [ch|] eqn:Hch; [|done].
  unfold trySend. split.
  - intros Hroom. destruct (Nat.ltb_spec (length (chan_buf ch)) (chan_cap ch)); [|lia].
    eexists. split; [done|]. cbn. split; [apply lookup_insert_eq|].
    split; [|done]. intros other Hother. by apply lookup_insert_ne.
  - intros Hfull. destruct (Nat.ltb_spec (length (chan_buf ch)) (chan_cap ch)) as [|_]; [lia|].
    split; [done|]. intros later. cbn [run]. unfold handleCombinedMessage, trySend.
    rewrite Hparse, Hch.
    by destruct (Nat.ltb_spec (length (chan_buf ch)) (chan_cap ch)) as [|_]; [lia|].
Qed.

Lemma splitLoop_spec (symbols : list string) (batchSize : Z) :
  0 < batchSize ->
  Z.of_nat (length symbols) + batchSize <= int64_max ->
  forall fuel i,
    0 <= i <= Z.of_nat (length symbols) + batchSize ->
    (Z.to_nat (Z.of_nat (length symbols) - i) <= fuel)%nat ->
    exists batches,
      splitLoop fuel symbols batchSize i = Some batches /\
      concat batches = drop (Z.to_nat i) symbols /\
      Forall (fun b => (0 < length b)%nat /\ Z.of_nat (length b) <= batchSize) batches /\
      forall j b, (S j < length batches)%nat -> batches !! j = Some b ->
                  Z.of_nat (length b) = batchSize.
Proof.
  intros Hpos Hmax.
  assert (Hmax' : Z.of_nat (length symbols) + batchSize <= 2 ^ 63 - 1) by exact Hmax.
  induction fuel as [|fuel IH]; intros i Hi Hfuel.
  - assert (Hdone : (i <? Z.of_nat (length symbols)) = false) by (apply Z.ltb_ge; lia).
    exists []. unfold splitLoop. rewrite Hdone.
    split; [done|]. split; [|split; [constructor | intros j b Hj; simpl in Hj; lia]].
    simpl. symmetry. apply drop_ge. lia.
  - cbn [splitLoop].
    destruct (Z.ltb_spec i (Z.of_nat (length symbols))) as [Hlt | Hge].
    2:{ exists []. split; [done|].
        split; [|split; [constructor | intros j b Hj; simpl in Hj; lia]].
        simpl. symmetry. apply drop_ge. lia. }
    rewrite (wrap64_id (i + batchSize)) by (unfold in_int64, int64_min, int64_max; lia).
    destruct (IH (i + batchSize)) as (rest & Hrest & Hcat & Hall & Hfull); [lia | lia |].
    rewrite Hrest.
    destruct (Z.ltb_spec (Z.of_nat (length symbols)) (i + batchSize)) as [Hlast | Hmore].
    + (* the last, possibly short, batch *)
      destruct (Z.ltb_spec (Z.of_nat (length symbols)) i) as [|_]; [lia|].
      destruct (Z.ltb_spec i 0) as [|_]; [lia|]. cbn [orb].
      assert (Hnil : rest = []).
      { destruct rest as [|b0 rest0]; [done|]. exfalso.
        apply Forall_cons in Hall as [[Hb0 _] _].
        assert (Hd : drop (Z.to_nat (i + batchSize)) symbols = []) by (apply drop_ge; lia).
        rewrite Hd in Hcat. simpl in Hcat.
        apply app_eq_nil in Hcat as [-> _]. simpl in Hb0. lia. }
      subst rest. eexists. split; [done|].
      assert (Hlen : length (take (Z.to_nat (Z.of_nat (length symbols) - i))
                               (drop (Z.to_nat i) symbols))
                     = Z.to_nat (Z.of_nat (length symbols) - i)).
      { rewrite length_take, length_drop. lia. }
      split; [|split; [|intros j b Hj; simpl in Hj; lia]].
      * simpl. rewrite app_nil_r. apply take_ge. rewrite length_drop. lia.
      * constructor; [|constructor]. rewrite Hlen. lia.
    + destruct (Z.ltb_spec (i + batchSize) i) as [|_]; [lia|].
      destruct (Z.ltb_spec i 0) as [|_]; [lia|]. cbn [orb].
      replace (i + batchSize - i) with batchSize by lia.
      eexists. split; [done|].
      assert (Hlen : length (take (Z.to_nat batchSize) (drop (Z.to_nat i) symbols))
                     = Z.to_nat batchSize).
      { rewrite length_take, length_drop. lia. }
      split; [|split].
      * simpl. rewrite Hcat.
        replace (Z.to_nat (i + batchSize)) with (Z.to_nat i + Z.to_nat batchSize)%nat by lia.
        rewrite <- drop_drop. apply take_drop.
      * constructor; [|done]. rewrite Hlen. lia.
      * intros [|j] b Hj Hb; simpl in Hb.
        -- injection Hb as <-. rewrite Hlen. lia.
        -- apply (Hfull j b); [simpl in Hj; lia | done].
Qed.

Lemma splitIntoBatches_batches (symbols : list string) (batchSize : Z) :
  0 < batchSize ->
  Z.of_nat (length symbols) + batchSize <= int64_max ->
  exists batches,
    splitIntoBatches symbols batchSize = Some batches /\
    concat batches = symbols /\
    Forall (fun b => (0 < length b)%nat /\ Z.of_nat (length b) <= batchSize) batches.
Proof.
  intros Hpos Hmax. unfold splitIntoBatches.
  destruct (splitLoop_spec symbols batchSize Hpos Hmax (length symbols) 0)
    as (batches & H1 & H2 & H3 & _); [lia | lia |].
  exists batches. by rewrite drop_0 in H2.
Qed.

(** X3. For a positive batch size, [splitIntoBatches] returns; the
    batches, put end to end, are the symbols in their order; no batch is
    empty or longer than the batch size, and every batch but the last has
    exactly the batch size. *)
Theorem splitIntoBatches_spec (symbols : list string) (batchSize : Z) :
  0 < batchSize ->
  Z.of_nat (length symbols) + batchSize <= int64_max ->
  exists batches,
    splitIntoBatches symbols batchSize = Some batches /\
    concat batches = symbols /\
    Forall (fun b => (0 < length b)%nat /\ Z.of_nat (length b) <= batchSize) batches /\
    forall j b, (S j < length batches)%nat -> batches !! j = Some b ->
                Z.of_nat (length b) = batchSize.
Proof.
  intros Hpos Hmax. unfold splitIntoBatches.
  destruct (splitLoop_spec symbols batchSize Hpos Hmax (length symbols) 0)
    as (batches & H1 & H2 & H3 & H4); [lia | lia |].
  exists batches. by rewrite drop_0 in H2.
Qed.

Lemma sleeps_app (tr1 tr2 : list event) : sleeps (tr1 ++ tr2) = sleeps tr1 ++ sleeps tr2.
Proof. unfold sleeps. apply omap_app. Qed.

Lemma subscribeBatches_ok (c : CombinedStreamsClient) (interval : string) (now : Time)
    (k : nat) :
  conn c = Some k ->
  (forall streams, wsWriteJSON streams = None) ->
  forall batches i,
    (subscribeBatches c interval i batches now).1 = None /\
    subscribe_calls (subscribeBatches c interval i batches now).2
      = (fun batch : list string => streamName interval <$> batch) <$> batches /\
    sleeps (subscribeBatches c interval i batches now).2
      = replicate (length batches - 1) (100 * Millisecond).
Proof.
  intros Hconn Hw. induction batches as [|batch rest IH]; intros i; [done|].
  cbn [subscribeBatches]. unfold subscribeStreams. rewrite Hconn, Hw.
  destruct (IH (i + 1)) as (IH1 & IH2 & IH3).
  destruct (subscribeBatches c interval (i + 1) rest now) as [res ev'].
  cbn [fst snd] in *. split; [done|]. split.
  - rewrite !subscribe_calls_app, IH2. by destruct rest.
  - rewrite !sleeps_app, IH3. by destruct rest as [|b [|b' rest]].
Qed.


Lemma connection_events_app (tr1 tr2 : list event) :
  connection_events (tr1 ++ tr2) = connection_events tr1 ++ connection_events tr2.
Proof. unfold connection_events. apply filter_app. Qed.

(** X17. While the client is set to reconnect, [handleReconnect] does
    not give up: as long as the dials fail it has not returned; when a
    dial succeeds after [n] failures it has paused 3 s before each of the
    [n + 1] dials, started a retry after each failure, and started the
    read loop once, after the dial that succeeded. *)
Theorem handleReconnect_backoff
    (c : CombinedStreamsClient) (now : Time)
    (failed : list error) (k : nat) (rest : list (nat + error)) :
  reconnect c = true ->
  handleReconnect (inr <$> failed) c now = None /\
  exists c' ev,
    handleReconnect ((inr <$> failed) ++ inl k :: rest) c now = Some (c', ev) /\
    connection_events ev = backoff (length failed) /\
    sleeps ev = replicate (S (length failed)) (3 * Second).
Proof.
  intros Hrec. split.
  - induction failed as [|err failed IH]; cbn [fmap list_fmap handleReconnect].
    + by rewrite Hrec.
    + rewrite Hrec. cbn [negb Connect]. by rewrite IH.
  - induction failed as [|err failed IH]; cbn [fmap list_fmap app handleReconnect].
    + rewrite Hrec. cbn [negb Connect].
      destruct (0 <? length (range_streams (subscribers (with_conn c (Some k)))))%nat.
      * unfold subscribeStreams. cbn [conn with_conn].
        eexists _, _. split; [done|].
        by destruct (onReconnectSubscribeFunc (with_conn c (Some k))).
      * eexists _, _. split; [done|]. done.
    + rewrite Hrec. cbn [negb Connect].
      destruct IH as (c' & ev & -> & Hconn & Hsleeps).
      eexists _, _. split; [done|]. split.
      * change (connection_events
                  (SleepFor (dmul 3 Second) :: [Dial] ++ GoHandleReconnect :: ev))
          with ([SleepFor (3 * Second); Dial; GoHandleReconnect] ++ connection_events ev).
        rewrite Hconn. unfold backoff. cbn [length replicate concat].
        by rewrite <- app_assoc.
      * change (sleeps (SleepFor (dmul 3 Second) :: [Dial] ++ GoHandleReconnect :: ev))
          with ((3 * Second) :: sleeps ev).
        by rewrite Hsleeps.
Qed.

Lemma omap_lookup_fst (subs : gmap string chan) (l : list (string * chan)) :
  (forall k v, (k, v) ∈ l -> subs !! k = Some v) ->
  omap (fun stream => (fun ch => (stream, ch)) <$> subs !! stream) l.*1 = l.
Proof.
  induction l as [|[k v] l IH]; intros Hl; [done|].
  cbn [fmap list_fmap fst omap list_omap].
  rewrite (Hl k v) by left. cbn [fmap option_fmap option_map].
  f_equal. apply IH. intros k' v' Hin. apply Hl. by right.
Qed.

(** X18. [Close] on a client whose [done] channel is still open takes
    the connection away, closes the channel of every registered stream
    and empties the registry, and switches reconnection off; on a client
    whose [done] channel is closed already it panics. The channels closed
    are exactly those of the registry, each once and with its queue as it
    was, so what was queued before the call is still there for the
    consumers to drain. From then on the client is inert:
    [handleReconnect] returns at once without dialling, a frame is queued
    for no one, and [subscribeStreams] fails without writing. *)
Theorem Close_leaves_client_inert (c : CombinedStreamsClient) :
  CombinedStreamsClient_Close c true = None /\
  exists c' closed,
    CombinedStreamsClient_Close c false = Some (c', conn c, closed) /\
    closed ≡ₚ map_to_list (subscribers c) /\
    closed.*1 ≡ₚ (map_to_list (subscribers c)).*1 /\
    NoDup closed.*1 /\
    (forall stream ch, (stream, ch) ∈ closed <-> subscribers c !! stream = Some ch) /\
    conn c' = None /\ subscribers c' = ∅ /\ reconnect c' = false /\
    batchSize c' = batchSize c /\
    onReconnectSubscribeFunc c' = onReconnectSubscribeFunc c /\
    (forall dials now, handleReconnect dials c' now = Some (c', [])) /\
    (forall message,
       (handleCombinedMessage c' message).1 = c' /\
       forall stream, LogChannelFull stream ∉ (handleCombinedMessage c' message).2) /\
    (forall streams' now,
       subscribeStreams c' streams' now = (Some (errorString "WebSocket未连接"), [])).
Proof.
  split; [done|].
  eexists _, _. split; [reflexivity|].
  assert (Hclosed :
    omap (fun stream => (fun ch => (stream, ch)) <$> subscribers c !! stream)
         (range_streams (subscribers c)) ≡ₚ map_to_list (subscribers c)).
  { rewrite (range_streams_perm (subscribers c)).
    rewrite omap_lookup_fst; [done|].
    intros k v Hin. by apply elem_of_map_to_list. }
  split; [exact Hclosed|].
  split; [by rewrite Hclosed|].
  split; [rewrite Hclosed; apply NoDup_fst_map_to_list|].
  split; [intros stream ch; rewrite Hclosed; apply elem_of_map_to_list|].
  split; [done|]. split; [done|]. split; [done|]. split; [done|]. split; [done|].
  set (c' := {| conn := None; subscribers := ∅; reconnect := false;
                batchSize := batchSize c;
                onReconnectSubscribeFunc := onReconnectSubscribeFunc c |}).
  split; [by intros [|dialed dials] now|].
  split; [|done].
  intros message. unfold handleCombinedMessage.
  destruct (unmarshal message) as [[stream data]|].
  - cbn [subscribers c']. rewrite lookup_empty. split; [done|].
    intros s Hs. by apply not_elem_of_nil in Hs.
  - split; [done|]. intros s Hs. apply list_elem_of_singleton in Hs. discriminate.
Qed.

(** X19. After [AddSubscriber] for a stream with a buffer of at least
    one message, the next frame for that stream is queued on the new
    channel, alone, whatever was queued for the stream before, and the
    consumer of the stream receives it; the channels of all other
    streams are the client's old ones, and frames for them are handled
    as they were before the registration. *)
Theorem AddSubscriber_dispatch
    (c : CombinedStreamsClient) (stream : string) (bufferSize : nat)
    (message data : string) :
  (0 < bufferSize)%nat ->
  unmarshal message = Some (stream, data) ->
  exists c2,
    handleCombinedMessage (AddSubscriber c stream bufferSize) message = (c2, []) /\
    subscribers c2 !! stream = Some {| chan_buf := [data]; chan_cap := bufferSize |} /\
    (forall other, other <> stream -> subscribers c2 !! other = subscribers c !! other) /\
    run [Receive stream] c2 = (AddSubscriber c stream bufferSize, [(stream, data)]) /\
    forall message' stream' data',
      unmarshal message' = Some (stream', data') -> stream' <> stream ->
      handleCombinedMessage (AddSubscriber c stream bufferSize) message'
      = (AddSubscriber (handleCombinedMessage c message').1 stream bufferSize,
         (handleCombinedMessage c message').2).
Proof.
  intros Hsize Hparse. unfold handleCombinedMessage at 1. rewrite Hparse.
  cbn [AddSubscriber subscribers with_subscribers]. rewrite lookup_insert_eq.
  unfold trySend. cbn [chan_buf chan_cap length].
  destruct (Nat.ltb_spec 0 bufferSize) as [_|]; [|lia].
  eexists. split; [reflexivity|]. cbn [subscribers with_subscribers app].
  split; [by rewrite lookup_insert_eq|].
  split; [by intros other Hother; rewrite !lookup_insert_ne|].
  split.
  - cbn [run subscribers with_subscribers]. rewrite lookup_insert_eq.
    cbn [recv chan_buf chan_cap]. unfold with_subscribers.
    cbn [conn reconnect batchSize onReconnectSubscribeFunc subscribers].
    by rewrite !insert_insert_eq.
  - intros message' stream' data' Hparse' Hne. unfold handleCombinedMessage.
    rewrite Hparse'.
    assert (Hother : subscribers (AddSubscriber c stream bufferSize) !! stream'
                     = subscribers c !! stream')
      by (cbn; by rewrite lookup_insert_ne).
    rewrite Hother.
    destruct (subscribers c !! stream') as [ch|]; [|done].
    destruct (trySend ch data') as [ch'|]; [|done].
    cbn [fst snd]. unfold AddSubscriber, with_subscribers.
    cbn [conn reconnect batchSize onReconnectSubscribeFunc subscribers].
    by rewrite insert_insert_ne.
Qed.

Lemma subscribeStreams_calls (c : CombinedStreamsClient) (streams : list string) (now : Time) :
  subscribe_calls (subscribeStreams c streams now).2
    = match conn c with Some _ => [streams] | None => [] end /\
  sleeps (subscribeStreams c streams now).2 = [].
Proof. unfold subscribeStreams. by destruct (conn c). Qed.

Lemma subscribeBatches_first_failure (c : CombinedStreamsClient) (interval : string)
    (now : Time) (b : list string) (post : list (list string)) (err : error) :
  (subscribeStreams c (streamName interval <$> b) now).1 = Some err ->
  forall (pre : list (list string)) (i : Z),
    (forall batch, batch ∈ pre ->
       (subscribeStreams c (streamName interval <$> batch) now).1 = None) ->
    (subscribeBatches c interval i (pre ++ b :: post) now).1
      = Some (errorString ("第 " +:+ pretty (i + Z.of_nat (length pre) + 1)
                           +:+ " 批订阅失败: " +:+ Error err)) /\
    subscribe_calls (subscribeBatches c interval i (pre ++ b :: post) now).2
      = ((fun batch : list string => streamName interval <$> batch) <$> pre)
        ++ match conn c with Some _ => [streamName interval <$> b] | None => [] end /\
    sleeps (subscribeBatches c interval i (pre ++ b :: post) now).2
      = replicate (length pre) (100 * Millisecond).
Proof.
  intros Hfail. induction pre as [|batch pre IH]; intros i Hpre.
  - cbn [app subscribeBatches length].
    pose proof (subscribeStreams_calls c (streamName interval <$> b) now) as [Hc Hs].
    destruct (subscribeStreams c (streamName interval <$> b) now) as [res ev].
    cbn [fst snd] in *. subst res. cbn [fst snd].
    replace (i + Z.of_nat 0 + 1) with (i + 1) by lia. done.
  - cbn [app subscribeBatches length].
    pose proof (subscribeStreams_calls c (streamName interval <$> batch) now) as [Hc Hs].
    assert (Hok : (subscribeStreams c (streamName interval <$> batch) now).1 = None)
      by (apply Hpre; by left).
    assert (Hconn : exists k, conn c = Some k).
    { unfold subscribeStreams in Hok. destruct (conn c) as [k|]; [by exists k | done]. }
    destruct Hconn as [k Hconn]. rewrite Hconn in Hc.
    destruct (subscribeStreams c (streamName interval <$> batch) now) as [res ev].
    cbn [fst snd] in *. subst res.
    destruct (IH (i + 1)) as (IH1 & IH2 & IH3).
    { intros batch' Hin. apply Hpre. by right. }
    destruct (subscribeBatches c interval (i + 1) (pre ++ b :: post) now) as [res' ev'].
    cbn [fst snd] in *.
    replace (i + Z.of_nat (S (length pre)) + 1) with (i + 1 + Z.of_nat (length pre) + 1)
      by lia.
    split; [done|]. split.
    + rewrite !subscribe_calls_app, Hc, IH2, Hconn. by destruct pre.
    + rewrite !sleeps_app, Hs, IH3. by destruct pre.
Qed.

(** X20. [BatchSubscribeKlines] stops at the first batch whose
    subscription fails: the batches before it were written, each followed
    by a pause of 100 ms; the failing batch was written too, unless the
    client has no connection; no later batch is written; and the error
    names the failing batch by its position, counted from 1, and quotes
    the cause. *)
Theorem BatchSubscribeKlines_first_failure
    (c : CombinedStreamsClient) (symbols : list string) (interval : string) (now : Time)
    (pre : list (list string)) (b : list string) (post : list (list string)) (err : error) :
  splitIntoBatches symbols (batchSize c) = Some (pre ++ b :: post) ->
  (forall batch, batch ∈ pre ->
     (subscribeStreams c (streamName interval <$> batch) now).1 = None) ->
  (subscribeStreams c (streamName interval <$> b) now).1 = Some err ->
  exists ev,
    BatchSubscribeKlines c symbols interval now
    = Some (Some (errorString ("第 " +:+ pretty (Z.of_nat (length pre) + 1)
                               +:+ " 批订阅失败: " +:+ Error err)), ev) /\
    subscribe_calls ev
    = ((fun batch : list string => streamName interval <$> batch) <$> pre)
      ++ match conn c with Some _ => [streamName interval <$> b] | None => [] end /\
    sleeps ev = replicate (length pre) (100 * Millisecond).
Proof.
  intros Hsplit Hpre Hfail. unfold BatchSubscribeKlines. rewrite Hsplit.
  destruct (subscribeBatches_first_failure c interval now b post err Hfail pre 0 Hpre)
    as (H1 & H2 & H3).
  destruct (subscribeBatches c interval 0 (pre ++ b :: post) now) as [res ev].
  cbn [fst snd] in *. subst res. exists ev. done.
Qed.

Lemma run_unregistered (steps : list step) (c : CombinedStreamsClient) (stream : string) :
  subscribers c !! stream = None ->
  subscribers (run steps c).1 !! stream = None /\
  received_on stream (run steps c).2 = [].
Proof.
  revert c. induction steps as [|[message|s] steps IH]; intros c Hnone; cbn [run]; [done| |].
  - apply IH. unfold handleCombinedMessage.
    destruct (unmarshal message) as [[s data]|]; [|done].
    destruct (subscribers c !! s) as [ch|] eqn:Hs; [|done].
    destruct (trySend ch data) as [ch'|]; [|done].
    cbn. rewrite lookup_insert_ne; [done|]. intros ->. congruence.
  - destruct (subscribers c !! s) as [ch|] eqn:Hs; [|by apply IH].
    destruct (recv ch) as [[data ch']|]; [|by apply IH].
    assert (Hne : s <> stream) by (intros ->; congruence).
    destruct (IH (with_subscribers c (<[s := ch']> (subscribers c)))) as [IH1 IH2].
    { cbn. by rewrite lookup_insert_ne. }
    destruct (run steps (with_subscribers c (<[s := ch']> (subscribers c)))) as [c' got].
    cbn [fst snd] in *. split; [done|].
    unfold received_on. cbn [omap list_omap fst snd].
    destruct (String.eqb_spec s stream) as [|_]; [done|]. exact IH2.
Qed.

(** X21. Frames reach a consumer in the order of their arrival, none
    twice: after any interleaving of arriving frames and receiving
    consumers, what the consumer of a registered stream has received,
    followed by what is still queued for it, is what was queued at the
    start followed by the payloads accepted since, and these are, in
    order, payloads that arrived for that stream. The channel keeps its
    buffer size and never holds more than that; no payload is lost when
    the buffer has room for everything that arrives; and nothing is ever
    received on a stream that is not registered. *)
Theorem run_delivers_in_order (steps : list step) (c : CombinedStreamsClient)
    (stream : string) :
  match subscribers c !! stream with
  | None =>
    subscribers (run steps c).1 !! stream = None /\
    received_on stream (run steps c).2 = []
  | Some ch =>
    exists ch' accepted,
      subscribers (run steps c).1 !! stream = Some ch' /\
      chan_cap ch' = chan_cap ch /\
      received_on stream (run steps c).2 ++ chan_buf ch' = chan_buf ch ++ accepted /\
      accepted `sublist_of` incoming_for stream steps /\
      ((length (chan_buf ch) <= chan_cap ch)%nat ->
         (length (chan_buf ch') <= chan_cap ch')%nat) /\
      ((length (chan_buf ch) + length (incoming_for stream steps) <= chan_cap ch)%nat ->
         accepted = incoming_for stream steps)
  end.
Proof.
  destruct (subscribers c !! stream) as [ch|] eqn:Hch; [|by apply run_unregistered].
  revert c ch Hch.
  induction steps as [|[message|s] steps IH]; intros c ch Hch; cbn [run].
  - exists ch, []. rewrite !app_nil_r. by cbn.
  - unfold handleCombinedMessage, incoming_for. cbn [omap list_omap].
    fold (incoming_for stream steps).
    destruct (unmarshal message) as [[s data]|].
    2:{ cbn [fst]. by apply IH. }
    destruct (String.eqb_spec s stream) as [->|Hne].
    + rewrite Hch. unfold trySend.
      destruct (Nat.ltb_spec (length (chan_buf ch)) (chan_cap ch)) as [Hroom|Hfull];
        cbn [fst].
      * destruct (IH (with_subscribers c
                        (<[stream := {| chan_buf := chan_buf ch ++ [data];
                                        chan_cap := chan_cap ch |}]> (subscribers c)))
                     {| chan_buf := chan_buf ch ++ [data]; chan_cap := chan_cap ch |})
          as (ch' & accepted & H1 & H2 & H3 & H4 & H5 & H6).
        { cbn. by rewrite lookup_insert_eq. }
        cbn [chan_buf chan_cap] in *.
        exists ch', (data :: accepted). split; [done|]. split; [done|].
        split; [by rewrite H3, <- app_assoc|].
        split; [by apply sublist_skip|].
        split.
        -- intros _. apply H5. rewrite length_app. cbn. lia.
        -- intros Hall. f_equal. apply H6. rewrite length_app. cbn in *. lia.
      * destruct (IH c ch Hch) as (ch' & accepted & H1 & H2 & H3 & H4 & H5 & H6).
        exists ch', accepted. split; [done|]. split; [done|]. split; [done|].
        split; [by apply sublist_cons|]. split; [done|].
        intros Hall. cbn in Hall. lia.
    + destruct (subscribers c !! s) as [chs|] eqn:Hs; [|cbn [fst]; by apply IH].
      destruct (trySend chs data) as [chs'|]; cbn [fst]; [|by apply IH].
      apply IH. cbn. by rewrite lookup_insert_ne.
  - unfold incoming_for. cbn [omap list_omap]. fold (incoming_for stream steps).
    destruct (String.eqb_spec s stream) as [->|Hne].
    + rewrite Hch. unfold recv. destruct (chan_buf ch) as [|data queued] eqn:Hbuf.
      * destruct (IH c ch Hch) as (ch' & accepted & H1 & H2 & H3 & H4 & H5 & H6).
        rewrite Hbuf in H3, H5, H6. by exists ch', accepted.
      * destruct (IH (with_subscribers c
                        (<[stream := {| chan_buf := queued; chan_cap := chan_cap ch |}]>
                           (subscribers c)))
                     {| chan_buf := queued; chan_cap := chan_cap ch |})
          as (ch' & accepted & H1 & H2 & H3 & H4 & H5 & H6).
        { cbn. by rewrite lookup_insert_eq. }
        destruct (run steps _) as [c' got]. cbn [fst snd chan_buf chan_cap] in *.
        exists ch', accepted. split; [done|]. split; [done|].
        split.
        { unfold received_on. cbn [omap list_omap fst snd]. rewrite String.eqb_refl.
          fold (received_on stream got). cbn. by rewrite H3. }
        split; [done|]. split; [intros Hle; apply H5; cbn in Hle; lia|].
        intros Hall. apply H6. cbn in Hall. lia.
    + destruct (subscribers c !! s) as [chs|] eqn:Hs; [|by apply IH].
      destruct (recv chs) as [[data chs']|]; [|by apply IH].
      destruct (IH (with_subscribers c (<[s := chs']> (subscribers c))) ch)
        as (ch' & accepted & H1 & H2 & H3 & H4 & H5 & H6).
      { cbn. by rewrite lookup_insert_ne. }
      destruct (run steps _) as [c' got]. cbn [fst snd] in *.
      exists ch', accepted. split; [done|]. split; [done|].
      split; [|done].
      unfold received_on. cbn [omap list_omap fst snd].
      destruct (String.eqb_spec s stream) as [|_]; [done|]. exact H3.
Qed.

Lemma handleKlineData_apply_ops (m : WSMonitor) (symbol : string)
    (received : list (string * Time)) (_time : string) :
  handleKlineData m symbol received _time = apply_ops m (ticks symbol received _time).
Proof.
  unfold handleKlineData, apply_ops, ticks. revert m.
  induction received as [|[data now] received IH]; intros m; [done|].
  cbn [foldl omap list_omap fst snd].
  destruct (unmarshalKline data) as [klineData|]; cbn [fmap option_fmap option_map]; apply IH.
Qed.

(** X22. The consumer goroutine of a stream does to the cache exactly
    what the ticks among the payloads it receives do, in the order of
    receipt; a payload that does not parse is skipped and changes
    nothing; and from a well-formed cache with at most 100 bars per
    sequence it leaves a well-formed cache with at most 100 bars per
    sequence. *)
Theorem handleKlineData_ticks (m : WSMonitor) (symbol : string)
    (received : list (string * Time)) (_time : string) :
  wf m -> bounded m ->
  handleKlineData m symbol received _time = apply_ops m (ticks symbol received _time) /\
  (forall before after data now,
     received = before ++ (data, now) :: after ->
     unmarshalKline data = None ->
     handleKlineData m symbol received _time
     = handleKlineData m symbol (before ++ after) _time) /\
  wf (handleKlineData m symbol received _time) /\
  bounded (handleKlineData m symbol received _time).
Proof.
  intros Hwf Hb. split; [apply handleKlineData_apply_ops|]. split.
  - intros before after data now -> Hbad. rewrite !handleKlineData_apply_ops.
    f_equal. unfold ticks. rewrite !omap_app. cbn [omap list_omap fst]. by rewrite Hbad.
  - unfold handleKlineData. revert m Hwf Hb.
    induction received as [|[data now] received IH]; intros m Hwf Hb; [done|].
    cbn [foldl fst snd].
    destruct (unmarshalKline data) as [klineData|]; [|by apply IH].
    destruct (processKlineUpdate_preserves m symbol klineData _time now Hwf Hb).
    by apply IH.
Qed.

Lemma consumers_started_app (tr1 tr2 : list event) :
  consumers_started (tr1 ++ tr2) = consumers_started tr1 ++ consumers_started tr2.
Proof. unfold consumers_started. apply omap_app. Qed.

Lemma subscribeBatches_consumers (c : CombinedStreamsClient) (interval : string)
    (now : Time) (batches : list (list string)) (i : Z) :
  consumers_started (subscribeBatches c interval i batches now).2 = [].
Proof.
  revert i. induction batches as [|batch rest IH]; intros i; [done|].
  cbn [subscribeBatches]. unfold subscribeStreams.
  destruct (conn c) as [k|]; [|done].
  destruct (wsWriteJSON (streamName interval <$> batch)); [done|].
  specialize (IH (i + 1)).
  destruct (subscribeBatches c interval (i + 1) rest now) as [res ev'].
  cbn [fst snd] in IH |- *. rewrite !consumers_started_app, IH. by destruct rest.
Qed.

Lemma BatchSubscribeKlines_ok (c : CombinedStreamsClient) (symbols : list string)
    (interval : string) (now : Time) (k : nat) :
  conn c = Some k ->
  (forall streams, wsWriteJSON streams = None) ->
  0 < batchSize c ->
  Z.of_nat (length symbols) + batchSize c <= int64_max ->
  exists ev,
    BatchSubscribeKlines c symbols interval now = Some (None, ev) /\
    concat (subscribe_calls ev) = streamName interval <$> symbols /\
    consumers_started ev = [].
Proof.
  intros Hconn Hw Hpos Hmax. unfold BatchSubscribeKlines.
  destruct (splitIntoBatches_batches symbols (batchSize c) Hpos Hmax)
    as (batches & -> & Hcat & _).
  destruct (subscribeBatches_ok c interval now k Hconn Hw batches 0) as (H1 & H2 & _).
  pose proof (subscribeBatches_consumers c interval now batches 0) as H3.
  destruct (subscribeBatches c interval 0 batches now) as [res ev].
  cbn [fst snd] in H1, H2, H3. subst res.
  exists ev. split; [done|]. split; [|done].
  rewrite H2, <- Hcat. clear. induction batches as [|b bs IH]; [done|].
  rewrite fmap_cons. cbn [concat]. by rewrite fmap_app, IH.
Qed.

Lemma elem_of_allStreams (stream symbol : string) (symbols : list string) :
  stream ∈ allStreams (symbol :: symbols) <->
  stream = streamName "3m" symbol \/ stream = streamName "4h" symbol \/
  stream ∈ allStreams symbols.
Proof.
  unfold allStreams. rewrite !fmap_cons, !elem_of_app, !elem_of_cons. split.
  - intros [[H | H] | [H | H]]; auto.
  - intros [H | [H | [H | H]]]; auto.
Qed.

Lemma registerAll_spec (symbols : list string) :
  forall (m : WSMonitor) (ev : list event),
    let r := foldl registerIntervals (m, ev) symbols in
    klineDataMap3m r.1 = klineDataMap3m m /\
    klineDataMap4h r.1 = klineDataMap4h m /\
    mem r.1 = mem m /\
    conn (combinedClient r.1) = conn (combinedClient m) /\
    batchSize (combinedClient r.1) = batchSize (combinedClient m) /\
    reconnect (combinedClient r.1) = reconnect (combinedClient m) /\
    (forall stream, stream ∈ allStreams symbols ->
       subscribers (combinedClient r.1) !! stream
       = Some {| chan_buf := []; chan_cap := 100 |}) /\
    (forall stream, stream ∉ allStreams symbols ->
       subscribers (combinedClient r.1) !! stream
       = subscribers (combinedClient m) !! stream) /\
    consumers_started r.2
    = consumers_started ev
      ++ concat ((fun symbol => [(symbol, streamName "3m" symbol, "3m"%string);
                                 (symbol, streamName "4h" symbol, "4h"%string)])
                   <$> symbols) /\
    subscribe_calls r.2 = subscribe_calls ev.
Proof.
  induction symbols as [|symbol symbols IH]; intros m ev; cbn zeta.
  - cbn [foldl fst snd fmap list_fmap concat]. rewrite app_nil_r.
    repeat split; try done. intros stream Hin. by apply not_elem_of_nil in Hin.
  - cbn [foldl].
    set (m1 := with_client m
                 (AddSubscriber
                    (AddSubscriber (combinedClient m) (streamName "3m" symbol) 100)
                    (streamName "4h" symbol) 100)).
    set (ev1 := (ev ++ [GoHandleKlineData symbol (streamName "3m" symbol) "3m"])
                ++ [GoHandleKlineData symbol (streamName "4h" symbol) "4h"]).
    change (registerIntervals (m, ev) symbol) with (m1, ev1).
    destruct (IH m1 ev1) as (H1 & H2 & H3 & H4 & H5 & H6 & H7 & H8 & H9 & H10).
    split; [done|]. split; [done|]. split; [done|]. split; [done|]. split; [done|].
    split; [done|].
    assert (Hm1 : forall stream,
      subscribers (combinedClient m1) !! stream
      = if decide (stream = streamName "4h" symbol)
        then Some {| chan_buf := []; chan_cap := 100 |}
        else if decide (stream = streamName "3m" symbol)
             then Some {| chan_buf := []; chan_cap := 100 |}
             else subscribers (combinedClient m) !! stream).
    { intros stream. cbn [m1 combinedClient with_client AddSubscriber subscribers
                            with_subscribers].
      destruct (decide (stream = streamName "4h" symbol)) as [->|N4];
        [by rewrite lookup_insert_eq|].
      rewrite lookup_insert_ne by done.
      destruct (decide (stream = streamName "3m" symbol)) as [->|N3];
        [by rewrite lookup_insert_eq|].
      by rewrite lookup_insert_ne. }
    split; [|split; [|split]].
    + intros stream Hin. destruct (decide (stream ∈ allStreams symbols)) as [Hl|Hl].
      * by apply H7.
      * rewrite H8 by done. rewrite Hm1.
        apply elem_of_allStreams in Hin as [-> | [-> | Hin]]; [| |done].
        -- destruct (decide (streamName "3m" symbol = streamName "4h" symbol)); [done|].
           by rewrite decide_True.
        -- by rewrite decide_True.
    + intros stream Hout.
      assert (Hl : stream ∉ allStreams symbols).
      { intros Hl. apply Hout. apply elem_of_allStreams. auto. }
      rewrite H8 by done. rewrite Hm1.
      rewrite decide_False, decide_False; [done| |];
        intros ->; apply Hout; apply elem_of_allStreams; auto.
    + rewrite H9. unfold ev1. rewrite !consumers_started_app. cbn.
      by rewrite <- !app_assoc.
    + rewrite H10. unfold ev1. rewrite !subscribe_calls_app. cbn.
      by rewrite !app_nil_r.
Qed.

(** X23. On a connected client whose writes succeed and whose batch
    size is positive, [subscribeAll] returns without error. It has then
    registered, for every symbol, an empty channel of size 100 for the
    3m stream and for the 4h stream and started one consumer for each,
    and has left every other registration as it was; the subscribe
    frames it wrote name exactly these streams, the 3m streams of all
    symbols first and then the 4h streams, so that every stream it
    subscribed to has its channel. The cache is not touched. *)
Theorem subscribeAll_registers_what_it_subscribes
    (m : WSMonitor) (symbols : list string) (now : Time) (k : nat) :
  conn (combinedClient m) = Some k ->
  (forall streams, wsWriteJSON streams = None) ->
  0 < batchSize (combinedClient m) ->
  Z.of_nat (length symbols) + batchSize (combinedClient m) <= int64_max ->
  exists m' ev,
    subscribeAll m symbols now = Some (None, m', ev) /\
    concat (subscribe_calls ev) = allStreams symbols /\
    (forall stream, stream ∈ allStreams symbols ->
       subscribers (combinedClient m') !! stream
       = Some {| chan_buf := []; chan_cap := 100 |}) /\
    (forall stream, stream ∉ allStreams symbols ->
       subscribers (combinedClient m') !! stream
       = subscribers (combinedClient m) !! stream) /\
    consumers_started ev
    = concat ((fun symbol => [(symbol, streamName "3m" symbol, "3m"%string);
                              (symbol, streamName "4h" symbol, "4h"%string)])
                <$> symbols) /\
    klineDataMap3m m' = klineDataMap3m m /\
    klineDataMap4h m' = klineDataMap4h m /\
    mem m' = mem m.
Proof.
  intros Hconn Hw Hpos Hmax. unfold subscribeAll, registerAll.
  destruct (registerAll_spec symbols m [])
    as (H1 & H2 & H3 & H4 & H5 & H6 & H7 & H8 & H9 & H10).
  destruct (foldl registerIntervals (m, []) symbols) as [m1 ev1].
  cbn [fst snd] in H1, H2, H3, H4, H5, H6, H7, H8, H9, H10.
  destruct (BatchSubscribeKlines_ok (combinedClient m1) symbols "3m" now k)
    as (ev3 & Hb3 & Hc3 & Hg3); [congruence | done | by rewrite H5 | by rewrite H5 |].
  destruct (BatchSubscribeKlines_ok (combinedClient m1) symbols "4h" now k)
    as (ev4 & Hb4 & Hc4 & Hg4); [congruence | done | by rewrite H5 | by rewrite H5 |].
  unfold subKlineTime. cbn [subscribeIntervals]. rewrite Hb3, Hb4.
  eexists _, _. split; [reflexivity|].
  split.
  { rewrite !subscribe_calls_app, H10. cbn [subscribe_calls omap list_omap app].
    rewrite app_nil_r, concat_app, Hc3, Hc4. done. }
  split; [done|]. split; [done|]. split; [|done].
  rewrite !consumers_started_app, H9, Hg3, Hg4. cbn. by rewrite !app_nil_r.
Qed.

(** X25. A tick renews the freshness of its key, however old the entry
    was: after a tick for a 3m or 4h key at instant [now], the key has an
    entry stamped [now]; a read of that key made no more than 15 minutes
    later is served from the cache, with the bars the tick left there,
    without pull, subscription or change of what the cache holds; a read
    made later than that is refused. *)
Theorem tick_renews_freshness
    (m : WSMonitor) (symbol : string) (wsData : KlineWSData) (_time : string)
    (now now' : Time) :
  wf m ->
  _time = "3m"%string \/ _time = "4h"%string ->
  exists e',
    Load (processKlineUpdate m symbol wsData _time now) (getKlineDataMap _time) symbol
      = Some e' /\
    ReceivedAt e' = now /\
    (now' - now <= 15 * Minute ->
       exists r m2,
         GetCurrentKlines (processKlineUpdate m symbol wsData _time now) symbol _time now'
           = (inl r, m2, []) /\
         contents (mem m2) r
           = contents (mem (processKlineUpdate m symbol wsData _time now)) (Klines e') /\
         cache_view m2 = cache_view (processKlineUpdate m symbol wsData _time now)) /\
    (15 * Minute < now' - now ->
       exists err,
         GetCurrentKlines (processKlineUpdate m symbol wsData _time now) symbol _time now'
           = (inr err, processKlineUpdate m symbol wsData _time now, [])).
Proof.
  intros Hwf Hdur.
  destruct (processKlineUpdate_shape m symbol wsData _time now Hwf)
    as (h' & klines' & Heq & Hx & Hw & _).
  set (m1 := processKlineUpdate m symbol wsData _time now) in *.
  assert (Hwf1 : wf m1) by (rewrite Heq; by apply wf_Store).
  assert (Hload : Load m1 (getKlineDataMap _time) symbol
                  = Some {| Klines := klines'; ReceivedAt := now |}).
  { rewrite Heq, Load_Store. rewrite decide_True; [done|].
    split; [done|]. split; [done|]. by apply getKlineDataMap_cached. }
  exists {| Klines := klines'; ReceivedAt := now |}.
  split; [done|]. split; [done|]. split.
  - intros Hage.
    destruct (GetCurrentKlines_view m1 symbol _time now' Hwf1) as (Hobs & _).
    unfold GetCurrentKlines_on_view in Hobs.
    rewrite view_Load_cache_view, Hload in Hobs.
    cbn [fmap option_fmap option_map view_entry ReceivedAt Klines] in Hobs.
    destruct (maxAge <? Since now' now) eqn:Hs; [apply stale_iff in Hs; lia|].
    destruct (GetCurrentKlines m1 symbol _time now') as [[res m2] ev].
    cbn [observe] in Hobs. apply observation_inv in Hobs as (Hres & _ & Hview & ->).
    destruct res as [r|err]; [|done]. injection Hres as Hres. by exists r, m2.
  - intros Hage. unfold GetCurrentKlines. rewrite Hload. cbn [ReceivedAt].
    apply stale_iff in Hage. rewrite Hage. by eexists.
Qed.

End Environment.

(** *** Concrete runs *)

Definition bar (openTime : Z) (price : float64) : Kline :=
  {| OpenTime := openTime; Open := price; High := price; Low := price;
     Close := price; Volume := 1%float; CloseTime := openTime + 179999;
     QuoteVolume := price; Trades := 1;
     TakerBuyBaseVolume := 0%float; TakerBuyQuoteVolume := 0%float |}.

Definition testApi (_ : Time) (symbol _ : string) (_ : Z) : (list Kline * nat) + error :=
  if String.eqb symbol "DOWNUSDT" then inr (errorString "EOF")
  else inl ([bar 0 100%float; bar 180000 101%float], 0%nat).

Definition testWrite (_ : list string) : option error := None.

Definition testGrowth (n : nat) : nat := n.

Definition testFmt (d : Duration) : string := pretty (d / Minute).

Definition testParse (_ : string) : float64 := 102%float.

Definition testRange (subs : gmap string chan) : list string := (map_to_list subs).*1.

Definition newClient : CombinedStreamsClient :=
  {| conn := Some 0%nat; subscribers := ∅; reconnect := true; batchSize := 10;
     onReconnectSubscribeFunc := false |}.

Definition newMonitor : WSMonitor :=
  {| combinedClient := newClient; klineDataMap3m := ∅; klineDataMap4h := ∅; mem := [] |}.

Definition solEntry : KlineCacheEntry :=
  {| Klines := {| arr := 0; off := 0; len := 1 |}; ReceivedAt := 0 |}.

(** The monitor of [TestWSMonitor_GetCurrentKlines_BoundaryCase]: one
    entry for SOLUSDT, received at instant 0. *)
Definition solMonitor : WSMonitor :=
  {| combinedClient := newClient;
     klineDataMap3m := {["SOLUSDT" := solEntry]};
     klineDataMap4h := ∅;
     mem := [[bar 0 100%float]] |}.

Definition tick (openTime : Z) : KlineWSData :=
  {| StartTime := openTime; WSCloseTime := openTime + 179999; NumberOfTrades := 7;
     OpenPrice := "102"; HighPrice := "102"; LowPrice := "102"; ClosePrice := "102";
     WSVolume := "5"; WSQuoteVolume := "510"; WSTakerBuyBaseVolume := "2";
     WSTakerBuyQuoteVolume := "204" |}.

(** The registry of [TestCombinedStreamsClient_ReconnectResubscribes]. *)
Definition testRegistry : CombinedStreamsClient :=
  {| conn := None;
     subscribers :=
       <["btcusdt@kline_3m" := {| chan_buf := []; chan_cap := 10 |}]>
         (<["ethusdt@kline_4h" := {| chan_buf := []; chan_cap := 10 |}]>
            {["solusdt@kline_3m" := {| chan_buf := []; chan_cap := 10 |}]});
     reconnect := true; batchSize := 10; onReconnectSubscribeFunc := true |}.

Definition batchingClient : CombinedStreamsClient :=
  {| conn := Some 1%nat; subscribers := ∅; reconnect := true; batchSize := 2;
     onReconnectSubscribeFunc := false |}.

(** A connected client with two payloads queued for one stream. *)
Definition queuedClient : CombinedStreamsClient :=
  {| conn := Some 3%nat;
     subscribers :=
       {["btcusdt@kline_3m" :=
           {| chan_buf := ["{k1}"%string; "{k2}"%string]; chan_cap := 100 |}]};
     reconnect := true; batchSize := 10; onReconnectSubscribeFunc := false |}.

(** Frames of the form [stream:payload], for the concrete runs. *)
Fixpoint testUnmarshal (message : string) : option (string * string) :=
  match message with
  | EmptyString => None
  | String ch rest =>
    if Ascii.eqb ch ":" then Some (EmptyString, rest)
    else match testUnmarshal rest with
         | Some (stream, data) => Some (String ch stream, data)
         | None => None
         end
  end.

Definition testUnmarshalKline (data : string) : option KlineWSData :=
  if String.eqb data "garbled" then None else Some (tick 180000).

(** A connection on which writing the frame for [streams] fails. *)
Definition brokenPipeOn (streams : list string) (written : list string) : option error :=
  if decide (written = streams) then Some (errorString "write: broken pipe") else None.

Lemma wf_newMonitor : wf newMonitor.
Proof. intros ref key e H. by destruct ref. Qed.

Lemma wf_solMonitor : wf solMonitor.
Proof.
  intros ref key e H. destruct ref; simpl in H; [|done|done].
  apply lookup_singleton_Some in H as [_ <-]. split; simpl; lia.
Qed.

Lemma GetCurrentKlines_stale_witness :
  Load solMonitor (getKlineDataMap "3m") "SOLUSDT" = Some solEntry /\
  GetCurrentKlines testApi testWrite testFmt solMonitor "SOLUSDT" "3m"
    (15 * Minute + Second)
  = (inr (staleError testFmt "SOLUSDT" "3m" (15 * Minute + Second)), solMonitor, []).
Proof.
  split; [reflexivity|].
  destruct (GetCurrentKlines_stale testApi testWrite testFmt solMonitor
              "SOLUSDT" "3m" (15 * Minute + Second) solEntry eq_refl) as [H _].
  destruct H as [H _]; [vm_compute; reflexivity | exact H].
Defined.

(** The boundary itself, by computation: served at 15 min, refused one
    second later. *)
Example GetCurrentKlines_boundary :
  (GetCurrentKlines testApi testWrite testFmt solMonitor "SOLUSDT" "3m" (15 * Minute)).1.1
    = inl {| arr := 1; off := 0; len := 1 |} /\
  (GetCurrentKlines testApi testWrite testFmt solMonitor "SOLUSDT" "3m"
     (15 * Minute + Second)).1.1
    = inr (errorString "SOLUSDT 的 3m K线数据已过期 (15 分钟)，WebSocket 可能未正常工作").
Proof. vm_compute. split; reflexivity. Qed.

Lemma GetCurrentKlines_returns_copy_witness :
  wf solMonitor /\
  GetCurrentKlines testApi testWrite testFmt solMonitor "SOLUSDT" "3m" Minute
    = (inl {| arr := 1; off := 0; len := 1 |},
       with_mem solMonitor [[bar 0 100%float]; [bar 0 100%float]], []) /\
  observe
    (GetCurrentKlines testApi testWrite testFmt
       (with_mem (with_mem solMonitor [[bar 0 100%float]; [bar 0 100%float]])
          (set_index [[bar 0 100%float]; [bar 0 100%float]]
             {| arr := 1; off := 0; len := 1 |} 0 (bar 999 0%float)))
       "SOLUSDT" "3m" (2 * Minute))
  = observe
      (GetCurrentKlines testApi testWrite testFmt
         (with_mem solMonitor [[bar 0 100%float]; [bar 0 100%float]])
         "SOLUSDT" "3m" (2 * Minute)).
Proof.
  split; [apply wf_solMonitor|]. split; [reflexivity|].
  destruct (GetCurrentKlines_returns_copy testApi testWrite testFmt solMonitor
              "SOLUSDT" "3m" Minute
              {| arr := 1; off := 0; len := 1 |}
              (with_mem solMonitor [[bar 0 100%float]; [bar 0 100%float]]) []
              wf_solMonitor eq_refl) as (_ & _ & H).
  destruct (H (set_index [[bar 0 100%float]; [bar 0 100%float]]
                 {| arr := 1; off := 0; len := 1 |} 0 (bar 999 0%float))) as [_ H2].
  - apply (caller_writes_set_index [[bar 0 100%float]; [bar 0 100%float]]
             {| arr := 1; off := 0; len := 1 |}).
  - apply H2.
Defined.

(** The caller overwrites the bar it was given; the next read still
    returns the cached bar. *)
Example GetCurrentKlines_caller_overwrites :
  contents
    (set_index [[bar 0 100%float]; [bar 0 100%float]]
       {| arr := 1; off := 0; len := 1 |} 0 (bar 999 0%float))
    {| arr := 1; off := 0; len := 1 |} = [bar 999 0%float] /\
  (observe
     (GetCurrentKlines testApi testWrite testFmt
        (with_mem solMonitor
           (set_index [[bar 0 100%float]; [bar 0 100%float]]
              {| arr := 1; off := 0; len := 1 |} 0 (bar 999 0%float)))
        "SOLUSDT" "3m" (2 * Minute))).1.1.1 = inl [bar 0 100%float].
Proof. vm_compute. split; reflexivity. Qed.

Lemma GetCurrentKlines_miss_seeds_witness :
  wf newMonitor /\
  Load newMonitor (getKlineDataMap "3m") "BTCUSDT" = None /\
  testApi 0 "BTCUSDT" "3m" 100 = inl ([bar 0 100%float; bar 180000 101%float], 0%nat) /\
  ToUpper "BTCUSDT" = "BTCUSDT" /\
  exists r m1 ev,
    GetCurrentKlines testApi testWrite testFmt newMonitor "BTCUSDT" "3m" 0
      = (inl r, m1, ev) /\
    pulls ev = 1%nat /\
    contents (mem m1) r = [bar 0 100%float; bar 180000 101%float] /\
    pulls (GetCurrentKlines testApi testWrite testFmt m1 "BTCUSDT" "3m" Minute).2 = 0%nat.
Proof.
  split; [apply wf_newMonitor|]. split; [reflexivity|]. split; [reflexivity|].
  split; [reflexivity|].
  destruct (GetCurrentKlines_miss_seeds testApi testWrite testFmt newMonitor
              "BTCUSDT" "3m" 0 wf_newMonitor eq_refl) as [_ H].
  destruct (H [bar 0 100%float; bar 180000 101%float] 0%nat eq_refl)
    as (r & m1 & ev & Hget & Hpulls & _ & _ & Hcont & _ & Hseed & _).
  destruct (Hseed (or_introl eq_refl) eq_refl) as [_ Hnext].
  exists r, m1, ev. split; [exact Hget|]. split; [exact Hpulls|].
  split; [exact Hcont|]. apply (Hnext Minute).
Defined.

(** C6 (as the claim words it) fails for an interval without a cache: a
    read of ["1h"] finds no entry, pulls, and leaves both maps empty, so
    the read that follows finds no entry either and pulls again. *)
Lemma GetCurrentKlines_uncached_interval_pulls_again :
  Load newMonitor (getKlineDataMap "1h") "BTCUSDT" = None /\
  pulls (GetCurrentKlines testApi testWrite testFmt newMonitor "BTCUSDT" "1h" 0).2 = 1%nat /\
  klineDataMap3m
    (GetCurrentKlines testApi testWrite testFmt newMonitor "BTCUSDT" "1h" 0).1.2 = ∅ /\
  klineDataMap4h
    (GetCurrentKlines testApi testWrite testFmt newMonitor "BTCUSDT" "1h" 0).1.2 = ∅ /\
  Load (GetCurrentKlines testApi testWrite testFmt newMonitor "BTCUSDT" "1h" 0).1.2
    (getKlineDataMap "1h") "BTCUSDT" = None /\
  pulls (GetCurrentKlines testApi testWrite testFmt
           (GetCurrentKlines testApi testWrite testFmt newMonitor "BTCUSDT" "1h" 0).1.2
           "BTCUSDT" "1h" 1).2 = 1%nat.
Proof. vm_compute. repeat split. Qed.

(** The entry is stored under [strings.ToUpper(symbol)] but looked up
    under [symbol]: after a miss for a symbol in lower case the entry is
    under the upper-case key, and the same read misses and pulls again. *)
Example GetCurrentKlines_lower_case_symbol :
  Load (GetCurrentKlines testApi testWrite testFmt newMonitor "btcusdt" "3m" 0).1.2
    Map3m "btcusdt" = None /\
  is_Some
    (Load (GetCurrentKlines testApi testWrite testFmt newMonitor "btcusdt" "3m" 0).1.2
       Map3m "BTCUSDT") /\
  pulls (GetCurrentKlines testApi testWrite testFmt
           (GetCurrentKlines testApi testWrite testFmt newMonitor "btcusdt" "3m" 0).1.2
           "btcusdt" "3m" 1).2 = 1%nat.
Proof. vm_compute. repeat split. by eexists. Qed.

Lemma processKlineUpdate_spec_witness :
  wf solMonitor /\
  Load solMonitor (getKlineDataMap "3m") "SOLUSDT" = Some solEntry /\
  exists e',
    Load (processKlineUpdate testGrowth testParse solMonitor "SOLUSDT" (tick 180000) "3m" 5)
      (getKlineDataMap "3m") "SOLUSDT" = Some e' /\
    ReceivedAt e' = 5 /\
    contents
      (mem (processKlineUpdate testGrowth testParse solMonitor "SOLUSDT" (tick 180000) "3m" 5))
      (Klines e')
    = [bar 0 100%float;
       {| OpenTime := 180000; Open := 102%float; High := 102%float; Low := 102%float;
          Close := 102%float; Volume := 102%float; CloseTime := 359999;
          QuoteVolume := 102%float; Trades := 7;
          TakerBuyBaseVolume := 102%float; TakerBuyQuoteVolume := 102%float |}].
Proof.
  split; [apply wf_solMonitor|]. split; [reflexivity|].
  destruct (processKlineUpdate_spec testGrowth testParse solMonitor "SOLUSDT"
              (tick 180000) "3m" 5 solEntry _ wf_solMonitor eq_refl eq_refl)
    as (e' & H1 & H2 & H3 & _).
  exists e'. split; [exact H1|]. split; [exact H2 | exact H3].
Defined.

(** A new bar is appended; a tick for the same bar replaces it. *)
Example processKlineUpdate_append_then_replace :
  cache_view (processKlineUpdate testGrowth testParse solMonitor "SOLUSDT" (tick 180000) "3m" 5)
    = ({["SOLUSDT" := ([bar 0 100%float; toKline testParse (tick 180000)], 5)]}, ∅) /\
  cache_view (processKlineUpdate testGrowth testParse solMonitor "SOLUSDT" (tick 0) "3m" 6)
    = ({["SOLUSDT" := ([toKline testParse (tick 0)], 6)]}, ∅).
Proof. vm_compute. split; reflexivity. Qed.

Lemma handleReconnect_resubscribes_witness :
  reconnect testRegistry = true /\
  exists c' ev,
    handleReconnect testWrite testRange
      ((inr <$> [errorString "dial tcp: i/o timeout"]) ++ inl 7%nat :: []) testRegistry 42
      = Some (c', ev) /\
    conn c' = Some 7%nat /\
    subscribers c' = subscribers testRegistry /\
    resubscribed testRegistry (subscribe_calls ev) (hook_calls ev).
Proof.
  split; [reflexivity|].
  apply (handleReconnect_resubscribes testWrite testRange).
  - intros subs. reflexivity.
  - reflexivity.
Defined.

(** The reconnect test: three registered streams, one failed dial, then a
    successful one; one frame and one hook call, each with the three
    streams. *)
Example handleReconnect_three_streams :
  option_map (fun r => (subscribe_calls r.2, hook_calls r.2))
    (handleReconnect testWrite testRange
       [inr (errorString "dial tcp: i/o timeout"); inl 7%nat] testRegistry 42)
  = Some ([testRange (subscribers testRegistry)], [testRange (subscribers testRegistry)]) /\
  testRange (subscribers testRegistry)
    ≡ₚ ["btcusdt@kline_3m"; "ethusdt@kline_4h"; "solusdt@kline_3m"] /\
  option_map (fun r => (subscribe_calls r.2, hook_calls r.2))
    (handleReconnect testWrite testRange [inl 7%nat] newClient 42)
  = Some ([], []).
Proof.
  split; [vm_compute; reflexivity|]. split; [|vm_compute; reflexivity].
  vm_compute. apply (bool_decide_unpack _). vm_compute. reflexivity.
Qed.

Lemma testApi_limit (now : Time) (symbol duration : string)
    (pulled : list Kline) (spare : nat) :
  testApi now symbol duration 100 = inl (pulled, spare) -> (length pulled <= 100)%nat.
Proof.
  unfold testApi. destruct (String.eqb symbol "DOWNUSDT"); [done|].
  intros [= <- _]. simpl. lia.
Qed.

Lemma bounded_newMonitor : bounded newMonitor.
Proof. intros ref key e H. by destruct ref. Qed.

Lemma cache_stays_within_100_witness :
  wf newMonitor /\ bounded newMonitor /\
  bounded
    (apply_ops testApi testWrite testGrowth testFmt testParse newMonitor
       [Seed "SOLUSDT" 0; Read "BTCUSDT" "3m" 0; Tick "BTCUSDT" (tick 360000) "3m" 5;
        Tick "ETHUSDT" (tick 0) "4h" 6]).
Proof.
  split; [apply wf_newMonitor|]. split; [apply bounded_newMonitor|].
  destruct (cache_stays_within_100 testApi testWrite testGrowth testFmt testParse
              newMonitor
              [Seed "SOLUSDT" 0; Read "BTCUSDT" "3m" 0; Tick "BTCUSDT" (tick 360000) "3m" 5;
               Tick "ETHUSDT" (tick 0) "4h" 6]
              testApi_limit wf_newMonitor bounded_newMonitor) as (_ & H & _).
  exact H.
Defined.

Lemma processKlineUpdate_first_tick_witness :
  wf newMonitor /\
  Load newMonitor (getKlineDataMap "4h") "ETHUSDT" = None /\
  exists e',
    Load (processKlineUpdate testGrowth testParse newMonitor "ETHUSDT" (tick 0) "4h" 6)
      (getKlineDataMap "4h") "ETHUSDT" = Some e' /\
    ReceivedAt e' = 6 /\
    contents (mem (processKlineUpdate testGrowth testParse newMonitor "ETHUSDT" (tick 0) "4h" 6))
      (Klines e') = [toKline testParse (tick 0)].
Proof.
  split; [apply wf_newMonitor|]. split; [reflexivity|].
  destruct (processKlineUpdate_first_tick testGrowth testParse newMonitor "ETHUSDT"
              (tick 0) "4h" 6 wf_newMonitor eq_refl) as [H _].
  apply H. right. reflexivity.
Defined.

Lemma splitIntoBatches_spec_witness :
  0 < 2 /\
  exists batches,
    splitIntoBatches ["BTCUSDT"; "ETHUSDT"; "SOLUSDT"; "BNBUSDT"; "XRPUSDT"] 2
      = Some batches /\
    concat batches = ["BTCUSDT"; "ETHUSDT"; "SOLUSDT"; "BNBUSDT"; "XRPUSDT"].
Proof.
  split; [lia|].
  destruct (splitIntoBatches_spec ["BTCUSDT"; "ETHUSDT"; "SOLUSDT"; "BNBUSDT"; "XRPUSDT"] 2)
    as (batches & H1 & H2 & _).
  - lia.
  - vm_compute. discriminate.
  - exists batches. split; [exact H1 | exact H2].
Defined.

Example splitIntoBatches_five_by_two :
  splitIntoBatches ["BTCUSDT"; "ETHUSDT"; "SOLUSDT"; "BNBUSDT"; "XRPUSDT"] 2
    = Some [["BTCUSDT"; "ETHUSDT"]; ["SOLUSDT"; "BNBUSDT"]; ["XRPUSDT"]] /\
  splitIntoBatches ["BTCUSDT"] 0 = None /\
  splitIntoBatches ["BTCUSDT"] (-1) = None /\
  splitIntoBatches [] 0 = Some [].
Proof. vm_compute. repeat split. Qed.


Example BatchSubscribeKlines_three_by_two :
  BatchSubscribeKlines testWrite batchingClient ["BTCUSDT"; "ETHUSDT"; "SOLUSDT"] "3m" 9
  = Some (None,
          [WriteJSON "SUBSCRIBE" ["btcusdt@kline_3m"; "ethusdt@kline_3m"] 9;
           SleepFor (100 * Millisecond);
           WriteJSON "SUBSCRIBE" ["solusdt@kline_3m"] 9]).
Proof. vm_compute. reflexivity. Qed.

Lemma handleReconnect_backoff_witness :
  reconnect testRegistry = true /\
  handleReconnect testWrite testRange
    (inr <$> [errorString "dial tcp: i/o timeout"]) testRegistry 42 = None /\
  exists c' ev,
    handleReconnect testWrite testRange
      ((inr <$> [errorString "dial tcp: i/o timeout"]) ++ inl 7%nat :: []) testRegistry 42
      = Some (c', ev) /\
    connection_events ev = backoff 1.
Proof.
  split; [reflexivity|].
  destruct (handleReconnect_backoff testWrite testRange testRegistry 42
              [errorString "dial tcp: i/o timeout"] 7%nat [] eq_refl)
    as [Hnone (c' & ev & H1 & H2 & _)].
  split; [exact Hnone|]. exists c', ev. split; [exact H1 | exact H2].
Defined.

Lemma Close_leaves_client_inert_witness :
  exists c',
    CombinedStreamsClient_Close testRange queuedClient false
      = Some (c', Some 3%nat,
              [("btcusdt@kline_3m"%string,
                {| chan_buf := ["{k1}"%string; "{k2}"%string]; chan_cap := 100 |})]) /\
    subscribers c' = ∅ /\
    forall dials now, handleReconnect testWrite testRange dials c' now = Some (c', []).
Proof.
  destruct (Close_leaves_client_inert testWrite testUnmarshal testRange
              (fun subs => Permutation_refl _) queuedClient)
    as (_ & c' & closed & H1 & H2 & _ & _ & _ & _ & H4 & _ & _ & _ & H6 & _).
  exists c'. split; [|split; [exact H4 | exact H6]].
  rewrite H1. f_equal. f_equal.
  change (map_to_list (subscribers queuedClient))
    with (map_to_list ({["btcusdt@kline_3m"%string :=
            {| chan_buf := ["{k1}"%string; "{k2}"%string]; chan_cap := 100 |}]}
            : gmap string chan)) in H2.
  rewrite map_to_list_singleton in H2.
  apply Permutation_singleton_r in H2. exact H2.
Defined.

Lemma AddSubscriber_dispatch_witness :
  (0 < 100)%nat /\
  testUnmarshal "btcusdt@kline_3m:{k}" = Some ("btcusdt@kline_3m"%string, "{k}"%string) /\
  exists c2,
    handleCombinedMessage testUnmarshal (AddSubscriber newClient "btcusdt@kline_3m" 100)
      "btcusdt@kline_3m:{k}" = (c2, []) /\
    run testUnmarshal [Receive "btcusdt@kline_3m"] c2
    = (AddSubscriber newClient "btcusdt@kline_3m" 100, [("btcusdt@kline_3m"%string, "{k}"%string)]).
Proof.
  split; [lia|]. split; [reflexivity|].
  destruct (AddSubscriber_dispatch testUnmarshal newClient "btcusdt@kline_3m" 100
              "btcusdt@kline_3m:{k}" "{k}") as (c2 & H1 & _ & _ & H4 & _).
  - lia.
  - reflexivity.
  - exists c2. split; [exact H1 | exact H4].
Defined.

Lemma BatchSubscribeKlines_first_failure_witness :
  splitIntoBatches ["BTCUSDT"; "ETHUSDT"; "SOLUSDT"] (batchSize batchingClient)
    = Some ([["BTCUSDT"; "ETHUSDT"]] ++ ["SOLUSDT"] :: []) /\
  (subscribeStreams (brokenPipeOn ["solusdt@kline_3m"]) batchingClient
     (streamName "3m" <$> ["SOLUSDT"]) 9).1 = Some (errorString "write: broken pipe") /\
  exists ev,
    BatchSubscribeKlines (brokenPipeOn ["solusdt@kline_3m"]) batchingClient
      ["BTCUSDT"; "ETHUSDT"; "SOLUSDT"] "3m" 9
    = Some (Some (errorString "第 2 批订阅失败: write: broken pipe"), ev) /\
    sleeps ev = [100 * Millisecond].
Proof.
  split; [reflexivity|]. split; [reflexivity|].
  destruct (BatchSubscribeKlines_first_failure (brokenPipeOn ["solusdt@kline_3m"])
              batchingClient ["BTCUSDT"; "ETHUSDT"; "SOLUSDT"] "3m" 9
              [["BTCUSDT"; "ETHUSDT"]] ["SOLUSDT"] [] (errorString "write: broken pipe"))
    as (ev & H1 & _ & H3).
  - reflexivity.
  - intros batch Hin. apply list_elem_of_singleton in Hin as ->. reflexivity.
  - reflexivity.
  - exists ev. split; [exact H1 | exact H3].
Defined.

(** Without a connection the first batch fails before anything is
    written; with no symbols there is nothing to do. *)
Example BatchSubscribeKlines_disconnected :
  BatchSubscribeKlines testWrite testRegistry ["BTCUSDT"; "ETHUSDT"] "3m" 9
    = Some (Some (errorString "第 1 批订阅失败: WebSocket未连接"), []) /\
  BatchSubscribeKlines testWrite testRegistry [] "3m" 9 = Some (None, []).
Proof. vm_compute. split; reflexivity. Qed.

Lemma handleKlineData_ticks_witness :
  wf solMonitor /\ bounded solMonitor /\
  testUnmarshalKline "garbled" = None /\
  handleKlineData testGrowth testParse testUnmarshalKline solMonitor "SOLUSDT"
    [("{k}"%string, 5); ("garbled"%string, 6)] "3m"
  = handleKlineData testGrowth testParse testUnmarshalKline solMonitor "SOLUSDT"
      ([("{k}"%string, 5)] ++ []) "3m" /\
  bounded
    (handleKlineData testGrowth testParse testUnmarshalKline solMonitor "SOLUSDT"
       [("{k}"%string, 5); ("garbled"%string, 6)] "3m").
Proof.
  assert (Hb : bounded solMonitor).
  { intros ref key e H. destruct ref; simpl in H; [|done|done].
    apply lookup_singleton_Some in H as [_ <-]. simpl. lia. }
  split; [apply wf_solMonitor|]. split; [exact Hb|]. split; [reflexivity|].
  destruct (handleKlineData_ticks testApi testWrite testGrowth testFmt testParse
              testUnmarshalKline solMonitor "SOLUSDT"
              [("{k}"%string, 5); ("garbled"%string, 6)] "3m" wf_solMonitor Hb)
    as (_ & Hskip & _ & Hbounded).
  split; [|exact Hbounded].
  apply (Hskip [("{k}"%string, 5)] [] "garbled"%string 6); reflexivity.
Defined.

Lemma subscribeAll_registers_what_it_subscribes_witness :
  conn (combinedClient (with_client newMonitor batchingClient)) = Some 1%nat /\
  0 < batchSize (combinedClient (with_client newMonitor batchingClient)) /\
  exists m' ev,
    subscribeAll testWrite (with_client newMonitor batchingClient)
      ["BTCUSDT"; "ETHUSDT"; "SOLUSDT"] 9 = Some (None, m', ev) /\
    concat (subscribe_calls ev) = allStreams ["BTCUSDT"; "ETHUSDT"; "SOLUSDT"] /\
    forall stream, stream ∈ allStreams ["BTCUSDT"; "ETHUSDT"; "SOLUSDT"] ->
      subscribers (combinedClient m') !! stream
      = Some {| chan_buf := []; chan_cap := 100 |}.
Proof.
  split; [reflexivity|]. split; [reflexivity|].
  destruct (subscribeAll_registers_what_it_subscribes testWrite
              (with_client newMonitor batchingClient)
              ["BTCUSDT"; "ETHUSDT"; "SOLUSDT"] 9 1%nat)
    as (m' & ev & H1 & H2 & H3 & _).
  - reflexivity.
  - intros streams. reflexivity.
  - reflexivity.
  - vm_compute. discriminate.
  - exists m', ev. split; [exact H1|]. split; [exact H2 | exact H3].
Defined.

(** Three symbols in batches of two: six registrations, then the 3m
    streams and the 4h streams in two frames each. *)
Example subscribeAll_three_symbols :
  option_map (fun r => (consumers_started r.2, subscribe_calls r.2, sleeps r.2))
    (subscribeAll testWrite (with_client newMonitor batchingClient)
       ["BTCUSDT"; "ETHUSDT"; "SOLUSDT"] 9)
  = Some ([("BTCUSDT", "btcusdt@kline_3m", "3m"); ("BTCUSDT", "btcusdt@kline_4h", "4h");
           ("ETHUSDT", "ethusdt@kline_3m", "3m"); ("ETHUSDT", "ethusdt@kline_4h", "4h");
           ("SOLUSDT", "solusdt@kline_3m", "3m"); ("SOLUSDT", "solusdt@kline_4h", "4h")]%string,
          [["btcusdt@kline_3m"; "ethusdt@kline_3m"]; ["solusdt@kline_3m"];
           ["btcusdt@kline_4h"; "ethusdt@kline_4h"]; ["solusdt@kline_4h"]]%string,
          [100 * Millisecond; 100 * Millisecond]).
Proof. vm_compute. reflexivity. Qed.

(** A channel of size 1: the second frame is dropped, the first is
    received, and then there is room again. *)
Example run_drops_when_full :
  (run testUnmarshal
     [Incoming "s:a"; Incoming "s:b"; Receive "s"; Incoming "s:c"; Receive "s"; Receive "s"]
     (AddSubscriber newClient "s" 1)).2
  = [("s"%string, "a"%string); ("s"%string, "c"%string)].
Proof. vm_compute. reflexivity. Qed.

Lemma tick_renews_freshness_witness :
  wf solMonitor /\
  (exists err,
     GetCurrentKlines testApi testWrite testFmt solMonitor "SOLUSDT" "3m" (20 * Minute)
       = (inr err, solMonitor, [])) /\
  exists r m2,
    GetCurrentKlines testApi testWrite testFmt
      (processKlineUpdate testGrowth testParse solMonitor "SOLUSDT" (tick 180000) "3m"
         (20 * Minute))
      "SOLUSDT" "3m" (30 * Minute) = (inl r, m2, []).
Proof.
  split; [apply wf_solMonitor|]. split; [eexists; vm_compute; reflexivity|].
  destruct (tick_renews_freshness testApi testWrite testGrowth testFmt testParse
              solMonitor "SOLUSDT" (tick 180000) "3m" (20 * Minute) (30 * Minute)
              wf_solMonitor (or_introl eq_refl)) as (e' & _ & _ & Hfresh & _).
  destruct Hfresh as (r & m2 & H & _); [vm_compute; discriminate|].
  exists r, m2. exact H.
Defined.

End Market.
